(** * Oracle Challenge: prediction lifecycle and scoring engine

    A shallow embedding of the TypeScript sources

      - [src/game/scorer.ts]    (reward arithmetic),
      - [src/moltbook/parser.ts] (forecast extraction, deadline parsing),
      - [src/db/sqlite.ts]      (the record store),
      - [src/game/resolver.ts]  (settlement and outcome matching),
      - [src/index.ts]          (the reading of comments, the leaderboard post),
      - [contracts/OraclePredictions.sol], [contracts/OracleToken.sol]
        (the ledger),

    followed by the properties proved about them.

    Conventions of the embedding.
      - A JavaScript [number] that holds a count read from an INTEGER
        column is a [Z] (a double holds such a count exactly below 2^53);
        every other [number] is an IEEE 754 binary64 value, a [spec_float]
        with precision 53 and [emax] 1024, and its arithmetic is the
        correctly rounded one of [SpecFloat].
      - Strings are [string]s of 8-bit characters; the case mappings and the
        character classes are the ASCII ones.
      - A [Date] is its local time value in milliseconds: the time value
        shifted by the zone offset of the process, taken constant, so that
        the local calendar fields are those of the proleptic Gregorian
        calendar on that value.
      - The SQLite database is a record of three finite maps keyed by the
        primary key [id]; every statement is a function on that record.
      - [new Date()], [uuidv4()], CURRENT_TIMESTAMP and the blockchain call
        are inputs of the function that performs them. *)

From Stdlib Require Import ZArith QArith Qminmax Qabs Qround Floats.SpecFloat Lia Ascii String.
From stdpp Require Import gmap strings list sorting.

Open Scope Z_scope.

(** ** JavaScript numbers (binary64) *)

Module JsNumber.

Definition prec : Z := 53.
Definition emax : Z := 1024.

Abbreviation number := spec_float.

(** The number denoted by an integer literal or read from an integer. *)
Definition ofZ (z : Z) : number := binary_normalize prec emax z 0 false.

Definition add : number -> number -> number := SFadd prec emax.
Definition mul : number -> number -> number := SFmul prec emax.
Definition div : number -> number -> number := SFdiv prec emax.

(** The double nearest to [n / d], for integers that are doubles: the
    correctly rounded quotient. *)
Definition nearest (n d : Z) : number := div (ofZ n) (ofZ d).

(** The literal [0.1]: the double nearest to one tenth. *)
Definition lit_0_1 : number := S754_finite false 7205759403792794 (-56).

(** [Math.min] of two arguments: NaN is contagious and [-0] is below
    [+0]. *)
Definition Math_min (x y : number) : number :=
  match SFcompare x y with
  | None => S754_nan
  | Some Lt => x
  | Some Gt => y
  | Some Eq => match y with S754_zero true => y | _ => x end
  end.

(** [Math.round]: the integer nearest to [x], a tie going towards
    plus infinity; that is [floor (x + 1/2)] computed exactly. A finite
    [x] of non-negative exponent is an integer already. *)
Definition Math_round (x : number) : number :=
  match x with
  | S754_finite s m e =>
      if 0 <=? e then x
      else
        let n := (cond_Zopp s (Zpos m) + 2 ^ (- e - 1)) / 2 ^ (- e) in
        if n =? 0 then S754_zero s else ofZ n
  | _ => x
  end.

(** The rational value of a finite number. *)
Definition toQ (x : number) : option Q :=
  match x with
  | S754_zero _ => Some 0%Q
  | S754_finite s m e =>
      Some (if 0 <=? e
            then inject_Z (cond_Zopp s (Zpos m) * 2 ^ e)
            else Qmake (cond_Zopp s (Zpos m)) (Z.to_pos (2 ^ (- e))))
  | _ => None
  end.

End JsNumber.

(** ** Configuration ([src/config.ts], section [game]) *)

Module config.
Module game.
Definition baseReward : Z := 100.
Definition maxConfidence : Z := 10.
Definition maxStreakBonus : Z := 2.
End game.
End config.

(** ** Scoring ([src/game/scorer.ts]) *)

Module scorer.
Import JsNumber.

Record ScoringResult := {
  baseReward : Z;
  confidenceMultiplier : number;
  streakBonus : number;
  totalReward : number;
  newStreak : Z
}.

(** [calculateReward(confidence, currentStreak)]. Both arguments are
    read from INTEGER columns; the clamp and the successor are taken on
    integers, the multipliers and the reward are doubles. *)
Definition calculateReward (confidence currentStreak : Z) : ScoringResult :=
  let baseReward := config.game.baseReward in
  let maxStreakBonus := config.game.maxStreakBonus in
  let validConfidence := Z.max 1 (Z.min 10 confidence) in
  let confidenceMultiplier := div (ofZ validConfidence) (ofZ 5) in
  let newStreak := currentStreak + 1 in
  let streakBonus :=
    Math_min (ofZ maxStreakBonus) (add (ofZ 1) (mul (ofZ newStreak) lit_0_1)) in
  let totalReward := mul (mul (ofZ baseReward) confidenceMultiplier) streakBonus in
  {| baseReward := baseReward;
     confidenceMultiplier := confidenceMultiplier;
     streakBonus := streakBonus;
     totalReward := div (Math_round (mul totalReward (ofZ 100))) (ofZ 100);
     newStreak := newStreak |}.

(** *** The leaderboard text *)

Definition lf : string := String (ascii_of_N 10) EmptyString.

(** An element of the array that [generateLeaderboardText] takes. *)
Record LeaderboardEntry := {
  moltbook_name : string;
  accuracy : number;
  correct_predictions : Z;
  total_predictions : Z;
  current_streak : Z;
  total_ort_earned : number
}.

Section LeaderboardText.
Open Scope string_scope.
(** The conversions of the runtime: a number in a template literal,
    [n.toLocaleString()], and [new Date().toLocaleString()]. *)
Variable Number_toString : number -> string.
Variable Number_toLocaleString : number -> string.
Variable Date_now_toLocaleString : string.

Definition formatLeaderboardEntry (rank : Z) (name : string) (accuracy : number)
    (correct total streak : Z) (reward : number) : string :=
  let medal :=
    if (rank =? 1)%Z then "🥇" else if (rank =? 2)%Z then "🥈"
    else if (rank =? 3)%Z then "🥉"
    else Number_toString (ofZ rank) ++ "." in
  let streakDisplay :=
    if (3 <=? streak)%Z then "🔥" ++ Number_toString (ofZ streak)
    else if (0 <? streak)%Z then Number_toString (ofZ streak) else "-" in
  medal ++ " **" ++ name ++ "** | " ++ Number_toString accuracy ++ "% ("
    ++ Number_toString (ofZ correct) ++ "/" ++ Number_toString (ofZ total)
    ++ ") | Streak: " ++ streakDisplay ++ " | " ++ Number_toLocaleString reward ++ " ORT".

Definition generateLeaderboardText (entries : list LeaderboardEntry) : string :=
  if (length entries =? 0)%nat then
    "🔮 **Oracle Challenge Leaderboard**" ++ lf ++ lf
      ++ "*No predictions yet! Be the first to participate.*"
  else
    let header := "🔮 **Oracle Challenge Leaderboard**" ++ lf ++ lf in
    let divider := "---" ++ lf in
    let lines :=
      imap (fun index entry =>
              formatLeaderboardEntry (Z.of_nat index + 1)%Z (moltbook_name entry)
                (accuracy entry) (correct_predictions entry) (total_predictions entry)
                (current_streak entry) (total_ort_earned entry))
           entries in
    let footer :=
      lf ++ divider ++ lf ++ "*Updated: " ++ Date_now_toLocaleString ++ "*" ++ lf
        ++ "*Rewards in ORT tokens on BASE*" in
    header ++ String.concat lf lines ++ footer.
End LeaderboardText.

End scorer.

(** ** JavaScript strings *)

Module JsString.

Definition isUpper (c : ascii) : bool :=
  (65 <=? N_of_ascii c)%N && (N_of_ascii c <=? 90)%N.

Definition isLower (c : ascii) : bool :=
  (97 <=? N_of_ascii c)%N && (N_of_ascii c <=? 122)%N.

Definition isDigit (c : ascii) : bool :=
  (48 <=? N_of_ascii c)%N && (N_of_ascii c <=? 57)%N.

(** [\w] *)
Definition isWord (c : ascii) : bool :=
  isUpper c || isLower c || isDigit c || (N_of_ascii c =? 95)%N.

(** [\s], which is also what [trim] removes: tab, line feed, vertical
    tab, form feed, carriage return and space. *)
Definition isSpace (c : ascii) : bool :=
  ((9 <=? N_of_ascii c)%N && (N_of_ascii c <=? 13)%N) || (N_of_ascii c =? 32)%N.

(** [.]: any character but a line terminator. *)
Definition isDot (c : ascii) : bool :=
  negb ((N_of_ascii c =? 10)%N || (N_of_ascii c =? 13)%N).

Definition toLowerChar (c : ascii) : ascii :=
  if isUpper c then ascii_of_N (N_of_ascii c + 32) else c.

Fixpoint toLowerCase (s : string) : string :=
  match s with
  | EmptyString => EmptyString
  | String c s' => String (toLowerChar c) (toLowerCase s')
  end.

Fixpoint startsWith (s p : string) : bool :=
  match p, s with
  | EmptyString, _ => true
  | String a p', String b s' => Ascii.eqb a b && startsWith s' p'
  | String _ _, EmptyString => false
  end.

Fixpoint includes (s sub : string) : bool :=
  startsWith s sub ||
  match s with
  | EmptyString => false
  | String _ s' => includes s' sub
  end.

Fixpoint trimStart (s : string) : string :=
  match s with
  | String c s' => if isSpace c then trimStart s' else s
  | EmptyString => EmptyString
  end.

Fixpoint trimEnd (s : string) : string :=
  match s with
  | String c s' =>
      match trimEnd s' with
      | EmptyString => if isSpace c then EmptyString else String c EmptyString
      | t => String c t
      end
  | EmptyString => EmptyString
  end.

Definition trim (s : string) : string := trimEnd (trimStart s).

(** [parseInt] of a non-empty string of decimal digits. *)
Definition parseInt (s : string) : Z :=
  fold_left (fun n c => 10 * n + (Z.of_N (N_of_ascii c) - 48)) (list_ascii_of_string s) 0.

End JsString.

(** ** Regular expressions

    A backtracking matcher for the fragment of the pattern language the
    sources use: literals, character classes, quantified single characters
    (greedy or lazy), sequence, alternation, capture groups and [$]. *)

Module RegExp.
Import JsString.

Inductive atom :=
| Chr (c : ascii)
| Class (p : ascii -> bool).

Inductive regex :=
| Atom (a : atom)
| Quant (a : atom) (min : nat) (max : option nat) (greedy : bool)
| Seq (r1 r2 : regex)
| Alt (r1 r2 : regex)
| Group (i : nat) (r : regex)
| Eol
| Eps.

(** The pattern that is a literal word. *)
Fixpoint str (w : string) : regex :=
  match w with
  | EmptyString => Eps
  | String c w' => Seq (Atom (Chr c)) (str w')
  end.

Abbreviation captures := (gmap nat string).

(** The part of [s] that was read when [s'] is what is left of it. *)
Definition consumed (s s' : string) : string :=
  substring 0 (String.length s - String.length s') s.

Section Exec.
Variable ignoreCase : bool.
Context {R : Type}.

Definition atom_match (a : atom) (x : ascii) : bool :=
  match a with
  | Chr c =>
      if ignoreCase then Ascii.eqb (toLowerChar c) (toLowerChar x) else Ascii.eqb c x
  | Class p => p x
  end.

Definition orElse (x y : option R) : option R :=
  match x with Some _ => x | None => y end.

(** [a{min,max}] followed by the continuation [k]: a greedy quantifier
    tries one more character before it tries to stop, a lazy one the other
    way round. *)
Fixpoint quant (a : atom) (min : nat) (max : option nat) (greedy : bool)
    (s : string) (k : string -> option R) {struct s} : option R :=
  let stop := match min with O => k s | S _ => None end in
  let more :=
    match s with
    | String x s' =>
        if atom_match a x && negb (bool_decide (max = Some O))
        then quant a (pred min) (pred <$> max) greedy s' k
        else None
    | EmptyString => None
    end in
  if greedy then orElse more stop else orElse stop more.

Fixpoint exec (r : regex) (s : string) (c : captures)
    (k : string -> captures -> option R) {struct r} : option R :=
  match r with
  | Atom a =>
      match s with
      | String x s' => if atom_match a x then k s' c else None
      | EmptyString => None
      end
  | Quant a min max greedy => quant a min max greedy s (fun s' => k s' c)
  | Seq r1 r2 => exec r1 s c (fun s' c' => exec r2 s' c' k)
  | Alt r1 r2 => orElse (exec r1 s c k) (exec r2 s c k)
  | Group i r1 => exec r1 s c (fun s' c' => k s' (<[i := consumed s s']> c'))
  | Eol => match s with EmptyString => k s c | String _ _ => None end
  | Eps => k s c
  end.
End Exec.

(** [s.match(r)] for a pattern without the [g] flag: the captures of the
    leftmost match, [None] for [null]. *)
Fixpoint matchRe (ignoreCase : bool) (r : regex) (s : string) : option captures :=
  match exec ignoreCase r s ∅ (fun _ c => Some c) with
  | Some c => Some c
  | None =>
      match s with
      | EmptyString => None
      | String _ s' => matchRe ignoreCase r s'
      end
  end.

Definition star (a : atom) : regex := Quant a 0 None true.
Definition plus (a : atom) : regex := Quant a 1 None true.
Definition lazyPlus (a : atom) : regex := Quant a 1 None false.
Definition times (n : nat) (a : atom) : regex := Quant a n (Some n) true.
Definition space : atom := Class isSpace.
Definition wordChar : atom := Class isWord.
Definition digit : atom := Class isDigit.
Definition dot : atom := Class isDot.

End RegExp.

(** ** Dates

    Time values and the calendar functions of the language specification
    (Day, TimeWithinDay, YearFromTime, MonthFromTime, DateFromTime, MakeDay,
    MakeDate, TimeClip), on local time. *)

Module JsDate.

Inductive Date :=
| TimeValue (t : Z)
| InvalidDate.

Definition msPerDay : Z := 86400000.

Definition Day (t : Z) : Z := t / msPerDay.
Definition TimeWithinDay (t : Z) : Z := t mod msPerDay.

(** The day number of the [d]-th day of month [m] (0 for January) of year
    [y]; day 0 is 1 January 1970. *)
Definition daysFromCivil (y m d : Z) : Z :=
  let y' := if m <? 2 then y - 1 else y in
  let era := y' / 400 in
  let yoe := y' - era * 400 in
  let mp := if m <? 2 then m + 10 else m - 2 in
  let doy := (153 * mp + 2) / 5 + d - 1 in
  let doe := yoe * 365 + yoe / 4 - yoe / 100 + doy in
  era * 146097 + doe - 719468.

(** Year, month (0 for January) and day of the month of a day number. *)
Definition civilFromDays (z : Z) : Z * Z * Z :=
  let z' := z + 719468 in
  let era := z' / 146097 in
  let doe := z' - era * 146097 in
  let yoe := (doe - doe / 1460 + doe / 36524 - doe / 146096) / 365 in
  let doy := doe - (365 * yoe + yoe / 4 - yoe / 100) in
  let mp := (5 * doy + 2) / 153 in
  let d := doy - (153 * mp + 2) / 5 + 1 in
  let m := if mp <? 10 then mp + 2 else mp - 10 in
  (if m <? 2 then yoe + era * 400 + 1 else yoe + era * 400, m, d).

Definition YearFromTime (t : Z) : Z := (civilFromDays (Day t)).1.1.
Definition MonthFromTime (t : Z) : Z := (civilFromDays (Day t)).1.2.
Definition DateFromTime (t : Z) : Z := (civilFromDays (Day t)).2.

Definition MakeDay (year month date : Z) : Z :=
  let ym := year + month / 12 in
  let mn := month mod 12 in
  daysFromCivil ym mn 1 + date - 1.

Definition MakeDate (day time : Z) : Z := day * msPerDay + time.

Definition TimeClip (t : Z) : Date :=
  if Z.abs t <=? 8640000000000000 then TimeValue t else InvalidDate.

(** The getters and setters used by the parser, on the time value [t] of a
    valid date. *)
Definition getDate (t : Z) : Z := DateFromTime t.
Definition getMonth (t : Z) : Z := MonthFromTime t.
Definition getFullYear (t : Z) : Z := YearFromTime t.

Definition setDate (t : Z) (date : Z) : Date :=
  TimeClip (MakeDate (MakeDay (YearFromTime t) (MonthFromTime t) date) (TimeWithinDay t)).

Definition setMonth (t : Z) (month : Z) (date : option Z) : Date :=
  TimeClip (MakeDate (MakeDay (YearFromTime t) month (default (DateFromTime t) date))
                     (TimeWithinDay t)).

Definition setFullYear (t : Z) (year : Z) : Date :=
  TimeClip (MakeDate (MakeDay year (MonthFromTime t) (DateFromTime t)) (TimeWithinDay t)).

(** [Math.ceil(a / b)] for integers [a] and [b > 0]. *)
Definition Math_ceil_div (a b : Z) : Z := - (- a / b).

End JsDate.

(** ** Forecast extraction ([src/moltbook/parser.ts]) *)

Module parser.
Import JsString RegExp JsDate.
Open Scope string_scope.

Record ParsedPrediction := {
  prediction : string;
  outcome : string;
  deadline : option Date;
  confidence : Z;
  category : string;
  raw : string
}.

Definition lf : ascii := ascii_of_N 10.

(** [/PREDICTION:\s*(.+?)(?:\n|$)/i] *)
Definition rePrediction : regex :=
  Seq (str "PREDICTION:") (Seq (star space)
    (Seq (Group 1 (lazyPlus dot)) (Alt (Atom (Chr lf)) Eol))).

(** [/CONFIDENCE:\s*(\d+)/i] *)
Definition reConfidence : regex :=
  Seq (str "CONFIDENCE:") (Seq (star space) (Group 1 (plus digit))).

(** [/CATEGORY:\s*(tech|crypto|ai|world|science|other)/i] *)
Definition reCategory : regex :=
  Seq (str "CATEGORY:") (Seq (star space)
    (Group 1 (Alt (str "tech") (Alt (str "crypto") (Alt (str "ai")
      (Alt (str "world") (Alt (str "science") (str "other")))))))).

(** [/by\s+(\w+\s+\d{4})/i], "by March 2026" *)
Definition reByMonthYear : regex :=
  Seq (str "by") (Seq (plus space)
    (Group 1 (Seq (plus wordChar) (Seq (plus space) (times 4 digit))))).

(** [/by\s+(\d{1,2}\/\d{1,2}\/\d{4})/i], "by 03/15/2026" *)
Definition reByDate : regex :=
  Seq (str "by") (Seq (plus space)
    (Group 1 (Seq (Quant digit 1 (Some 2%nat) true) (Seq (str "/")
      (Seq (Quant digit 1 (Some 2%nat) true) (Seq (str "/") (times 4 digit))))))).

(** [/by\s+(end of \w+)/i], "by end of year" *)
Definition reByEndOf : regex :=
  Seq (str "by") (Seq (plus space) (Group 1 (Seq (str "end of ") (plus wordChar)))).

(** [/within\s+(\d+\s+\w+)/i], "within 30 days" *)
Definition reWithin : regex :=
  Seq (str "within") (Seq (plus space)
    (Group 1 (Seq (plus digit) (Seq (plus space) (plus wordChar))))).

Definition deadlinePatterns : list regex :=
  [reByMonthYear; reByDate; reByEndOf; reWithin].

(** [/will\s+(.+?)(?:\s+by|$)/i] *)
Definition reOutcome : regex :=
  Seq (str "will") (Seq (plus space)
    (Seq (Group 1 (lazyPlus dot)) (Alt (Seq (plus space) (str "by")) Eol))).

(** [/(\d+)\s+(day|week|month|year)s?/] *)
Definition reAmountUnit : regex :=
  Seq (Group 1 (plus digit)) (Seq (plus space)
    (Seq (Group 2 (Alt (str "day") (Alt (str "week") (Alt (str "month") (str "year")))))
         (Quant (Chr "s") 0 (Some 1%nat) true))).

Section Parse.
(** [new Date(dateStr)], the date parser of the runtime. *)
Variable Date_parse : string -> Date.

(** [parseDateString(dateStr)]; [now] is the time value of the [new Date()]
    that the function makes. [None] when it throws. *)
Definition parseDateString (now : Z) (dateStr : string) : option Date :=
  let normalizedStr := trim (toLowerCase dateStr) in
  let relative :=
    if includes normalizedStr "within" then
      match matchRe false reAmountUnit normalizedStr with
      | Some m =>
          match m !! 1%nat, m !! 2%nat with
          | Some g1, Some unit =>
              let amount := parseInt g1 in
              let date := now in
              Some (if decide (unit = "day") then setDate date (getDate date + amount)
                    else if decide (unit = "week") then setDate date (getDate date + amount * 7)
                    else if decide (unit = "month") then setMonth date (getMonth date + amount) None
                    else if decide (unit = "year") then setFullYear date (getFullYear date + amount)
                    else TimeValue date)
          | _, _ => None
          end
      | None => None
      end
    else None in
  match relative with
  | Some d => Some d
  | None =>
      if includes normalizedStr "end of" then
        let date := now in
        Some (if includes normalizedStr "year" then setMonth date 11 (Some 31)
              else if includes normalizedStr "month" then setMonth date (getMonth date + 1) (Some 0)
              else if includes normalizedStr "quarter" then
                let currentMonth := getMonth date in
                let quarterEnd := Math_ceil_div (currentMonth + 1) 3 * 3 in
                setMonth date quarterEnd (Some 0)
              else TimeValue date)
      else
        match Date_parse dateStr with
        | TimeValue t => Some (TimeValue t)
        | InvalidDate => None
        end
  end.

(** The loop over [deadlinePatterns]: the first pattern that matches and
    whose captured fragment [parseDateString] accepts gives the deadline. *)
Fixpoint firstDeadline (now : Z) (patterns : list regex) (predictionText : string)
    : option Date :=
  match patterns with
  | [] => None
  | pattern :: rest =>
      match matchRe true pattern predictionText with
      | Some m =>
          match m !! 1%nat ≫= parseDateString now with
          | Some d => Some d
          | None => firstDeadline now rest predictionText
          end
      | None => firstDeadline now rest predictionText
      end
  end.

(** [parsePrediction(comment)] on [comment.content]. *)
Definition parsePrediction (now : Z) (content : string) : option ParsedPrediction :=
  match matchRe true rePrediction content with
  | None => None
  | Some predictionMatch =>
      let predictionText := trim (default "" (predictionMatch !! 1%nat)) in
      let confidence :=
        match matchRe true reConfidence content with
        | Some confidenceMatch =>
            Z.min 10 (Z.max 1 (parseInt (default "" (confidenceMatch !! 1%nat))))
        | None => 5
        end in
      let category :=
        match matchRe true reCategory content with
        | Some categoryMatch => toLowerCase (default "" (categoryMatch !! 1%nat))
        | None => "other"
        end in
      let deadline := firstDeadline now deadlinePatterns predictionText in
      let outcome :=
        match matchRe true reOutcome predictionText with
        | Some outcomeMatch => trim (default "" (outcomeMatch !! 1%nat))
        | None => predictionText
        end in
      Some {| prediction := predictionText;
              outcome := outcome;
              deadline := deadline;
              confidence := confidence;
              category := category;
              raw := content |}
  end.

End Parse.

End parser.

(** ** The record store ([src/db/sqlite.ts]) *)

Module db.
Import JsNumber.

(** Values of the [status] column written by the code. *)
Inductive Status := pending | resolved_correct | resolved_wrong.

#[global] Instance Status_eq_dec : EqDecision Status.
Proof. solve_decision. Defined.

(** A row of [agents]; the primary key [id] is the key of the map. *)
Record Agent := {
  moltbook_name : string;
  wallet_address : option string;
  total_predictions : Z;
  correct_predictions : Z;
  current_streak : Z;
  best_streak : Z;
  total_ort_earned : number;
  agent_created_at : Z;
  updated_at : Z
}.

(** A row of [predictions]. *)
Record Prediction := {
  agent_id : string;
  topic_id : option string;
  post_id : option string;
  comment_id : option string;
  prediction_text : string;
  outcome_predicted : option string;
  deadline : option Z;
  confidence : Z;
  category : string;
  status : Status;
  tx_hash : option string;
  on_chain_id : option string;
  created_at : Z;
  resolved_at : option Z
}.

(** A row of [topics]. *)
Record Topic := {
  topic_post_id : option string;
  title : string;
  description : option string;
  topic_category : string;
  topic_deadline : option Z;
  resolved : bool;
  actual_outcome : option string;
  polymarket_id : option string;
  polymarket_data : option string;
  source : string;
  topic_created_at : Z;
  topic_resolved_at : option Z
}.

Record Db := {
  agents : gmap string Agent;
  predictions : gmap string Prediction;
  topics : gmap string Topic
}.

(** The database after the schema has been created. *)
Definition empty : Db :=
  {| agents := ∅; predictions := ∅; topics := ∅ |}.

Definition set_agents (f : gmap string Agent -> gmap string Agent) (d : Db) : Db :=
  {| agents := f (agents d); predictions := predictions d; topics := topics d |}.
Definition set_predictions (f : gmap string Prediction -> gmap string Prediction) (d : Db) : Db :=
  {| agents := agents d; predictions := f (predictions d); topics := topics d |}.
Definition set_topics (f : gmap string Topic -> gmap string Topic) (d : Db) : Db :=
  {| agents := agents d; predictions := predictions d; topics := f (topics d) |}.

(** [x || null] on an optional string: the empty string is falsy. *)
Definition or_null (x : option string) : option string :=
  match x with
  | Some s => if decide (s = EmptyString) then None else Some s
  | None => None
  end.

(** Truthiness of an optional string column. *)
Definition truthy (x : option string) : bool :=
  match or_null x with Some _ => true | None => false end.

(** *** Agents *)

(** [SELECT * FROM agents WHERE moltbook_name = ?] *)
Definition getAgentByName (moltbookName : string) (d : Db) : option (string * Agent) :=
  head (filter (fun r => moltbook_name r.2 = moltbookName) (map_to_list (agents d))).

Definition getAgent (agentId : string) (d : Db) : option Agent :=
  agents d !! agentId.

(** The row inserted by [INSERT INTO agents (id, moltbook_name)]: every
    other column takes its DEFAULT. *)
Definition newAgent (moltbookName : string) (now : Z) : Agent :=
  {| moltbook_name := moltbookName;
     wallet_address := None;
     total_predictions := 0;
     correct_predictions := 0;
     current_streak := 0;
     best_streak := 0;
     total_ort_earned := S754_zero false;
     agent_created_at := now;
     updated_at := now |}.

(** [getOrCreateAgent]; [fresh] is the identifier drawn by [uuidv4()].
    The INSERT is rejected (and nothing is returned) when the identifier is
    taken already. *)
Definition getOrCreateAgent (fresh : string) (now : Z) (moltbookName : string)
    (d : Db) : option (string * Agent) * Db :=
  match getAgentByName moltbookName d with
  | Some r => (Some r, d)
  | None =>
      match agents d !! fresh with
      | Some _ => (None, d)
      | None =>
          let d' := set_agents (insert fresh (newAgent moltbookName now)) d in
          (option_map (pair fresh) (agents d' !! fresh), d')
      end
  end.

Definition updateAgentWallet (agentId walletAddress : string) (now : Z) (d : Db) : Db :=
  set_agents
    (alter (fun a =>
       {| moltbook_name := moltbook_name a;
          wallet_address := Some walletAddress;
          total_predictions := total_predictions a;
          correct_predictions := correct_predictions a;
          current_streak := current_streak a;
          best_streak := best_streak a;
          total_ort_earned := total_ort_earned a;
          agent_created_at := agent_created_at a;
          updated_at := now |}) agentId) d.

(** *** Predictions *)

Record PredictionData := {
  agentId : string;
  topicId : option string;
  postId : option string;
  commentId : option string;
  predictionText : string;
  outcomePredicted : option string;
  data_deadline : option Z;
  data_confidence : Z;
  data_category : option string
}.

Definition newPrediction (data : PredictionData) (now : Z) : Prediction :=
  {| agent_id := agentId data;
     topic_id := or_null (topicId data);
     post_id := or_null (postId data);
     comment_id := or_null (commentId data);
     prediction_text := predictionText data;
     outcome_predicted := or_null (outcomePredicted data);
     deadline := data_deadline data;
     confidence := data_confidence data;
     category := default "other"%string (or_null (data_category data));
     status := pending;
     tx_hash := None;
     on_chain_id := None;
     created_at := now;
     resolved_at := None |}.

(** [createPrediction]; [fresh] as above. Returns the new identifier. *)
Definition createPrediction (fresh : string) (now : Z) (data : PredictionData)
    (d : Db) : option string * Db :=
  match predictions d !! fresh with
  | Some _ => (None, d)
  | None => (Some fresh, set_predictions (insert fresh (newPrediction data now)) d)
  end.

Definition getPrediction (id : string) (d : Db) : option Prediction :=
  predictions d !! id.

(** The order of [ORDER BY created_at ASC]. *)
Definition olderOrSame (x y : string * Prediction) : Prop :=
  created_at x.2 <= created_at y.2.

#[global] Instance olderOrSame_dec x y : Decision (olderOrSame x y).
Proof. unfold olderOrSame. apply _. Defined.

(** [getPendingPredictions()]: the pending forecasts that join an agent,
    oldest first (forecasts created at the same time come in the order of
    the table scan). *)
Definition getPendingPredictions (d : Db) : list (string * Prediction) :=
  merge_sort olderOrSame
    (filter (fun r => status r.2 = pending /\ is_Some (agents d !! agent_id r.2))
            (map_to_list (predictions d))).

(** The two UPDATE statements on [agents] of [resolvePrediction]. In an
    UPDATE every right-hand side reads the row as it was before the
    statement. *)
Definition agent_correct (now : Z) (a : Agent) : Agent :=
  {| moltbook_name := moltbook_name a;
     wallet_address := wallet_address a;
     total_predictions := total_predictions a;
     correct_predictions := correct_predictions a + 1;
     current_streak := current_streak a + 1;
     best_streak := Z.max (best_streak a) (current_streak a + 1);
     total_ort_earned := total_ort_earned a;
     agent_created_at := agent_created_at a;
     updated_at := now |}.

Definition agent_wrong (now : Z) (a : Agent) : Agent :=
  {| moltbook_name := moltbook_name a;
     wallet_address := wallet_address a;
     total_predictions := total_predictions a;
     correct_predictions := correct_predictions a;
     current_streak := 0;
     best_streak := best_streak a;
     total_ort_earned := total_ort_earned a;
     agent_created_at := agent_created_at a;
     updated_at := now |}.

Definition prediction_resolve (now : Z) (st : Status) (txHash : option string)
    (p : Prediction) : Prediction :=
  {| agent_id := agent_id p;
     topic_id := topic_id p;
     post_id := post_id p;
     comment_id := comment_id p;
     prediction_text := prediction_text p;
     outcome_predicted := outcome_predicted p;
     deadline := deadline p;
     confidence := confidence p;
     category := category p;
     status := st;
     tx_hash := or_null txHash;
     on_chain_id := on_chain_id p;
     created_at := created_at p;
     resolved_at := Some now |}.

(** [resolvePrediction(id, correct, txHash)] *)
Definition resolvePrediction (now : Z) (id : string) (correct : bool)
    (txHash : option string) (d : Db) : Db :=
  let status := if correct then resolved_correct else resolved_wrong in
  let d1 := set_predictions (alter (prediction_resolve now status txHash) id) d in
  match getPrediction id d1 with
  | Some prediction =>
      if correct
      then set_agents (alter (agent_correct now) (agent_id prediction)) d1
      else set_agents (alter (agent_wrong now) (agent_id prediction)) d1
  | None => d1
  end.

(** *** Topics *)

Record TopicData := {
  td_postId : option string;
  td_title : string;
  td_description : option string;
  td_category : option string;
  td_deadline : option Z;
  td_polymarketId : option string;
  td_polymarketData : option string;
  td_source : option string
}.

Definition newTopic (data : TopicData) (now : Z) : Topic :=
  {| topic_post_id := or_null (td_postId data);
     title := td_title data;
     description := or_null (td_description data);
     topic_category := default "other"%string (or_null (td_category data));
     topic_deadline := td_deadline data;
     resolved := false;
     actual_outcome := None;
     polymarket_id := or_null (td_polymarketId data);
     polymarket_data := td_polymarketData data;
     source := default "generated"%string (or_null (td_source data));
     topic_created_at := now;
     topic_resolved_at := None |}.

Definition createTopic (fresh : string) (now : Z) (data : TopicData)
    (d : Db) : option string * Db :=
  match topics d !! fresh with
  | Some _ => (None, d)
  | None => (Some fresh, set_topics (insert fresh (newTopic data now)) d)
  end.

Definition getTopic (id : string) (d : Db) : option Topic := topics d !! id.

Definition resolveTopic (now : Z) (id actualOutcome : string) (d : Db) : Db :=
  set_topics
    (alter (fun t =>
       {| topic_post_id := topic_post_id t;
          title := title t;
          description := description t;
          topic_category := topic_category t;
          topic_deadline := topic_deadline t;
          resolved := true;
          actual_outcome := Some actualOutcome;
          polymarket_id := polymarket_id t;
          polymarket_data := polymarket_data t;
          source := source t;
          topic_created_at := topic_created_at t;
          topic_resolved_at := Some now |}) id) d.

(** [SELECT * FROM topics WHERE post_id = ?], the first row. *)
Definition getTopicByPostId (postId : string) (d : Db) : option (string * Topic) :=
  head (filter (fun r => topic_post_id r.2 = Some postId) (map_to_list (topics d))).

(** The order of [ORDER BY created_at DESC]. *)
Definition newerOrSame (x y : string * Topic) : Prop :=
  topic_created_at y.2 <= topic_created_at x.2.

#[global] Instance newerOrSame_dec x y : Decision (newerOrSame x y).
Proof. unfold newerOrSame. apply _. Defined.

(** [getPendingTopics()]: the topics that are not resolved, newest first. *)
Definition getPendingTopics (d : Db) : list (string * Topic) :=
  merge_sort newerOrSame (filter (fun r => resolved r.2 = false) (map_to_list (topics d))).

(** *** Leaderboard *)

(** A row of the leaderboard query. *)
Record LeaderboardRow := {
  row_moltbook_name : string;
  row_total_predictions : Z;
  row_correct_predictions : Z;
  row_accuracy : number;
  row_current_streak : Z;
  row_best_streak : Z;
  row_total_ort_earned : number
}.

(** The order of [ORDER BY correct_predictions DESC, accuracy DESC]. *)
Definition ranksBefore (x y : LeaderboardRow) : Prop :=
  row_correct_predictions y < row_correct_predictions x \/
  (row_correct_predictions y = row_correct_predictions x /\
   SFleb (row_accuracy y) (row_accuracy x) = true).

#[global] Instance ranksBefore_dec x y : Decision (ranksBefore x y).
Proof. unfold ranksBefore. apply _. Defined.

Section Leaderboard.
(** The SQL function [ROUND(x, 1)] of the database engine. *)
Variable ROUND1 : number -> number.

(** The columns selected for an agent with [total_predictions > 0]; the
    quotient and the product are those of doubles. *)
Definition leaderboardRow (a : Agent) : LeaderboardRow :=
  {| row_moltbook_name := moltbook_name a;
     row_total_predictions := total_predictions a;
     row_correct_predictions := correct_predictions a;
     row_accuracy :=
       ROUND1 (mul (div (ofZ (correct_predictions a)) (ofZ (total_predictions a))) (ofZ 100));
     row_current_streak := current_streak a;
     row_best_streak := best_streak a;
     row_total_ort_earned := total_ort_earned a |}.

(** [getLeaderboard(limit)]; a negative LIMIT is no limit. *)
Definition getLeaderboard (limit : Z) (d : Db) : list LeaderboardRow :=
  let rows :=
    merge_sort ranksBefore
      (leaderboardRow <$>
         filter (fun a => 0 < total_predictions a) (map_to_list (agents d)).*2) in
  if limit <? 0 then rows else take (Z.to_nat limit) rows.
End Leaderboard.

(** One statement-level transition of the store: a call of one of the
    exported functions that write. *)
Inductive step : Db -> Db -> Prop :=
| step_getOrCreateAgent fresh now name d :
    step d (getOrCreateAgent fresh now name d).2
| step_updateAgentWallet agentId wallet now d :
    step d (updateAgentWallet agentId wallet now d)
| step_createPrediction fresh now data d :
    step d (createPrediction fresh now data d).2
| step_resolvePrediction now id correct txHash d :
    step d (resolvePrediction now id correct txHash d)
| step_createTopic fresh now data d :
    step d (createTopic fresh now data d).2
| step_resolveTopic now id outcome d :
    step d (resolveTopic now id outcome d).

(** The states the store can be in. *)
Inductive reachable : Db -> Prop :=
| reachable_empty : reachable empty
| reachable_step d d' : reachable d -> step d d' -> reachable d'.

End db.

(** ** Settlement ([src/game/resolver.ts]) *)

Module resolver.
Import JsNumber.

Record ResolutionResult := {
  predictionId : string;
  agentName : string;
  correct : bool;
  reward : number;
  newStreak : Z;
  txHash : option string
}.

(** What a call throws. *)
Inductive exn :=
| Error (message : string)
| TypeError.

Section Resolve.
(** [blockchain.resolvePredictionOnChain(onChainId, correct)]: the
    transaction hash, or [None] when the call throws (the failure is
    logged and settlement continues). *)
Variable resolvePredictionOnChain : string -> bool -> option string.

Definition onChain (id : option string) (correct : bool) : option string :=
  match id with
  | Some i => resolvePredictionOnChain i correct
  | None => None
  end.

(** [resolvePrediction(predictionId, correct, useBlockchain)]. The
    statement built under "Update agent rewards" is never run, so that
    block changes nothing. Reading a property of a missing agent row
    throws a [TypeError]. *)
Definition resolvePrediction (now : Z) (predictionId : string) (correct : bool)
    (useBlockchain : bool) (d : db.Db) : (exn + ResolutionResult) * db.Db :=
  match db.getPrediction predictionId d with
  | None => (inl (Error ("Prediction not found: " ++ predictionId)), d)
  | Some prediction =>
      if negb (bool_decide (db.status prediction = db.pending))
      then (inl (Error ("Prediction already resolved: " ++ predictionId)), d)
      else
        let agent := db.getAgent (db.agent_id prediction) d in
        if correct then
          match agent with
          | None => (inl TypeError, d)
          | Some a =>
              let scoring :=
                scorer.calculateReward (db.confidence prediction) (db.current_streak a) in
              let txHash :=
                if useBlockchain && db.truthy (db.on_chain_id prediction)
                   && db.truthy (db.wallet_address a)
                then onChain (db.on_chain_id prediction) true
                else None in
              let d' := db.resolvePrediction now predictionId correct txHash d in
              (inr {| predictionId := predictionId;
                      agentName := db.moltbook_name a;
                      correct := correct;
                      reward := scorer.totalReward scoring;
                      newStreak := scorer.newStreak scoring;
                      txHash := txHash |}, d')
          end
        else
          let txHash :=
            if useBlockchain && db.truthy (db.on_chain_id prediction)
            then onChain (db.on_chain_id prediction) false
            else None in
          let d' := db.resolvePrediction now predictionId correct txHash d in
          match agent with
          | None => (inl TypeError, d')
          | Some a =>
              (inr {| predictionId := predictionId;
                      agentName := db.moltbook_name a;
                      correct := correct;
                      reward := ofZ 0;
                      newStreak := 0;
                      txHash := txHash |}, d')
          end
  end.
End Resolve.

(** *** Outcome matching and the settlement of a topic *)

Import JsString.
Open Scope string_scope.

Definition positiveTerms : list string := ["yes"; "will"; "true"; "happen"; "succeed"].
Definition negativeTerms : list string := ["no"; "won't"; "false"; "fail"; "not"].

(** [prediction.outcome_predicted || prediction.prediction_text] *)
Definition forecastFragment (prediction : db.Prediction) : string :=
  default (db.prediction_text prediction) (db.or_null (db.outcome_predicted prediction)).

(** The value of [correct] that [resolveTopic] computes for a pending
    forecast whose fragment is [fragment], given the actual outcome and the
    explicit matching terms. *)
Definition isCorrect (fragment actualOutcome : string) (matchingOutcomes : list string)
    : bool :=
  let predictionLower := toLowerCase fragment in
  let outcomeLower := toLowerCase actualOutcome in
  if (0 <? length matchingOutcomes)%nat then
    existsb (fun m => includes predictionLower (toLowerCase m)) matchingOutcomes
  else
    let predictionPositive := existsb (fun t => includes predictionLower t) positiveTerms in
    let predictionNegative := existsb (fun t => includes predictionLower t) negativeTerms in
    let outcomePositive :=
      includes outcomeLower "yes" || includes outcomeLower "happened"
      || includes outcomeLower "true" in
    if predictionPositive && negb predictionNegative then outcomePositive
    else if predictionNegative && negb predictionPositive then negb outcomePositive
    else false.

Section ResolveTopic.
Variable resolvePredictionOnChain : string -> bool -> option string.

(** The loop of [resolveTopic] over the pending forecasts of the topic:
    a forecast whose settlement throws is logged and skipped. *)
Fixpoint resolveAll (now : Z) (predictions : list (string * db.Prediction))
    (actualOutcome : string) (matchingOutcomes : list string) (d : db.Db)
    : list ResolutionResult * db.Db :=
  match predictions with
  | [] => ([], d)
  | (id, prediction) :: rest =>
      let correct := isCorrect (forecastFragment prediction) actualOutcome matchingOutcomes in
      let '(result, d1) := resolvePrediction resolvePredictionOnChain now id correct true d in
      let '(results, d2) := resolveAll now rest actualOutcome matchingOutcomes d1 in
      (match result with inr r => r :: results | inl _ => results end, d2)
  end.

(** [resolveTopic(topicId, actualOutcome, matchingOutcomes)] *)
Definition resolveTopic (now : Z) (topicId actualOutcome : string)
    (matchingOutcomes : list string) (d : db.Db)
    : (exn + list ResolutionResult) * db.Db :=
  match db.getTopic topicId d with
  | None => (inl (Error ("Topic not found: " ++ topicId)), d)
  | Some topic =>
      if db.resolved topic
      then (inl (Error ("Topic already resolved: " ++ topicId)), d)
      else
        let d1 := db.resolveTopic now topicId actualOutcome d in
        let predictions :=
          filter (fun p => db.topic_id p.2 = Some topicId) (db.getPendingPredictions d1) in
        let '(results, d2) := resolveAll now predictions actualOutcome matchingOutcomes d1 in
        (inr results, d2)
  end.

End ResolveTopic.

(** [getExpiredTopics()]; [now] is the time value of [new Date()]. A
    deadline is stored as the ISO string of its time value and read back
    from it. *)
Definition getExpiredTopics (now : Z) (d : db.Db) : list (string * db.Topic) :=
  filter (fun topic =>
            Is_true match db.topic_deadline topic.2 with
                    | Some deadline => (deadline <? now)%Z
                    | None => false
                    end)
         (db.getPendingTopics d).

End resolver.

(** ** Sample data *)

Module samples.
Import db.
Open Scope string_scope.

Definition forecast : PredictionData :=
  {| agentId := "a1";
     topicId := Some "t1";
     postId := Some "post1";
     commentId := Some "c1";
     predictionText := "ETH will flip BTC by end of year";
     outcomePredicted := Some "flip BTC";
     data_deadline := None;
     data_confidence := 9;
     data_category := Some "crypto" |}.

(** One agent, all counters at their defaults, with one pending forecast. *)
Definition d0 : Db :=
  (createPrediction "p1" 1 forecast (getOrCreateAgent "a1" 0 "alice" empty).2).2.

(** No ledger is configured: every call of the blockchain fails. *)
Definition noChain (_ : string) (_ : bool) : option string := None.

(** [d0] after its forecast has been settled as correct, and as incorrect. *)
Definition d1 : Db := (resolver.resolvePrediction noChain 2 "p1" true true d0).2.
Definition d2 : Db := (resolver.resolvePrediction noChain 2 "p1" false true d0).2.

(** A date parser that knows one calendar string: "March 2026" is
    1 March 2026, 00:00. *)
Definition Date_parse (s : string) : JsDate.Date :=
  if decide (s = "March 2026") then JsDate.TimeValue 1772323200000 else JsDate.InvalidDate.

(** Two readings of the clock: 1 November 2026, 12:00, and one hour later. *)
Definition now0 : Z := 1793534400000.
Definition now1 : Z := 1793538000000.

Definition comment : string :=
  "PREDICTION: ETH will flip BTC by end of year" ++ String parser.lf
  ("CONFIDENCE: 9" ++ String parser.lf "CATEGORY: crypto").

End samples.

(** ** The periodic tasks ([src/index.ts]) *)

Module index.
Import JsNumber.
Open Scope string_scope.

(** What [moltbook.createPost] is given, but for the name of the board. *)
Record CreatePostParams := {
  post_title : string;
  post_content : string
}.

Section PostLeaderboard.
Variable ROUND1 : number -> number.
Variable Number_toString : number -> string.
Variable Number_toLocaleString : number -> string.
Variable Date_now_toLocaleString : string.

(** A row of the leaderboard query, as [generateLeaderboardText] reads it. *)
Definition entry (row : db.LeaderboardRow) : scorer.LeaderboardEntry :=
  {| scorer.moltbook_name := db.row_moltbook_name row;
     scorer.accuracy := db.row_accuracy row;
     scorer.correct_predictions := db.row_correct_predictions row;
     scorer.total_predictions := db.row_total_predictions row;
     scorer.current_streak := db.row_current_streak row;
     scorer.total_ort_earned := db.row_total_ort_earned row |}.

(** [postLeaderboard()]: the post that is created. *)
Definition postLeaderboard (d : db.Db) : CreatePostParams :=
  let entries := db.getLeaderboard ROUND1 10 d in
  let content :=
    scorer.generateLeaderboardText Number_toString Number_toLocaleString
      Date_now_toLocaleString (entry <$> entries) in
  {| post_title := "📊 Weekly Oracle Challenge Leaderboard";
     post_content := content |}.
End PostLeaderboard.

(** *** Reading the comments *)

(** A comment, as far as [checkNewPredictions] reads it: [id], [content]
    and [author.name]. *)
Record MoltbookComment := {
  c_id : string;
  c_content : string;
  c_author_name : string
}.

(** What the handling of one comment draws: the identifiers of [uuidv4()]
    for the agent and for the forecast, and the readings of the clock by
    the parser and by the two INSERT statements. *)
Record Draw := {
  draw_agent : string;
  draw_prediction : string;
  clock_parse : Z;
  clock_agent : Z;
  clock_insert : Z
}.

Section CheckNewPredictions.
Variable Date_parse : string -> JsDate.Date.

(** [deadline?.toISOString()], which throws on an invalid date: [None]
    when it throws, else the time value to store, if any. *)
Definition toISOString (deadline : option JsDate.Date) : option (option Z) :=
  match deadline with
  | Some (JsDate.TimeValue t) => Some (Some t)
  | Some JsDate.InvalidDate => None
  | None => Some None
  end.

(** The object that is passed to [createPrediction]. *)
Definition predictionData (agentId topicId postId : string) (comment : MoltbookComment)
    (parsed : parser.ParsedPrediction) (deadline : option Z) : db.PredictionData :=
  {| db.agentId := agentId;
     db.topicId := Some topicId;
     db.postId := Some postId;
     db.commentId := Some (c_id comment);
     db.predictionText := parser.prediction parsed;
     db.outcomePredicted := Some (parser.outcome parsed);
     db.data_deadline := deadline;
     db.data_confidence := parser.confidence parsed;
     db.data_category := Some (parser.category parsed) |}.

(** The body of the loop over the comments of a post; [inl] when a
    statement throws, with the store as it is then. An identifier that is
    taken makes the INSERT throw, and so does the ISO string of an invalid
    deadline, which is asked for before the forecast is inserted. *)
Definition checkComment (draw : Draw) (topicId postId : string)
    (comment : MoltbookComment) (d : db.Db) : db.Db + db.Db :=
  if decide (Exists (fun p => db.comment_id p.2 = Some (c_id comment))
               (db.getPendingPredictions d))
  then inr d
  else
    match parser.parsePrediction Date_parse (clock_parse draw) (c_content comment) with
    | None => inr d
    | Some parsed =>
        match db.getOrCreateAgent (draw_agent draw) (clock_agent draw)
                (c_author_name comment) d with
        | (None, d1) => inl d1
        | (Some agent, d1) =>
            match toISOString (parser.deadline parsed) with
            | None => inl d1
            | Some deadline =>
                let data := predictionData agent.1 topicId postId comment parsed deadline in
                match db.createPrediction (draw_prediction draw) (clock_insert draw) data d1 with
                | (None, d2) => inl d2
                | (Some _, d2) => inr d2
                end
            end
        end
    end.

(** The loop over the comments of a post; [draws j] is what the [j]-th
    comment draws. *)
Fixpoint checkComments (draws : nat -> Draw) (j : nat) (topicId postId : string)
    (comments : list MoltbookComment) (d : db.Db) : db.Db + db.Db :=
  match comments with
  | [] => inr d
  | comment :: rest =>
      match checkComment (draws j) topicId postId comment d with
      | inl d' => inl d'
      | inr d' => checkComments draws (S j) topicId postId rest d'
      end
  end.

(** The loop over the posts. A post comes with what [getComments] returns
    for it, [None] when that call throws. A post without a topic, or whose
    topic is resolved, is skipped. *)
Fixpoint checkPosts (draws : nat -> nat -> Draw) (i : nat)
    (posts : list (string * option (list MoltbookComment))) (d : db.Db)
    : db.Db + db.Db :=
  match posts with
  | [] => inr d
  | (postId, comments) :: rest =>
      match db.getTopicByPostId postId d with
      | None => checkPosts draws (S i) rest d
      | Some topic =>
          if db.resolved topic.2 then checkPosts draws (S i) rest d
          else
            match comments with
            | None => inl d
            | Some comments =>
                match checkComments (draws i) 0 topic.1 postId comments d with
                | inl d' => inl d'
                | inr d' => checkPosts draws (S i) rest d'
                end
            end
      end
  end.

(** [checkNewPredictions()], given the posts that [getPosts] returned: an
    exception ends the run and is logged. *)
Definition checkNewPredictions (draws : nat -> nat -> Draw)
    (posts : list (string * option (list MoltbookComment))) (d : db.Db) : db.Db :=
  match checkPosts draws 0 posts d with
  | inl d' => d'
  | inr d' => d'
  end.

End CheckNewPredictions.

End index.

(** ** The ledger ([contracts/OracleToken.sol], [contracts/OraclePredictions.sol])

    Unsigned integers are [Z]s within their range; arithmetic is checked, as
    it is from Solidity 0.8 on: an overflow reverts. An [address] and a
    [bytes32] are the integers they encode, the zero address being 0. A
    mapping is a finite map read with the zero value as default. A call
    returns the new state, or reverts with a reason and leaves the state as
    it was. Events are not modelled. *)

Module Sol.
Open Scope string_scope.

Abbreviation address := Z (only parsing).
Abbreviation bytes32 := Z (only parsing).

Definition uint256_max : Z := 2 ^ 256 - 1.
Definition uint8_max : Z := 2 ^ 8 - 1.

(** The result of a call: reverted with a reason, or returned. *)
Definition M (A : Type) : Type := (string + A)%type.

Definition ret {A} (x : A) : M A := inr x.

Definition bind {A B} (m : M A) (f : A -> M B) : M B :=
  match m with
  | inl reason => inl reason
  | inr x => f x
  end.

Definition require (b : bool) (reason : string) : M unit :=
  if b then inr tt else inl reason.

(** Checked arithmetic: [Panic(0x11)] on overflow. *)
Definition add (max a b : Z) : M Z :=
  if (a + b <=? max)%Z then inr (a + b)%Z else inl "Panic(0x11)".

Definition mul (max a b : Z) : M Z :=
  if (a * b <=? max)%Z then inr (a * b)%Z else inl "Panic(0x11)".

(** The modifier [onlyOwner] of [Ownable]. *)
Definition onlyOwner (owner sender : address) : M unit :=
  require (sender =? owner)%Z "OwnableUnauthorizedAccount".

End Sol.

Module OracleToken.
Import Sol.
Open Scope string_scope.

Section Token.
(** The balances and the supply of the inherited [ERC20], and its internal
    [_mint]. *)
Variable ERC20 : Type.
Variable _mint : address -> Z -> ERC20 -> M ERC20.

Record State := {
  erc20 : ERC20;
  owner : address;
  gameContract : address
}.

(** [setGameContract(_gameContract)] *)
Definition setGameContract (sender : address) (_gameContract : address) (s : State)
    : M State :=
  bind (onlyOwner (owner s) sender) (fun _ =>
  ret {| erc20 := erc20 s; owner := owner s; gameContract := _gameContract |}).

(** [mintReward(to, amount, reason)] *)
Definition mintReward (sender : address) (to : address) (amount : Z) (reason : string)
    (s : State) : M State :=
  bind (require ((sender =? gameContract s)%Z || (sender =? owner s)%Z) "Not authorized")
    (fun _ =>
  bind (_mint to amount (erc20 s)) (fun e =>
  ret {| erc20 := e; owner := owner s; gameContract := gameContract s |})).
End Token.

End OracleToken.

Module OraclePredictions.
Import Sol.
Open Scope string_scope.

Record Prediction := {
  agentId : string;
  predictionHash : bytes32;
  confidence : Z;
  timestamp : Z;
  resolved : bool;
  correct : bool;
  reward : Z
}.

Record AgentStats := {
  walletAddress : address;
  totalPredictions : Z;
  correctPredictions : Z;
  currentStreak : Z;
  bestStreak : Z;
  totalRewardsEarned : Z
}.

(** The zero values that a mapping holds where nothing was written. *)
Definition noPrediction : Prediction :=
  {| agentId := ""; predictionHash := 0; confidence := 0; timestamp := 0;
     resolved := false; correct := false; reward := 0 |}.

Definition noStats : AgentStats :=
  {| walletAddress := 0; totalPredictions := 0; correctPredictions := 0;
     currentStreak := 0; bestStreak := 0; totalRewardsEarned := 0 |}.

Definition BASE_REWARD : Z := 100 * 10 ^ 18.
Definition MAX_STREAK_BONUS : Z := 20.

Section Contract.
Variable ERC20 : Type.
Variable _mint : address -> Z -> ERC20 -> M ERC20.
(** [keccak256(abi.encodePacked(agentId, predictionHash, block.timestamp))] *)
Variable keccak256 : string -> bytes32 -> Z -> bytes32.
(** The address of this contract. *)
Variable this : address.

(** The storage of the contract, with the state of the token contract it
    calls. *)
Record State := {
  owner : address;
  oracleToken : OracleToken.State ERC20;
  predictions : gmap Z Prediction;
  agentStats : gmap string AgentStats;
  agentRegistered : gmap string bool
}.

Definition prediction (s : State) (predictionId : bytes32) : Prediction :=
  default noPrediction (predictions s !! predictionId).

Definition stats (s : State) (agentId : string) : AgentStats :=
  default noStats (agentStats s !! agentId).

Definition registered (s : State) (agentId : string) : bool :=
  default false (agentRegistered s !! agentId).

Definition set_walletAddress (wallet : address) (a : AgentStats) : AgentStats :=
  {| walletAddress := wallet;
     totalPredictions := totalPredictions a;
     correctPredictions := correctPredictions a;
     currentStreak := currentStreak a;
     bestStreak := bestStreak a;
     totalRewardsEarned := totalRewardsEarned a |}.

(** [registerAgent(agentId, wallet)] *)
Definition registerAgent (sender : address) (agentId : string) (wallet : address)
    (s : State) : M State :=
  bind (onlyOwner (owner s) sender) (fun _ =>
  bind (require (negb (registered s agentId)) "Agent already registered") (fun _ =>
  ret {| owner := owner s;
         oracleToken := oracleToken s;
         predictions := predictions s;
         agentStats := <[agentId := set_walletAddress wallet (stats s agentId)]> (agentStats s);
         agentRegistered := <[agentId := true]> (agentRegistered s) |})).

(** [updateAgentWallet(agentId, newWallet)] *)
Definition updateAgentWallet (sender : address) (agentId : string) (newWallet : address)
    (s : State) : M State :=
  bind (onlyOwner (owner s) sender) (fun _ =>
  bind (require (registered s agentId) "Agent not registered") (fun _ =>
  ret {| owner := owner s;
         oracleToken := oracleToken s;
         predictions := predictions s;
         agentStats := <[agentId := set_walletAddress newWallet (stats s agentId)]> (agentStats s);
         agentRegistered := agentRegistered s |})).

(** [submitPrediction(agentId, predictionHash, confidence)]; [now] is
    [block.timestamp]. Returns the identifier with the new state. *)
Definition submitPrediction (sender : address) (now : Z) (agentId : string)
    (predictionHash : bytes32) (confidence : Z) (s : State) : M (bytes32 * State) :=
  bind (onlyOwner (owner s) sender) (fun _ =>
  bind (require (registered s agentId) "Agent not registered") (fun _ =>
  bind (require ((1 <=? confidence)%Z && (confidence <=? 10)%Z) "Confidence must be 1-10")
    (fun _ =>
  let predictionId := keccak256 agentId predictionHash now in
  let a := stats s agentId in
  bind (add uint256_max (totalPredictions a) 1) (fun total =>
  ret (predictionId,
       {| owner := owner s;
          oracleToken := oracleToken s;
          predictions :=
            <[predictionId :=
                {| agentId := agentId;
                   predictionHash := predictionHash;
                   confidence := confidence;
                   timestamp := now;
                   resolved := false;
                   correct := false;
                   reward := 0 |}]> (predictions s);
          agentStats :=
            <[agentId :=
                {| walletAddress := walletAddress a;
                   totalPredictions := total;
                   correctPredictions := correctPredictions a;
                   currentStreak := currentStreak a;
                   bestStreak := bestStreak a;
                   totalRewardsEarned := totalRewardsEarned a |}]> (agentStats s);
          agentRegistered := agentRegistered s |}))))).

(** [resolvePrediction(predictionId, correct)] *)
Definition resolvePrediction (sender : address) (predictionId : bytes32) (correct : bool)
    (s : State) : M State :=
  bind (onlyOwner (owner s) sender) (fun _ =>
  let pred := prediction s predictionId in
  bind (require (negb (resolved pred)) "Already resolved") (fun _ =>
  bind (require (0 <? String.length (agentId pred))%nat "Prediction not found") (fun _ =>
  let a := stats s (agentId pred) in
  if correct then
    bind (add uint256_max (correctPredictions a) 1) (fun correctPredictions' =>
    bind (add uint256_max (currentStreak a) 1) (fun currentStreak' =>
    let bestStreak' :=
      if (bestStreak a <? currentStreak')%Z then currentStreak' else bestStreak a in
    bind (mul uint8_max (confidence pred) 10) (fun confidenceMultiplier =>
    bind (add uint256_max 10 currentStreak') (fun streakBonus =>
    let streakBonus :=
      if (MAX_STREAK_BONUS <? streakBonus)%Z then MAX_STREAK_BONUS else streakBonus in
    bind (mul uint256_max BASE_REWARD confidenceMultiplier) (fun product =>
    bind (mul uint256_max product streakBonus) (fun product =>
    let reward := (product / 500)%Z in
    bind (add uint256_max (totalRewardsEarned a) reward) (fun totalRewardsEarned' =>
    bind (if (walletAddress a =? 0)%Z then ret (oracleToken s)
          else OracleToken.mintReward ERC20 _mint this (walletAddress a) reward
                 (agentId pred) (oracleToken s)) (fun token =>
    ret {| owner := owner s;
           oracleToken := token;
           predictions :=
             <[predictionId :=
                 {| agentId := agentId pred;
                    predictionHash := predictionHash pred;
                    confidence := confidence pred;
                    timestamp := timestamp pred;
                    resolved := true;
                    correct := correct;
                    reward := reward |}]> (predictions s);
           agentStats :=
             <[agentId pred :=
                 {| walletAddress := walletAddress a;
                    totalPredictions := totalPredictions a;
                    correctPredictions := correctPredictions';
                    currentStreak := currentStreak';
                    bestStreak := bestStreak';
                    totalRewardsEarned := totalRewardsEarned' |}]> (agentStats s);
           agentRegistered := agentRegistered s |}))))))))
  else
    ret {| owner := owner s;
           oracleToken := oracleToken s;
           predictions :=
             <[predictionId :=
                 {| agentId := agentId pred;
                    predictionHash := predictionHash pred;
                    confidence := confidence pred;
                    timestamp := timestamp pred;
                    resolved := true;
                    correct := correct;
                    reward := reward pred |}]> (predictions s);
           agentStats :=
             <[agentId pred :=
                 {| walletAddress := walletAddress a;
                    totalPredictions := totalPredictions a;
                    correctPredictions := correctPredictions a;
                    currentStreak := 0;
                    bestStreak := bestStreak a;
                    totalRewardsEarned := totalRewardsEarned a |}]> (agentStats s);
           agentRegistered := agentRegistered s |}))).

(** [getAgentStats(agentId)]: wallet, total, correct, accuracy, current
    streak, best streak, rewards. *)
Definition getAgentStats (agentId : string) (s : State)
    : M (address * Z * Z * Z * Z * Z * Z) :=
  let a := stats s agentId in
  bind (if (0 <? totalPredictions a)%Z
        then bind (mul uint256_max (correctPredictions a) 100) (fun n =>
             ret (n / totalPredictions a)%Z)
        else ret 0%Z) (fun accuracy =>
  ret (walletAddress a, totalPredictions a, correctPredictions a, accuracy,
       currentStreak a, bestStreak a, totalRewardsEarned a)).

(** A transaction that returned: a call of one of the four functions
    above, a call of the token contract by another account, or a transfer
    of the ownership. *)
Inductive step : State -> State -> Prop :=
| step_registerAgent sender agentId wallet s s' :
    registerAgent sender agentId wallet s = inr s' -> step s s'
| step_updateAgentWallet sender agentId wallet s s' :
    updateAgentWallet sender agentId wallet s = inr s' -> step s s'
| step_submitPrediction sender now agentId predictionHash confidence s id s' :
    submitPrediction sender now agentId predictionHash confidence s = inr (id, s') ->
    step s s'
| step_resolvePrediction sender predictionId correct s s' :
    resolvePrediction sender predictionId correct s = inr s' -> step s s'
| step_elsewhere owner' token' s :
    step s {| owner := owner';
              oracleToken := token';
              predictions := predictions s;
              agentStats := agentStats s;
              agentRegistered := agentRegistered s |}.

(** The state after the constructor has run. *)
Definition deployed (deployer : address) (token : OracleToken.State ERC20) : State :=
  {| owner := deployer;
     oracleToken := token;
     predictions := ∅;
     agentStats := ∅;
     agentRegistered := ∅ |}.

Inductive reachable : State -> Prop :=
| reachable_deployed deployer token : reachable (deployed deployer token)
| reachable_step s s' : reachable s -> step s s' -> reachable s'.

End Contract.

End OraclePredictions.

(** ** The scoring calculator as the specification words it, in exact
    rational arithmetic *)

Module scorer_spec.
Import JsNumber.
Open Scope Q_scope.

(** Confidence clamped to [1, 10]. *)
Definition clamp (confidence : Z) : Z :=
  if (confidence <? 1)%Z then 1%Z else if (10 <? confidence)%Z then 10%Z else confidence.

(** confidenceMultiplier = clamped confidence / 5 *)
Definition confidenceMultiplier (confidence : Z) : Q := inject_Z (clamp confidence) / 5.

(** streakMultiplier = min(2.0, 1 + newStreak * 0.1), newStreak = s + 1 *)
Definition streakMultiplier (currentStreak : Z) : Q :=
  Qmin 2 (1 + inject_Z (currentStreak + 1) * (1 # 10)).

(** Rounding to 2 decimal places, half up. *)
Definition roundHalfUp2 (q : Q) : Q := inject_Z (Qfloor (q * 100 + (1 # 2))) / 100.

(** reward = 100 * confidenceMultiplier * streakMultiplier, rounded *)
Definition reward (confidence currentStreak : Z) : Q :=
  roundHalfUp2 (100 * confidenceMultiplier confidence * streakMultiplier currentStreak).

End scorer_spec.

(** ** The outcome matcher as the specification words it *)

Module matcher_spec.
Import JsString.
Open Scope string_scope.

(** [t] occurs in [s]. *)
Definition contains (s t : string) : Prop :=
  exists pre post, s = pre ++ t ++ post.

Definition containsAny (s : string) (terms : list string) : Prop :=
  exists t, In t terms /\ contains s t.

(** A forecast fragment is positive when, case-folded, it contains some
    positive term and no negative one; negative under the mirror condition. *)
Definition forecastPositive (fragment : string) : Prop :=
  containsAny (toLowerCase fragment) ["yes"; "will"; "true"; "happen"; "succeed"] /\
  ~ containsAny (toLowerCase fragment) ["no"; "won't"; "false"; "fail"; "not"].

Definition forecastNegative (fragment : string) : Prop :=
  containsAny (toLowerCase fragment) ["no"; "won't"; "false"; "fail"; "not"] /\
  ~ containsAny (toLowerCase fragment) ["yes"; "will"; "true"; "happen"; "succeed"].

Definition outcomePositive (actual : string) : Prop :=
  contains (toLowerCase actual) "yes" \/ contains (toLowerCase actual) "happened"
  \/ contains (toLowerCase actual) "true".

(** The polarity heuristic: a positive forecast is correct iff the outcome
    is positive, a negative one iff it is not, any other forecast is
    incorrect. *)
Definition polarityCorrect (fragment actual : string) : Prop :=
  (forecastPositive fragment /\ outcomePositive actual) \/
  (forecastNegative fragment /\ ~ outcomePositive actual).

End matcher_spec.

(** ** Vocabulary for statements about the parser *)

Module parser_spec.
Import JsString.
Open Scope string_scope.

(** Every character of [s] is in the class [p]. *)
Definition allChars (p : ascii -> bool) (s : string) : bool :=
  forallb p (list_ascii_of_string s).

(** [s] is empty or its first character is not in the class [p]. *)
Definition headNot (p : ascii -> bool) (s : string) : Prop :=
  match s with String c _ => p c = false | EmptyString => True end.




End parser_spec.

(** ** Vocabulary for statements about the store *)

Module db_spec.
Import db.

(** How one agent row can differ across a transition. *)
Inductive agent_change (a : Agent) : Agent -> Prop :=
| change_none : agent_change a a
| change_correct now : agent_change a (agent_correct now a)
| change_wrong now : agent_change a (agent_wrong now a)
| change_wallet a' :
    current_streak a' = current_streak a -> best_streak a' = best_streak a ->
    total_predictions a' = total_predictions a ->
    total_ort_earned a' = total_ort_earned a ->
    agent_change a a'.


(** How a statement rewrites one agent row: it leaves it, counts a correct
    or an incorrect settlement, or sets the wallet. *)
Inductive row_change (a : Agent) : Agent -> Prop :=
| row_same : row_change a a
| row_correct now : row_change a (agent_correct now a)
| row_wrong now : row_change a (agent_wrong now a)
| row_wallet wallet now :
    row_change a
      {| moltbook_name := moltbook_name a;
         wallet_address := Some wallet;
         total_predictions := total_predictions a;
         correct_predictions := correct_predictions a;
         current_streak := current_streak a;
         best_streak := best_streak a;
         total_ort_earned := total_ort_earned a;
         agent_created_at := agent_created_at a;
         updated_at := now |}.

(** No two agent rows carry the same name. *)
Definition names_unique (d : Db) : Prop :=
  forall i j a b,
    agents d !! i = Some a -> agents d !! j = Some b ->
    moltbook_name a = moltbook_name b -> i = j.

(** The columns of a forecast that no statement rewrites. *)
Definition same_forecast (p p' : Prediction) : Prop :=
  agent_id p' = agent_id p /\ topic_id p' = topic_id p /\ post_id p' = post_id p /\
  comment_id p' = comment_id p /\ prediction_text p' = prediction_text p /\
  outcome_predicted p' = outcome_predicted p /\ deadline p' = deadline p /\
  confidence p' = confidence p /\ category p' = category p /\
  on_chain_id p' = on_chain_id p /\ created_at p' = created_at p.

(** The columns of a topic that no statement rewrites. *)
Definition same_topic (t t' : Topic) : Prop :=
  topic_post_id t' = topic_post_id t /\ title t' = title t /\
  description t' = description t /\ topic_category t' = topic_category t /\
  topic_deadline t' = topic_deadline t /\ polymarket_id t' = polymarket_id t /\
  polymarket_data t' = polymarket_data t /\ source t' = source t /\
  topic_created_at t' = topic_created_at t.

(** The row written by the UPDATE of [resolveTopic]. *)
Definition topic_resolve (now : Z) (actualOutcome : string) (t : Topic) : Topic :=
  {| topic_post_id := topic_post_id t;
     title := title t;
     description := description t;
     topic_category := topic_category t;
     topic_deadline := topic_deadline t;
     resolved := true;
     actual_outcome := Some actualOutcome;
     polymarket_id := polymarket_id t;
     polymarket_data := polymarket_data t;
     source := source t;
     topic_created_at := topic_created_at t;
     topic_resolved_at := Some now |}.

End db_spec.

(** ** Vocabulary for statements about the ledger *)

Module contract_spec.
Import OraclePredictions.

(** The number of predictions of an agent that wait for their outcome. *)
Definition unresolvedOf (agent : string) (m : gmap Z Prediction) : nat :=
  size (filter (fun kp : Z * Prediction => agentId kp.2 = agent /\ resolved kp.2 = false) m).

(** The invariant of the storage: of the statistics of every agent, and
    of every prediction that was written. *)
Definition ledger_inv (m : gmap Z Prediction) (stats : string -> AgentStats) : Prop :=
  (forall agent,
     0 <= currentStreak (stats agent) <= bestStreak (stats agent) /\
     bestStreak (stats agent) <= correctPredictions (stats agent) /\
     correctPredictions (stats agent) + Z.of_nat (unresolvedOf agent m)
       <= totalPredictions (stats agent)) /\
  (forall id p, m !! id = Some p ->
     1 <= confidence p <= 10 /\
     (correct p = false -> reward p = 0) /\
     (resolved p = false -> correct p = false)).

End contract_spec.

(** ** Checking a property of every integer of a range *)

Module range.

(** [f] holds for the [n] integers from [start] on. *)
Fixpoint forallZ (f : Z -> bool) (start : Z) (n : nat) : bool :=
  match n with
  | O => true
  | S n' => f start && forallZ f (start + 1) n'
  end.

End range.

(** ** Vocabulary for statements about the calendar *)

Module calendar_spec.
Import JsDate.

(** The calendar date of the day [D - 719468] numbers that day, and its
    month is one of the twelve. *)
Definition roundtrip (D : Z) : bool :=
  match civilFromDays (D - 719468) with
  | (y, m, d) => (daysFromCivil y m 1 + d - 1 =? D - 719468) && (0 <=? m) && (m <=? 11)
  end.

End calendar_spec.

(** ** Vocabulary for statements about the reading of comments *)

Module index_spec.
Import db.

(** The comment needs no handling: a pending forecast carries its
    identifier, or its text holds no forecast. *)
Definition handled (comment : index.MoltbookComment) (d : Db) : Prop :=
  Exists (fun p => comment_id p.2 = Some (index.c_id comment)) (getPendingPredictions d) \/
  RegExp.matchRe true parser.rePrediction (index.c_content comment) = None.

(** [d'] has the topics of [d], and lists every pending forecast that [d]
    lists. *)
Definition grows (d d' : Db) : Prop :=
  topics d' = topics d /\
  forall id p, (id, p) ∈ getPendingPredictions d -> (id, p) ∈ getPendingPredictions d'.

End index_spec.

(** ** Further sample data *)

Module examples.
Import db.
Open Scope string_scope.

(** A topic for the post of the sample forecast, with a deadline. *)
Definition topic1 : TopicData :=
  {| td_postId := Some "post1";
     td_title := "Will ETH flip BTC?";
     td_description := None;
     td_category := Some "crypto";
     td_deadline := Some 5;
     td_polymarketId := None;
     td_polymarketData := None;
     td_source := None |}.

(** [samples.d0] with that topic, under the identifier the sample forecast
    is bound to. *)
Definition d3 : Db := (createTopic "t1" 0 topic1 samples.d0).2.

(** [d3] after the topic has been settled with the matching term "btc". *)
Definition d4 : Db :=
  (resolver.resolveTopic samples.noChain 3 "t1" "Yes, it happened" ["btc"] d3).2.

(** A second comment on the post, by another author. *)
Definition comment2 : index.MoltbookComment :=
  {| index.c_id := "c2";
     index.c_content := samples.comment;
     index.c_author_name := "bob" |}.

Definition posts : list (string * option (list index.MoltbookComment)) :=
  [("post1", Some [comment2])].

Definition draws (i j : nat) : index.Draw :=
  {| index.draw_agent := "a2";
     index.draw_prediction := "p2";
     index.clock_parse := samples.now0;
     index.clock_agent := 4;
     index.clock_insert := 4 |}.

Definition draws' (i j : nat) : index.Draw :=
  {| index.draw_agent := "a3";
     index.draw_prediction := "p3";
     index.clock_parse := samples.now1;
     index.clock_agent := 6;
     index.clock_insert := 6 |}.

(** [d3] after the comments of the post have been read. *)
Definition d5 : Db := index.checkNewPredictions samples.Date_parse draws posts d3.

(** A ledger whose token contract keeps no balances: the owner is account
    1, the contract is account 7, the identifier of a prediction is its
    hash. *)
Definition mint (_ : Z) (_ : Z) (e : unit) : Sol.M unit := inr e.
Definition keccak (_ : string) (hash : Z) (_ : Z) : Z := hash.

Definition token : OracleToken.State unit :=
  {| OracleToken.erc20 := tt; OracleToken.owner := 1; OracleToken.gameContract := 7 |}.

Definition s0 : OraclePredictions.State unit := OraclePredictions.deployed unit 1 token.

Definition returned {A} (default : A) (r : Sol.M A) : A :=
  match r with inr x => x | inl _ => default end.

(** Alice is registered with wallet 5 and submits a prediction with
    confidence 8, which is resolved as correct. *)
Definition s1 : OraclePredictions.State unit :=
  returned s0 (OraclePredictions.registerAgent unit 1 "alice" 5 s0).

Definition s2 : OraclePredictions.State unit :=
  (returned (0, s1) (OraclePredictions.submitPrediction unit keccak 1 100 "alice" 42 8 s1)).2.

Definition s3 : OraclePredictions.State unit :=
  returned s2 (OraclePredictions.resolvePrediction unit mint 7 1 42 true s2).

End examples.

(** * Properties of binary64 rounding *)

Module float_facts.
Import JsNumber.

Lemma digits2_pos_bounds (p : positive) :
  2 ^ (Zpos (digits2_pos p) - 1) <= Zpos p < 2 ^ Zpos (digits2_pos p).
Proof.
  induction p as [p IH|p IH|]; cbn [digits2_pos].
  - rewrite Pos2Z.inj_succ.
    replace (Z.succ (Zpos (digits2_pos p)) - 1) with (Z.succ (Zpos (digits2_pos p) - 1)) by lia.
    rewrite !Z.pow_succ_r by lia. lia.
  - rewrite Pos2Z.inj_succ.
    replace (Z.succ (Zpos (digits2_pos p)) - 1) with (Z.succ (Zpos (digits2_pos p) - 1)) by lia.
    rewrite !Z.pow_succ_r by lia. lia.
  - cbn. lia.
Qed.

(** The number of digits of a positive number between two powers of 2. *)
Lemma digits2_pos_range (p : positive) (a b : Z) :
  0 <= a -> 2 ^ a <= Zpos p < 2 ^ b -> a < Zpos (digits2_pos p) <= b.
Proof.
  intros Ha [H1 H2]. pose proof (digits2_pos_bounds p) as [H3 H4]. split.
  - apply (Z.pow_lt_mono_r_iff 2); lia.
  - assert (0 <= b).
    { destruct (Z.lt_ge_cases b 0) as [Hb|Hb]; [|lia].
      rewrite (Z.pow_neg_r 2 b Hb) in H2. lia. }
    assert (Zpos (digits2_pos p) - 1 < b); [|lia].
    apply (Z.pow_lt_mono_r_iff 2); lia.
Qed.

Lemma shr_1_m (mrs : shr_record) :
  0 <= shr_m mrs -> shr_m (shr_1 mrs) = shr_m mrs / 2.
Proof.
  destruct mrs as [m r s]. cbn [shr_m]. intros Hm. rewrite <- Z.div2_div.
  by destruct m as [|[p|p|]|p].
Qed.

Lemma shr_1_nonneg (mrs : shr_record) : 0 <= shr_m mrs -> 0 <= shr_m (shr_1 mrs).
Proof. intros H. rewrite shr_1_m by done. apply Z.div_pos; lia. Qed.

Lemma iter_pos_shr_1 (p : positive) (mrs : shr_record) :
  0 <= shr_m mrs ->
  0 <= shr_m (SpecFloat.iter_pos shr_1 p mrs) /\
  shr_m (SpecFloat.iter_pos shr_1 p mrs) = shr_m mrs / 2 ^ Zpos p.
Proof.
  revert mrs. induction p as [p IH|p IH|]; intros mrs Hm; cbn [SpecFloat.iter_pos].
  - pose proof (shr_1_nonneg mrs Hm) as H1.
    destruct (IH (shr_1 mrs) H1) as [H2 E2].
    destruct (IH _ H2) as [H3 E3]. split; [done|].
    rewrite E3, E2, shr_1_m by done.
    rewrite !Z.div_div by lia. f_equal.
    replace (Zpos p~1) with (1 + Zpos p + Zpos p) by lia.
    rewrite !Z.pow_add_r by lia. change (2 ^ 1) with 2. lia.
  - destruct (IH mrs Hm) as [H2 E2].
    destruct (IH _ H2) as [H3 E3]. split; [done|].
    rewrite E3, E2. rewrite !Z.div_div by lia. f_equal.
    replace (Zpos p~0) with (Zpos p + Zpos p) by lia.
    rewrite Z.pow_add_r by lia. lia.
  - split; [by apply shr_1_nonneg|]. by rewrite shr_1_m.
Qed.

Lemma shr_spec (mrs : shr_record) (e n : Z) :
  0 <= n -> 0 <= shr_m mrs ->
  shr_m (shr mrs e n).1 = shr_m mrs / 2 ^ n /\ (shr mrs e n).2 = e + n.
Proof.
  intros Hn Hm. destruct n as [|p|p]; [| |lia]; cbn [shr fst snd].
  - rewrite Z.pow_0_r, Z.div_1_r. lia.
  - split; [|done]. by apply iter_pos_shr_1.
Qed.

(** The first step of rounding in the normal range: the mantissa is cut
    to 53 digits. *)
Lemma shr_fexp_normal (p : positive) (e : Z) (l : location) :
  53 <= Zpos (digits2_pos p) ->
  -1074 <= e + Zpos (digits2_pos p) - 53 ->
  2 ^ 52 <= shr_m (shr_fexp prec emax (Zpos p) e l).1 < 2 ^ 53 /\
  (shr_fexp prec emax (Zpos p) e l).2 = e + Zpos (digits2_pos p) - 53.
Proof.
  intros Hd He. unfold shr_fexp, fexp, SpecFloat.emin, prec, emax. cbn [Zdigits2].
  set (d := Zpos (digits2_pos p)) in *.
  rewrite Z.max_l by lia.
  replace (d + e - 53 - e) with (d - 53) by lia.
  assert (Hm : shr_m (shr_record_of_loc (Zpos p) l) = Zpos p)
    by (by destruct l as [|[]]).
  destruct (shr_spec (shr_record_of_loc (Zpos p) l) e (d - 53)) as [E1 E2];
    [lia|rewrite Hm; lia|].
  rewrite E1, E2, Hm. split; [|lia].
  pose proof (digits2_pos_bounds p) as [H1 H2]. fold d in H1, H2.
  assert (Hp : 0 < 2 ^ (d - 53)) by (apply Z.pow_pos_nonneg; lia).
  assert (E52 : 2 ^ (d - 1) = 2 ^ 52 * 2 ^ (d - 53)).
  { rewrite <- Z.pow_add_r by lia. f_equal. lia. }
  assert (E53 : 2 ^ d = 2 ^ 53 * 2 ^ (d - 53)).
  { rewrite <- Z.pow_add_r by lia. f_equal. lia. }
  split.
  - apply Z.div_le_lower_bound; lia.
  - apply Z.div_lt_upper_bound; lia.
Qed.

Lemma round_nearest_even_range (m : Z) (l : location) :
  m <= round_nearest_even m l <= m + 1.
Proof. destruct l as [|[]]; cbn; try lia. destruct (Z.even m); lia. Qed.

(** Rounding a positive number in the normal range gives infinity or a
    normal number whose exponent is at least that of the cut mantissa. *)
Lemma binary_round_aux_normal (p : positive) (e : Z) (l : location) :
  53 <= Zpos (digits2_pos p) ->
  -1074 <= e + Zpos (digits2_pos p) - 53 ->
  binary_round_aux prec emax false (Zpos p) e l = S754_infinity false \/
  exists m' e',
    binary_round_aux prec emax false (Zpos p) e l = S754_finite false m' e' /\
    2 ^ 52 <= Zpos m' < 2 ^ 53 /\ e + Zpos (digits2_pos p) - 53 <= e'.
Proof.
  intros Hd He. unfold binary_round_aux.
  destruct (shr_fexp_normal p e l Hd He) as [Hm1 He1].
  destruct (shr_fexp prec emax (Zpos p) e l) as [mrs1 e1]. cbn [fst snd] in *.
  pose proof (round_nearest_even_range (shr_m mrs1) (loc_of_shr_record mrs1)) as Hr.
  set (m2 := round_nearest_even (shr_m mrs1) (loc_of_shr_record mrs1)) in *.
  destruct m2 as [|p2|p2]; [lia| |lia].
  assert (Hd2 : 52 < Zpos (digits2_pos p2) <= 54).
  { apply digits2_pos_range; [lia|]. change (2 ^ 54) with (2 * 2 ^ 53). lia. }
  destruct (shr_fexp_normal p2 e1 loc_Exact) as [Hm3 He3]; [lia|lia|].
  destruct (shr_fexp prec emax (Zpos p2) e1 loc_Exact) as [mrs3 e3]. cbn [fst snd] in *.
  destruct (shr_m mrs3) as [|p3|p3]; [lia| |lia].
  destruct (e3 <=? emax - prec); [right|by left].
  exists p3, e3. split; [done|]. split; [done|]. lia.
Qed.

Lemma pos_iter_xO (p k : positive) : Zpos (Pos.iter xO p k) = Zpos p * 2 ^ Zpos k.
Proof.
  induction k as [|k IH] using Pos.peano_ind.
  - cbn [Pos.iter]. rewrite Z.pow_1_r. lia.
  - rewrite Pos.iter_succ, Pos2Z.inj_xO, IH, Pos2Z.inj_succ, Z.pow_succ_r by lia. lia.
Qed.

Lemma shl_align_value (mx : positive) (ex ex' : Z) :
  ex' <= ex ->
  Zpos (shl_align mx ex ex').1 = Zpos mx * 2 ^ (ex - ex').
Proof.
  intros H. unfold shl_align. destruct (ex' - ex) as [|d|d] eqn:E; [|lia|]; cbn [fst].
  - replace (ex - ex') with 0 by lia. lia.
  - rewrite pos_iter_xO. f_equal. f_equal. lia.
Qed.

Lemma shl_align_id (mx : positive) (ex ex' : Z) :
  ex <= ex' -> shl_align mx ex ex' = (mx, ex).
Proof. intros H. unfold shl_align. destruct (ex' - ex) eqn:E; [done|done|lia]. Qed.

(** The double of a positive integer is infinity or a normal number whose
    exponent is at least the number of digits of the integer less 53. *)
Lemma ofZ_normal (p : positive) :
  ofZ (Zpos p) = S754_infinity false \/
  exists m e, ofZ (Zpos p) = S754_finite false m e /\
    2 ^ 52 <= Zpos m < 2 ^ 53 /\ Zpos (digits2_pos p) - 53 <= e.
Proof.
  unfold ofZ, binary_normalize, binary_round.
  set (d := Zpos (digits2_pos p)).
  assert (Hf : fexp prec emax (d + 0) = d - 53).
  { unfold fexp, SpecFloat.emin, prec, emax. lia. }
  rewrite Hf. pose proof (digits2_pos_bounds p) as Hb. fold d in Hb.
  destruct (Z.lt_ge_cases d 53) as [Hd|Hd].
  - pose proof (shl_align_value p 0 (d - 53) ltac:(lia)) as Hv.
    assert (E : (shl_align p 0 (d - 53)).2 = d - 53).
    { unfold shl_align. destruct (d - 53 - 0) eqn:E; [lia|lia|done]. }
    destruct (shl_align p 0 (d - 53)) as [mz ez]. cbn [fst snd] in *. subst ez.
    assert (Hmz : 2 ^ 52 <= Zpos mz < 2 ^ 53).
    { rewrite Hv. replace (0 - (d - 53)) with (53 - d) by lia.
      assert (0 < 2 ^ (53 - d)) by (apply Z.pow_pos_nonneg; lia).
      assert (2 ^ 52 = 2 ^ (d - 1) * 2 ^ (53 - d)) as ->.
      { rewrite <- Z.pow_add_r by lia. f_equal. lia. }
      assert (2 ^ 53 = 2 ^ d * 2 ^ (53 - d)) as ->.
      { rewrite <- Z.pow_add_r by lia. f_equal. lia. }
      split; [apply Z.mul_le_mono_nonneg_r; lia|apply Z.mul_lt_mono_pos_r; lia]. }
    assert (Hdz : Zpos (digits2_pos mz) = 53).
    { pose proof (digits2_pos_range mz 52 53 ltac:(lia) Hmz). lia. }
    destruct (binary_round_aux_normal mz (d - 53) loc_Exact) as [->|(m & e & -> & Hm & He)];
      [lia|lia|by left|].
    right. exists m, e. split; [done|]. split; [done|]. lia.
  - rewrite shl_align_id by lia.
    destruct (binary_round_aux_normal p 0 loc_Exact) as [->|(m & e & -> & Hm & He)];
      [done|fold d; lia|by left|].
    right. exists m, e. split; [done|]. split; [done|]. fold d in He. lia.
Qed.

(** A normal number at least 10, times the double nearest to one tenth, is
    at least 1. *)
Lemma mul_tenth_ge_1 (m : positive) (e : Z) :
  2 ^ 52 <= Zpos m < 2 ^ 53 ->
  -49 < e \/ (e = -49 /\ 10 * 2 ^ 49 <= Zpos m) ->
  mul (S754_finite false m e) lit_0_1 = S754_infinity false \/
  exists m' e', mul (S754_finite false m e) lit_0_1 = S754_finite false m' e' /\
    2 ^ 52 <= Zpos m' < 2 ^ 53 /\ -52 <= e'.
Proof.
  intros Hm He. unfold mul, lit_0_1, SFmul. cbn [xorb].
  set (P := (m * 7205759403792794)%positive).
  assert (HP : Zpos P = Zpos m * 7205759403792794) by (unfold P; lia).
  change (2 ^ 52) with 4503599627370496 in Hm.
  change (2 ^ 53) with 9007199254740992 in Hm.
  change (2 ^ 49) with 562949953421312 in He.
  assert (Hd : 104 < Zpos (digits2_pos P) <= 106).
  { apply digits2_pos_range; [lia|]. rewrite HP.
    change (2 ^ 104) with 20282409603651670423947251286016.
    change (2 ^ 106) with 81129638414606681695789005144064. lia. }
  assert (Hd' : e = -49 -> Zpos (digits2_pos P) = 106).
  { intros ->. assert (105 < Zpos (digits2_pos P) <= 106); [|lia].
    apply digits2_pos_range; [lia|]. rewrite HP.
    change (2 ^ 105) with 40564819207303340847894502572032.
    change (2 ^ 106) with 81129638414606681695789005144064. lia. }
  destruct (binary_round_aux_normal P (e + -56) loc_Exact)
    as [->|(m' & e' & -> & Hm' & He')]; [lia|lia|by left|].
  right. exists m', e'. split; [done|]. split; [done|]. lia.
Qed.

(** 1 plus a normal number at least 1 is at least 2. *)
Lemma add_one_ge_2 (m : positive) (e : Z) :
  2 ^ 52 <= Zpos m < 2 ^ 53 -> -52 <= e ->
  add (ofZ 1) (S754_finite false m e) = S754_infinity false \/
  exists m' e', add (ofZ 1) (S754_finite false m e) = S754_finite false m' e' /\
    2 ^ 52 <= Zpos m' < 2 ^ 53 /\ -51 <= e'.
Proof.
  intros Hm He.
  change (ofZ 1) with (S754_finite false 4503599627370496 (-52)).
  unfold add, SFadd. rewrite Z.min_l by lia. cbn [cond_Zopp].
  rewrite (shl_align_id _ (-52) (-52)) by lia. cbn [fst].
  pose proof (shl_align_value m e (-52) He) as Hv.
  set (a := (shl_align m e (-52)).1) in *.
  change (Zpos 4503599627370496 + Zpos a) with (Zpos (4503599627370496 + a)).
  set (S := (4503599627370496 + a)%positive).
  assert (HS : 2 ^ 53 <= Zpos S).
  { unfold S. rewrite Pos2Z.inj_add, Hv.
    assert (0 < 2 ^ (e - -52)) by (apply Z.pow_pos_nonneg; lia).
    change (2 ^ 53) with 9007199254740992. change (2 ^ 52) with 4503599627370496 in Hm.
    nia. }
  pose proof (digits2_pos_bounds S) as HdS.
  assert (Hd : 53 < Zpos (digits2_pos S)).
  { apply (Z.pow_lt_mono_r_iff 2); lia. }
  unfold binary_normalize, binary_round.
  assert (Hf : fexp prec emax (Zpos (digits2_pos S) + -52) = Zpos (digits2_pos S) - 105).
  { unfold fexp, SpecFloat.emin, prec, emax. lia. }
  rewrite Hf, shl_align_id by lia.
  destruct (binary_round_aux_normal S (-52) loc_Exact)
    as [->|(m' & e' & -> & Hm' & He')]; [lia|lia|by left|].
  right. exists m', e'. split; [done|]. split; [done|]. lia.
Qed.

(** The minimum of 2 and a normal number at least 2, or infinity, is 2. *)
Lemma Math_min_2 (z : number) :
  z = S754_infinity false \/
  (exists m e, z = S754_finite false m e /\ 2 ^ 52 <= Zpos m < 2 ^ 53 /\ -51 <= e) ->
  Math_min (ofZ 2) z = ofZ 2.
Proof.
  change (ofZ 2) with (S754_finite false 4503599627370496 (-51)).
  intros [->|(m & e & -> & Hm & He)]; [reflexivity|].
  unfold Math_min, SFcompare.
  destruct (Z.compare_spec (-51) e) as [<-|Hlt|Hgt]; [|reflexivity|lia].
  rewrite Pos.compare_cont_spec. unfold Pos.switch_Eq.
  destruct (Pos.compare_spec 4503599627370496 m) as [H|H|H]; [reflexivity|reflexivity|].
  exfalso. apply Pos2Z.pos_lt_pos in H.
  change (2 ^ 52) with (Zpos 4503599627370496) in Hm. lia.
Qed.

(** The streak multiplier is capped from the tenth correct forecast in a
    row on. *)
Lemma streakBonus_capped (n : Z) :
  10 <= n ->
  Math_min (ofZ 2) (add (ofZ 1) (mul (ofZ n) lit_0_1)) = ofZ 2.
Proof.
  intros Hn. apply Math_min_2.
  destruct n as [|p|p]; [lia| |lia].
  assert (Hx : ofZ (Zpos p) = S754_infinity false \/
          exists m e, ofZ (Zpos p) = S754_finite false m e /\
            2 ^ 52 <= Zpos m < 2 ^ 53 /\
            (-49 < e \/ (e = -49 /\ 10 * 2 ^ 49 <= Zpos m))).
  { destruct (Z.lt_ge_cases (Zpos p) 16) as [Hlt|Hge].
    - right.
      assert (Zpos p = 10 \/ Zpos p = 11 \/ Zpos p = 12 \/ Zpos p = 13 \/
              Zpos p = 14 \/ Zpos p = 15) as Hc by lia.
      destruct Hc as [H|[H|[H|[H|[H|H]]]]]; injection H as ->;
        (eexists _, _; split; [vm_compute; reflexivity|]);
        (split; [split; [by vm_compute|by vm_compute]|]);
        right; (split; [reflexivity|by vm_compute]).
    - destruct (ofZ_normal p) as [->|(m & e & -> & Hm & He)]; [by left|].
      right. exists m, e. split; [done|]. split; [done|]. left.
      assert (4 < Zpos (digits2_pos p)); [|lia].
      apply (digits2_pos_range p 4 (Zpos (digits2_pos p))); [lia|].
      pose proof (digits2_pos_bounds p). change (2 ^ 4) with 16. lia. }
  destruct Hx as [->|(m & e & -> & Hm & He)]; [by left|].
  destruct (mul_tenth_ge_1 m e Hm He) as [->|(m1 & e1 & -> & Hm1 & He1)]; [by left|].
  destruct (add_one_ge_2 m1 e1 Hm1 He1) as [->|(m2 & e2 & -> & Hm2 & He2)]; [by left|].
  right. by exists m2, e2.
Qed.

End float_facts.

(** * Properties of the scoring calculator *)

Module scorer_facts.
Import JsNumber scorer float_facts.

Lemma clamp_eq (c : Z) : scorer_spec.clamp c = Z.max 1 (Z.min 10 c).
Proof. unfold scorer_spec.clamp. destruct (Z.ltb_spec c 1), (Z.ltb_spec 10 c); lia. Qed.

Lemma streakMultiplier_capped (s : Z) :
  9 <= s -> (scorer_spec.streakMultiplier s == 2)%Q.
Proof.
  intros Hs. unfold scorer_spec.streakMultiplier. apply Q.min_l.
  unfold Qle. cbn. lia.
Qed.

(** C3. For every integer confidence and every streak [s >= 0] (a count
    that a double holds exactly, so below 2^53) the scoring
    calculator returns a result: the confidence is clamped to [1, 10]; the
    confidence multiplier is the double nearest to clamped / 5; the new streak
    is [s + 1]; the streak multiplier is, to one unit in the last place, min(2,
    1 + newStreak / 10), and it is 2 exactly from the tenth forecast in a row
    on; the reward is exactly 100 * clamped / 5 * min(2, 1 + newStreak / 10)
    rounded half up to 2 decimal places. For (8, 2) the multipliers are the
    doubles 1.6 and 1.3, the new streak is 3 and the reward is 208; for (10,
    20) the streak multiplier is 2. *)
Theorem calculateReward_spec (confidence currentStreak : Z) :
  0 <= currentStreak < 2 ^ 53 ->
  1 <= scorer_spec.clamp confidence <= 10 /\
  confidenceMultiplier (calculateReward confidence currentStreak)
    = nearest (scorer_spec.clamp confidence) 5 /\
  newStreak (calculateReward confidence currentStreak) = currentStreak + 1 /\
  (exists q, toQ (streakBonus (calculateReward confidence currentStreak)) = Some q /\
     (Qabs (q - scorer_spec.streakMultiplier currentStreak) <= 1 # 4503599627370496)%Q) /\
  (9 <= currentStreak -> streakBonus (calculateReward confidence currentStreak) = ofZ 2) /\
  (exists q, toQ (totalReward (calculateReward confidence currentStreak)) = Some q /\
     (q == scorer_spec.reward confidence currentStreak)%Q) /\
  confidenceMultiplier (calculateReward 8 2) = nearest 16 10 /\
  newStreak (calculateReward 8 2) = 3 /\
  streakBonus (calculateReward 8 2) = nearest 13 10 /\
  totalReward (calculateReward 8 2) = ofZ 208 /\
  streakBonus (calculateReward 10 20) = ofZ 2.
Proof.
  intros [Hs _].
  assert (Hc : 1 <= scorer_spec.clamp confidence <= 10) by (rewrite clamp_eq; lia).
  split; [done|]. split; [rewrite clamp_eq; reflexivity|]. split; [reflexivity|].
  split; [|split; [|split; [|by vm_compute]]].
  - unfold calculateReward. cbn [streakBonus]. change config.game.maxStreakBonus with 2%Z.
    destruct (Z.lt_ge_cases currentStreak 9) as [Hlt|Hge].
    + assert (currentStreak = 0 \/ currentStreak = 1 \/ currentStreak = 2 \/
              currentStreak = 3 \/ currentStreak = 4 \/ currentStreak = 5 \/
              currentStreak = 6 \/ currentStreak = 7 \/ currentStreak = 8) as H by lia.
      repeat destruct H as [->|H]; try subst currentStreak;
        (eexists; split; [vm_compute; reflexivity|by vm_compute]).
    + rewrite streakBonus_capped by lia.
      eexists; split; [vm_compute; reflexivity|].
      rewrite (streakMultiplier_capped currentStreak Hge). by vm_compute.
  - intros Hge. unfold calculateReward. cbn [streakBonus].
    change config.game.maxStreakBonus with 2%Z. by rewrite streakBonus_capped by lia.
  - unfold scorer_spec.reward, scorer_spec.confidenceMultiplier.
    unfold calculateReward. cbn [totalReward]. rewrite <- clamp_eq.
    assert (Hv : exists v, scorer_spec.clamp confidence = v /\
              (v = 1 \/ v = 2 \/ v = 3 \/ v = 4 \/ v = 5 \/ v = 6 \/ v = 7 \/ v = 8 \/
               v = 9 \/ v = 10)) by (eexists; split; [done|lia]).
    destruct Hv as (v & -> & Hv).
    destruct (Z.lt_ge_cases currentStreak 9) as [Hlt|Hge].
    + assert (currentStreak = 0 \/ currentStreak = 1 \/ currentStreak = 2 \/
              currentStreak = 3 \/ currentStreak = 4 \/ currentStreak = 5 \/
              currentStreak = 6 \/ currentStreak = 7 \/ currentStreak = 8) as H by lia.
      repeat destruct H as [->|H]; try subst currentStreak;
        repeat destruct Hv as [->|Hv]; try subst v;
        (eexists; split; [vm_compute; reflexivity|by vm_compute]).
    + change config.game.maxStreakBonus with 2%Z.
      rewrite streakBonus_capped by lia. unfold scorer_spec.roundHalfUp2.
      repeat destruct Hv as [->|Hv]; try subst v;
        (eexists; split;
          [vm_compute; reflexivity
          |rewrite (streakMultiplier_capped currentStreak Hge); by vm_compute]).
Qed.

Lemma calculateReward_spec_witness :
  0 <= 2 < 2 ^ 53 /\ newStreak (calculateReward 8 2) = 2 + 1.
Proof.
  assert (H : 0 <= 2 < 2 ^ 53) by (split; [lia|reflexivity]).
  split; [exact H|]. apply (calculateReward_spec 8 2 H).
Defined.

End scorer_facts.

(** * The reward in closed form *)

Module reward_facts.
Import JsNumber scorer float_facts.

(** The reward in tokens, as an integer. *)
Lemma totalReward_small (v s : Z) :
  1 <= v <= 10 -> 0 <= s < 9 ->
  totalReward (calculateReward v s) = ofZ (2 * v * (s + 11)).
Proof.
  intros Hv Hs.
  assert (v = 1 \/ v = 2 \/ v = 3 \/ v = 4 \/ v = 5 \/ v = 6 \/ v = 7 \/ v = 8 \/
          v = 9 \/ v = 10) as Hv' by lia.
  assert (s = 0 \/ s = 1 \/ s = 2 \/ s = 3 \/ s = 4 \/ s = 5 \/ s = 6 \/ s = 7 \/ s = 8)
    as Hs' by lia.
  repeat destruct Hv' as [->|Hv']; try subst v;
    repeat destruct Hs' as [->|Hs']; try subst s; vm_compute; reflexivity.
Qed.

Lemma totalReward_capped (v s : Z) :
  1 <= v <= 10 -> 9 <= s ->
  totalReward (calculateReward v s) = ofZ (40 * v).
Proof.
  intros Hv Hs. unfold calculateReward. cbn [totalReward].
  change config.game.maxStreakBonus with 2%Z.
  rewrite streakBonus_capped by lia.
  assert (v = 1 \/ v = 2 \/ v = 3 \/ v = 4 \/ v = 5 \/ v = 6 \/ v = 7 \/ v = 8 \/
          v = 9 \/ v = 10) as Hv' by lia.
  repeat destruct Hv' as [->|Hv']; try subst v; vm_compute; reflexivity.
Qed.

Lemma totalReward_clamp (c s : Z) :
  totalReward (calculateReward c s)
  = totalReward (calculateReward (Z.max 1 (Z.min 10 c)) s).
Proof.
  unfold calculateReward. cbn [totalReward].
  replace (Z.max 1 (Z.min 10 (Z.max 1 (Z.min 10 c)))) with (Z.max 1 (Z.min 10 c)) by lia.
  reflexivity.
Qed.

Lemma totalReward_closed (c s : Z) :
  0 <= s ->
  totalReward (calculateReward c s)
  = ofZ (2 * Z.max 1 (Z.min 10 c) * Z.min (s + 11) 20).
Proof.
  intros Hs. rewrite totalReward_clamp.
  destruct (Z.lt_ge_cases s 9) as [Hlt|Hge].
  - rewrite totalReward_small by lia. f_equal. lia.
  - rewrite totalReward_capped by lia. f_equal. lia.
Qed.

(** The doubles of the integers up to 400 are ordered as the integers. *)
Lemma ofZ_le_small (n n' : Z) :
  0 <= n -> n <= n' -> n' <= 400 -> SFleb (ofZ n) (ofZ n') = true.
Proof.
  intros H0 Hle H400.
  assert (Htab : forallb (fun n => forallb (fun n' =>
            implb (n <=? n') (SFleb (ofZ n) (ofZ n'))) (seqZ 0 401)) (seqZ 0 401) = true)
    by (vm_compute; reflexivity).
  rewrite forallb_forall in Htab.
  assert (Hin : forall k, 0 <= k <= 400 -> In k (seqZ 0 401)).
  { intros k Hk. apply list_elem_of_In, elem_of_seqZ. lia. }
  specialize (Htab n (Hin n ltac:(lia))). rewrite forallb_forall in Htab.
  specialize (Htab n' (Hin n' ltac:(lia))).
  apply Z.leb_le in Hle. by rewrite Hle in Htab.
Qed.

(** X1. The reward in closed form. For every confidence and every
    streak that is not negative, the reward is exactly the integer
    2 * clamped confidence * min(streak + 11, 20): the rounding to two
    decimals never changes it. So a reward is a whole number of tokens
    between 22 and 400, and it is 400 exactly when the confidence is at least
    10 and the streak at least 9. *)
Theorem calculateReward_closed_form (confidence currentStreak : Z) :
  0 <= currentStreak ->
  totalReward (calculateReward confidence currentStreak)
  = ofZ (2 * Z.max 1 (Z.min 10 confidence) * Z.min (currentStreak + 11) 20) /\
  22 <= 2 * Z.max 1 (Z.min 10 confidence) * Z.min (currentStreak + 11) 20 <= 400 /\
  (totalReward (calculateReward confidence currentStreak) = ofZ 400 <->
   10 <= confidence /\ 9 <= currentStreak).
Proof.
  intros Hs. split; [by apply totalReward_closed|]. split; [nia|].
  rewrite totalReward_closed by done.
  set (n := 2 * Z.max 1 (Z.min 10 confidence) * Z.min (currentStreak + 11) 20).
  assert (Hn : 22 <= n <= 400) by (unfold n; nia).
  assert (Hinj : ofZ n = ofZ 400 <-> n = 400).
  { split; [|by intros ->]. intros E.
    destruct (Z.eq_dec n 400) as [|Hne]; [done|]. exfalso.
    assert (Htab : forallb (fun k => negb (SFeqb (ofZ k) (ofZ 400))) (seqZ 22 378) = true)
      by (vm_compute; reflexivity).
    rewrite forallb_forall in Htab.
    assert (Hin : In n (seqZ 22 378)) by (apply list_elem_of_In, elem_of_seqZ; lia).
    specialize (Htab n Hin). rewrite E in Htab. by vm_compute in Htab. }
  rewrite Hinj. unfold n. split; [nia|]. intros [Hc Hst].
  rewrite Z.min_l, Z.max_r, Z.min_r by lia. lia.
Qed.

(** X2. The reward is monotone. A higher confidence never lowers the
    reward, and neither does a longer streak. *)
Theorem calculateReward_monotone (confidence confidence' currentStreak currentStreak' : Z) :
  confidence <= confidence' -> 0 <= currentStreak -> currentStreak <= currentStreak' ->
  SFleb (totalReward (calculateReward confidence currentStreak))
        (totalReward (calculateReward confidence' currentStreak')) = true.
Proof.
  intros Hc H0 Hs. rewrite !totalReward_closed by lia.
  apply ofZ_le_small; nia.
Qed.

End reward_facts.

(** * Properties of the store *)

Module db_facts.
Import db db_spec.

Lemma resolvePrediction_agents now id correct txHash d p :
  getPrediction id d = Some p ->
  agents (resolvePrediction now id correct txHash d) =
  alter (if correct then agent_correct now else agent_wrong now) (agent_id p) (agents d).
Proof.
  intros Hp. unfold resolvePrediction, getPrediction in *. cbn.
  rewrite lookup_alter_eq, Hp. cbn. by destruct correct.
Qed.

Lemma resolvePrediction_agents_None now id correct txHash d :
  getPrediction id d = None ->
  agents (resolvePrediction now id correct txHash d) = agents d.
Proof.
  intros Hp. unfold resolvePrediction, getPrediction in *. cbn.
  by rewrite lookup_alter_eq, Hp.
Qed.

Lemma resolvePrediction_predictions now id correct txHash d :
  predictions (resolvePrediction now id correct txHash d) =
  alter (prediction_resolve now (if correct then resolved_correct else resolved_wrong) txHash)
        id (predictions d).
Proof.
  unfold resolvePrediction, getPrediction. cbn.
  rewrite lookup_alter_eq. destruct (predictions d !! id); cbn; by destruct correct.
Qed.

Lemma alter_agent_change (f : Agent -> Agent) k (m : gmap string Agent) id a :
  (forall x, agent_change x (f x)) ->
  m !! id = Some a -> exists a', alter f k m !! id = Some a' /\ agent_change a a'.
Proof.
  intros Hf Ha. destruct (decide (k = id)) as [->|Hne].
  - rewrite lookup_alter_eq, Ha. cbn. eauto.
  - rewrite lookup_alter_ne, Ha by done. eauto using change_none.
Qed.

Lemma getOrCreateAgent_agents fresh now name d :
  agents (getOrCreateAgent fresh now name d).2 = agents d \/
  (agents d !! fresh = None /\
   agents (getOrCreateAgent fresh now name d).2 = <[fresh := newAgent name now]> (agents d)).
Proof.
  unfold getOrCreateAgent. destruct (getAgentByName name d); [by left|].
  destruct (agents d !! fresh) eqn:E; [by left|]. right. by split.
Qed.

(** Every row present before a transition is present after it, changed in
    one of the four ways. *)
Lemma step_agent_change d d' :
  step d d' ->
  forall id a, agents d !! id = Some a ->
  exists a', agents d' !! id = Some a' /\ agent_change a a'.
Proof.
  intros Hs id a Ha. destruct Hs.
  - destruct (getOrCreateAgent_agents fresh now name d) as [->|[Hf ->]].
    + eauto using change_none.
    + rewrite lookup_insert_ne by congruence. eauto using change_none.
  - cbn. apply alter_agent_change; [|done]. intros x. by apply change_wallet.
  - unfold createPrediction. destruct (predictions d !! fresh); cbn; eauto using change_none.
  - destruct (getPrediction id0 d) as [p|] eqn:Hp.
    + rewrite (resolvePrediction_agents _ _ _ _ _ _ Hp).
      apply alter_agent_change; [|done].
      intros x. destruct correct; [apply change_correct | apply change_wrong].
    + rewrite (resolvePrediction_agents_None _ _ _ _ _ Hp). eauto using change_none.
  - unfold createTopic. destruct (topics d !! fresh); cbn; eauto using change_none.
  - cbn. eauto using change_none.
Qed.





(** No transition writes [total_predictions] or [total_ort_earned]. *)
Lemma step_totals_unchanged d d' :
  step d d' ->
  forall id a, agents d !! id = Some a ->
  exists a', agents d' !! id = Some a' /\
    total_predictions a' = total_predictions a /\
    total_ort_earned a' = total_ort_earned a.
Proof.
  intros Hs id a Ha. destruct (step_agent_change _ _ Hs _ _ Ha) as (a' & Ha' & Hc).
  exists a'. split; [done|]. by destruct Hc.
Qed.

End db_facts.

Module resolver_facts.
Import JsNumber db db_spec resolver.

Section Settle.
Variable chain : string -> bool -> option string.

Lemma resolvePrediction_not_pending
    (now : Z) (id : string) (correct useBlockchain : bool) (d : Db) (p : Prediction) :
  getPrediction id d = Some p ->
  status p <> pending ->
  resolvePrediction chain now id correct useBlockchain d
  = (inl (Error ("Prediction already resolved: " ++ id)), d).
Proof.
  intros Hp Hs. unfold resolvePrediction. rewrite Hp.
  by rewrite bool_decide_eq_false_2.
Qed.

(** A settlement that succeeds leaves the forecast settled. *)
Lemma resolvePrediction_settles
    (now : Z) (id : string) (correct useBlockchain : bool) (d d' : Db)
    (r : ResolutionResult) :
  resolvePrediction chain now id correct useBlockchain d = (inr r, d') ->
  exists p', getPrediction id d' = Some p' /\
    status p' = (if correct then resolved_correct else resolved_wrong).
Proof.
  unfold resolvePrediction. destruct (getPrediction id d) as [p|] eqn:Hp; [|done].
  destruct (negb _); [done|].
  assert (Hd : forall tx,
    exists p', getPrediction id (db.resolvePrediction now id correct tx d) = Some p' /\
      status p' = (if correct then resolved_correct else resolved_wrong)).
  { intros tx. unfold getPrediction in *.
    rewrite db_facts.resolvePrediction_predictions, lookup_alter_eq, Hp. cbn. eauto. }
  destruct correct; destruct (getAgent _ d); intros [= <- <-]; apply Hd.
Qed.

(** C4. Settling a forecast whose status is not [pending] throws
    "Prediction already resolved" and leaves the whole store, hence the
    forecast and every counter of its agent, as it was; in particular a
    second settlement of a forecast that has been settled does so. *)
Theorem resolvePrediction_already_resolved
    (now : Z) (id : string) (correct useBlockchain : bool) (d : Db) :
  (forall p, getPrediction id d = Some p -> status p <> pending ->
     resolvePrediction chain now id correct useBlockchain d
     = (inl (Error ("Prediction already resolved: " ++ id)), d)) /\
  (forall r d' now' correct' useBlockchain',
     resolvePrediction chain now id correct useBlockchain d = (inr r, d') ->
     resolvePrediction chain now' id correct' useBlockchain' d'
     = (inl (Error ("Prediction already resolved: " ++ id)), d')).
Proof.
  split.
  - intros p. apply resolvePrediction_not_pending.
  - intros r d' now' correct' useBlockchain' H.
    apply resolvePrediction_settles in H as (p' & Hp' & Hs').
    apply (resolvePrediction_not_pending _ _ _ _ _ p'); [done|].
    rewrite Hs'. by destruct correct.
Qed.





End Settle.



Lemma resolvePrediction_already_resolved_witness :
  (status <$> getPrediction "p1" samples.d1) = Some resolved_correct /\
  resolvePrediction samples.noChain 3 "p1" false true samples.d1
  = (inl (Error "Prediction already resolved: p1"), samples.d1).
Proof.
  split; [by vm_compute|].
  eapply (proj1 (resolvePrediction_already_resolved samples.noChain 3 "p1" false true
                   samples.d1)).
  - vm_compute. reflexivity.
  - vm_compute. discriminate.
Defined.


(** C1 (evaluation). Settling the pending forecast of [samples.d0] as
    correct succeeds with a reward of 198 and raises the agent's correct
    count to 1, yet the agent's [total_predictions] is still 0 and its
    [total_ort_earned] is still 0; settling it as incorrect succeeds and
    leaves [total_predictions] at 0 too. *)
Theorem resolvePrediction_totals_not_updated :
  (exists r d' a',
     resolvePrediction samples.noChain 2 "p1" true true samples.d0 = (inr r, d') /\
     reward r = ofZ 198 /\
     getAgent "a1" d' = Some a' /\
     correct_predictions a' = 1 /\
     total_predictions a' = 0 /\
     total_ort_earned a' = ofZ 0) /\
  (exists r d' a',
     resolvePrediction samples.noChain 2 "p1" false true samples.d0 = (inr r, d') /\
     getAgent "a1" d' = Some a' /\
     total_predictions a' = 0).
Proof.
  split.
  - eexists _, _, _. split; [vm_compute; reflexivity|].
    split; [vm_compute; reflexivity|]. split; [vm_compute; reflexivity|].
    by vm_compute.
  - eexists _, _, _. split; [vm_compute; reflexivity|].
    split; [vm_compute; reflexivity|]. by vm_compute.
Qed.

End resolver_facts.

(** * Further properties of the store *)

Module store_facts.
Import JsNumber db db_spec.

(** ** The shape of a transition, table by table *)

Lemma step_agents d d' :
  step d d' ->
  (exists fresh name now,
      agents d !! fresh = None /\ getAgentByName name d = None /\
      agents d' = <[fresh := newAgent name now]> (agents d)) \/
  (exists f k, agents d' = alter f k (agents d) /\ forall a, row_change a (f a)).
Proof.
  assert (Hid : forall m : gmap string Agent, m = alter (fun a => a) "" m).
  { intros m. symmetry. by apply alter_id. }
  destruct 1.
  - unfold getOrCreateAgent. destruct (getAgentByName name d) eqn:En.
    + right. exists (fun a => a), "". split; [apply Hid|]. apply row_same.
    + destruct (agents d !! fresh) eqn:Ef.
      * right. exists (fun a => a), "". split; [apply Hid|]. apply row_same.
      * left. by exists fresh, name, now.
  - right. eexists _, agentId0. split; [reflexivity|]. intros a. apply row_wallet.
  - right. exists (fun a => a), "". split; [|apply row_same].
    unfold createPrediction. destruct (predictions d !! fresh); apply Hid.
  - right. destruct (getPrediction id d) as [p|] eqn:Hp.
    + rewrite (db_facts.resolvePrediction_agents _ _ _ _ _ _ Hp).
      eexists _, _. split; [reflexivity|].
      intros a. destruct correct; [apply row_correct | apply row_wrong].
    + rewrite (db_facts.resolvePrediction_agents_None _ _ _ _ _ Hp).
      exists (fun a => a), "". split; [apply Hid|]. apply row_same.
  - right. exists (fun a => a), "". split; [|apply row_same].
    unfold createTopic. destruct (topics d !! fresh); apply Hid.
  - right. exists (fun a => a), "". split; [apply Hid|]. apply row_same.
Qed.

Lemma step_predictions d d' :
  step d d' ->
  (exists fresh data now,
      predictions d !! fresh = None /\
      predictions d' = <[fresh := newPrediction data now]> (predictions d)) \/
  (exists now st tx id,
      st <> pending /\
      predictions d' = alter (prediction_resolve now st tx) id (predictions d)) \/
  predictions d' = predictions d.
Proof.
  destruct 1.
  - right. right. unfold getOrCreateAgent.
    destruct (getAgentByName name d); [done|]. by destruct (agents d !! fresh).
  - by right; right.
  - unfold createPrediction. destruct (predictions d !! fresh) eqn:E.
    + by right; right.
    + left. by exists fresh, data, now.
  - right. left. rewrite db_facts.resolvePrediction_predictions.
    eexists now, _, txHash, id. split; [|reflexivity]. by destruct correct.
  - right. right. unfold createTopic. by destruct (topics d !! fresh).
  - by right; right.
Qed.

Lemma step_topics d d' :
  step d d' ->
  (exists fresh data now,
      topics d !! fresh = None /\ topics d' = <[fresh := newTopic data now]> (topics d)) \/
  (exists now id outcome, topics d' = topics (resolveTopic now id outcome d)) \/
  topics d' = topics d.
Proof.
  destruct 1.
  - right. right. unfold getOrCreateAgent.
    destruct (getAgentByName name d); [done|]. by destruct (agents d !! fresh).
  - by right; right.
  - right. right. unfold createPrediction. by destruct (predictions d !! fresh).
  - right. right. unfold resolvePrediction. cbn.
    destruct (getPrediction _ _); [by destruct correct|done].
  - unfold createTopic. destruct (topics d !! fresh) eqn:E.
    + by right; right.
    + left. by exists fresh, data, now.
  - right. left. by exists now, id, outcome.
Qed.

(** ** Lookup by name *)

Lemma getAgentByName_Some name d id a :
  getAgentByName name d = Some (id, a) ->
  agents d !! id = Some a /\ moltbook_name a = name.
Proof.
  unfold getAgentByName. intros H%head_Some_elem_of.
  apply list_elem_of_filter in H as [Hn H]. by apply elem_of_map_to_list in H.
Qed.

Lemma getAgentByName_None name d id a :
  getAgentByName name d = None -> agents d !! id = Some a -> moltbook_name a <> name.
Proof.
  unfold getAgentByName. intros H Ha Hn.
  destruct (filter _ _) as [|x l] eqn:E; [|done].
  apply (filter_nil_not_elem_of _ _ (id, a)) in E; [|done].
  apply E. by apply elem_of_map_to_list.
Qed.

Lemma getAgentByName_unique d id a :
  names_unique d -> agents d !! id = Some a ->
  getAgentByName (moltbook_name a) d = Some (id, a).
Proof.
  intros Hu Ha. destruct (getAgentByName (moltbook_name a) d) as [[j b]|] eqn:E.
  - apply getAgentByName_Some in E as [Hb Hn].
    assert (j = id) as -> by (by apply (Hu j id b a)). congruence.
  - by destruct (getAgentByName_None _ _ _ _ E Ha).
Qed.

Lemma getAgentByName_insert name now fresh d :
  getAgentByName name d = None -> agents d !! fresh = None ->
  getAgentByName name (set_agents (insert fresh (newAgent name now)) d)
  = Some (fresh, newAgent name now).
Proof.
  unfold getAgentByName. intros Hn Hf. cbn [agents set_agents].
  destruct (filter _ (map_to_list (agents d))) as [|x l] eqn:E; [|done].
  pose proof (map_to_list_insert (agents d) fresh (newAgent name now) Hf) as Hp.
  apply (filter_Permutation (fun r : string * Agent => moltbook_name r.2 = name)) in Hp.
  rewrite filter_cons_True, E in Hp by done.
  apply Permutation_singleton_r in Hp. by rewrite Hp.
Qed.

Lemma row_change_name a a' : row_change a a' -> moltbook_name a' = moltbook_name a.
Proof. by destruct 1. Qed.

Lemma names_unique_step d d' : step d d' -> names_unique d -> names_unique d'.
Proof.
  intros Hs Hu i j a' b' Ha Hb Hn.
  destruct (step_agents d d' Hs) as [(fresh & name & now & Hf & Hno & E)|(f & k & E & Hf)];
    rewrite E in Ha, Hb.
  - destruct (decide (fresh = i)) as [Hi|Hi], (decide (fresh = j)) as [Hj|Hj].
    + congruence.
    + subst i. rewrite lookup_insert_eq in Ha. rewrite lookup_insert_ne in Hb by done.
      injection Ha as <-. destruct (getAgentByName_None _ _ _ _ Hno Hb). by rewrite <- Hn.
    + subst j. rewrite lookup_insert_eq in Hb. rewrite lookup_insert_ne in Ha by done.
      injection Hb as <-. by destruct (getAgentByName_None _ _ _ _ Hno Ha).
    + rewrite lookup_insert_ne in Ha, Hb by done. by apply (Hu i j a' b').
  - assert (Hold : forall x y, alter f k (agents d) !! x = Some y ->
              exists y0, agents d !! x = Some y0 /\ moltbook_name y = moltbook_name y0).
    { intros x y. destruct (decide (k = x)) as [->|Hne].
      - rewrite lookup_alter_eq. destruct (agents d !! x) as [y0|]; [|done].
        intros [= <-]. exists y0. split; [done|]. apply row_change_name, Hf.
      - rewrite lookup_alter_ne by done. eauto. }
    apply Hold in Ha as (a & Ha & Ea). apply Hold in Hb as (b & Hb & Eb).
    apply (Hu i j a b); congruence.
Qed.

Lemma names_unique_reachable d : reachable d -> names_unique d.
Proof.
  induction 1 as [|d d' _ IH Hs].
  - intros i j a b Ha. cbn in Ha. by rewrite lookup_empty in Ha.
  - by apply (names_unique_step d d').
Qed.

(** X3. The name of an agent is a key. In every reachable state no two
    agent rows carry the same name, and the lookup by name returns a row
    exactly when that row is in the table under that name. *)
Theorem agent_name_is_key (d : Db) :
  reachable d ->
  names_unique d /\
  forall name id a,
    getAgentByName name d = Some (id, a) <->
    agents d !! id = Some a /\ moltbook_name a = name.
Proof.
  intros Hr. pose proof (names_unique_reachable d Hr) as Hu. split; [done|].
  intros name id a. split; [apply getAgentByName_Some|].
  intros [Ha <-]. by apply getAgentByName_unique.
Qed.

Lemma getOrCreateAgent_cases
    (fresh : string) (now : Z) (name : string) (d : Db) :
  (forall r d1,
     getOrCreateAgent fresh now name d = (Some r, d1) ->
     moltbook_name r.2 = name /\ agents d1 !! r.1 = Some r.2 /\
     (forall id a, agents d !! id = Some a -> agents d1 !! id = Some a) /\
     predictions d1 = predictions d /\ topics d1 = topics d /\
     forall fresh' now', getOrCreateAgent fresh' now' name d1 = (Some r, d1)) /\
  (forall d1,
     getOrCreateAgent fresh now name d = (None, d1) ->
     d1 = d /\ getAgentByName name d = None /\ is_Some (agents d !! fresh)).
Proof.
  unfold getOrCreateAgent at 1 3.
  destruct (getAgentByName name d) as [[id a]|] eqn:En.
  - split; [|done]. intros r d1 [= <- <-]. cbn [fst snd].
    apply getAgentByName_Some in En as Hr. destruct Hr as [Ha Hn].
    repeat split; try done.
    intros fresh' now'. unfold getOrCreateAgent. by rewrite En.
  - destruct (agents d !! fresh) eqn:Ef.
    + split; [done|]. intros d1 [= <-]. by repeat split.
    + split; [|cbn [agents set_agents]; by rewrite lookup_insert_eq].
      cbn [agents set_agents]. rewrite lookup_insert_eq. cbn [option_map].
      intros r d1 [= <- <-]. cbn [fst snd agents set_agents].
      rewrite lookup_insert_eq. repeat split; try done.
      * intros id a Ha. rewrite lookup_insert_ne; [done|]. congruence.
      * intros fresh' now'. unfold getOrCreateAgent.
        by rewrite (getAgentByName_insert name now fresh d En Ef).
Qed.

(** X4. [getOrCreateAgent] is idempotent. When it returns a row, the row
    carries the requested name and is in the table; every row that was in
    the table is still there, unchanged; and a second call for the same name,
    whatever identifier it draws and whenever it is made, returns the same
    row and leaves the store as it is. It returns nothing only when the
    name is new and the identifier drawn is taken, and the store is then
    unchanged. *)
Theorem getOrCreateAgent_idempotent
    (fresh : string) (now : Z) (name : string) (d : Db) :
  (forall r d1,
     getOrCreateAgent fresh now name d = (Some r, d1) ->
     moltbook_name r.2 = name /\ agents d1 !! r.1 = Some r.2 /\
     (forall id a, agents d !! id = Some a -> agents d1 !! id = Some a) /\
     predictions d1 = predictions d /\ topics d1 = topics d /\
     forall fresh' now', getOrCreateAgent fresh' now' name d1 = (Some r, d1)) /\
  (forall d1,
     getOrCreateAgent fresh now name d = (None, d1) ->
     d1 = d /\ getAgentByName name d = None /\ is_Some (agents d !! fresh)).
Proof. apply getOrCreateAgent_cases. Qed.

(** ** Invariants, row by row *)

Lemma resolveTopic_topics now id outcome d :
  topics (resolveTopic now id outcome d) = alter (topic_resolve now outcome) id (topics d).
Proof. reflexivity. Qed.

Lemma agents_inv_step (P : Agent -> Prop) d d' :
  (forall name now, P (newAgent name now)) ->
  (forall a a', row_change a a' -> P a -> P a') ->
  step d d' ->
  (forall id a, agents d !! id = Some a -> P a) ->
  forall id a, agents d' !! id = Some a -> P a.
Proof.
  intros Hnew Hch Hs Hi id a' Ha.
  destruct (step_agents d d' Hs) as [(fresh & name & now & Hf & Hno & E)|(f & k & E & Hf)];
    rewrite E in Ha.
  - destruct (decide (fresh = id)) as [->|Hne].
    + rewrite lookup_insert_eq in Ha. injection Ha as <-. apply Hnew.
    + rewrite lookup_insert_ne in Ha by done. by apply (Hi id).
  - destruct (decide (k = id)) as [->|Hne].
    + rewrite lookup_alter_eq in Ha. destruct (agents d !! id) as [a|] eqn:Ea; [|done].
      injection Ha as <-. apply (Hch a); [apply Hf|]. by apply (Hi id).
    + rewrite lookup_alter_ne in Ha by done. by apply (Hi id).
Qed.

Lemma agents_inv_reachable (P : Agent -> Prop) d :
  (forall name now, P (newAgent name now)) ->
  (forall a a', row_change a a' -> P a -> P a') ->
  reachable d -> forall id a, agents d !! id = Some a -> P a.
Proof.
  intros Hnew Hch. induction 1 as [|d d' _ IH Hs].
  - intros id a Ha. cbn in Ha. by rewrite lookup_empty in Ha.
  - by apply (agents_inv_step P d d').
Qed.

Lemma predictions_inv_reachable (P : Prediction -> Prop) d :
  (forall data now, P (newPrediction data now)) ->
  (forall now st tx p, st <> pending -> P p -> P (prediction_resolve now st tx p)) ->
  reachable d -> forall id p, predictions d !! id = Some p -> P p.
Proof.
  intros Hnew Hch. induction 1 as [|d d' _ IH Hs].
  - intros id a Ha. cbn in Ha. by rewrite lookup_empty in Ha.
  - intros id p' Hp.
    destruct (step_predictions d d' Hs)
      as [(fresh & data & now & Hf & E)|[(now & st & tx & k & Hst & E)|E]];
      rewrite E in Hp.
    + destruct (decide (fresh = id)) as [->|Hne].
      * rewrite lookup_insert_eq in Hp. injection Hp as <-. apply Hnew.
      * rewrite lookup_insert_ne in Hp by done. by apply (IH id).
    + destruct (decide (k = id)) as [->|Hne].
      * rewrite lookup_alter_eq in Hp. destruct (predictions d !! id) as [p|] eqn:Ep; [|done].
        injection Hp as <-. apply Hch; [done|]. by apply (IH id).
      * rewrite lookup_alter_ne in Hp by done. by apply (IH id).
    + by apply (IH id).
Qed.

Lemma topics_inv_reachable (P : Topic -> Prop) d :
  (forall data now, P (newTopic data now)) ->
  (forall now outcome t, P t -> P (topic_resolve now outcome t)) ->
  reachable d -> forall id t, topics d !! id = Some t -> P t.
Proof.
  intros Hnew Hch. induction 1 as [|d d' _ IH Hs].
  - intros id a Ha. cbn in Ha. by rewrite lookup_empty in Ha.
  - intros id t' Ht.
    destruct (step_topics d d' Hs)
      as [(fresh & data & now & Hf & E)|[(now & k & outcome & E)|E]];
      rewrite E in Ht.
    + destruct (decide (fresh = id)) as [->|Hne].
      * rewrite lookup_insert_eq in Ht. injection Ht as <-. apply Hnew.
      * rewrite lookup_insert_ne in Ht by done. by apply (IH id).
    + rewrite resolveTopic_topics in Ht. destruct (decide (k = id)) as [->|Hne].
      * rewrite lookup_alter_eq in Ht. destruct (topics d !! id) as [t|] eqn:Et; [|done].
        injection Ht as <-. apply Hch. by apply (IH id).
      * rewrite lookup_alter_ne in Ht by done. by apply (IH id).
    + by apply (IH id).
Qed.

Lemma agent_counters_reachable d :
  reachable d ->
  forall id a, agents d !! id = Some a ->
    0 <= current_streak a <= best_streak a /\ best_streak a <= correct_predictions a /\
    total_predictions a = 0 /\ total_ort_earned a = S754_zero false.
Proof.
  apply (agents_inv_reachable (fun a =>
    0 <= current_streak a <= best_streak a /\ best_streak a <= correct_predictions a /\
    total_predictions a = 0 /\ total_ort_earned a = S754_zero false)).
  - intros name now. cbn. by repeat split.
  - intros a a' Hc (H1 & H2 & H3 & H4). destruct Hc; cbn; repeat split; try done; lia.
Qed.

Lemma prediction_lifecycle_reachable d :
  reachable d ->
  forall id p, predictions d !! id = Some p ->
    (status p = pending <-> resolved_at p = None) /\ on_chain_id p = None.
Proof.
  apply (predictions_inv_reachable (fun p =>
    (status p = pending <-> resolved_at p = None) /\ on_chain_id p = None)).
  - intros data now. by cbn.
  - intros now st tx p Hst [_ H]. cbn. by split.
Qed.

(** X5. Counters of an agent. In every reachable state, for every agent,
    the current streak is not negative, the best streak is at most the
    number of correct forecasts, and the number of forecasts made and the
    tokens earned are still 0: no statement writes them. *)
Theorem agent_counters (d : Db) (id : string) (a : Agent) :
  reachable d -> agents d !! id = Some a ->
  0 <= current_streak a /\ best_streak a <= correct_predictions a /\
  total_predictions a = 0 /\ total_ort_earned a = ofZ 0.
Proof.
  intros Hr Ha.
  destruct (agent_counters_reachable d Hr id a Ha) as ([H0 _] & H1 & H2 & H3).
  by repeat split.
Qed.

(** X6. The life cycle of the rows. In every reachable state a forecast
    is pending exactly when it has no settlement time, and no forecast has
    an identifier on the ledger; a topic is resolved exactly when it has an
    actual outcome, and exactly when it has a resolution time. *)
Theorem lifecycle_invariant (d : Db) :
  reachable d ->
  (forall id p, predictions d !! id = Some p ->
     (status p = pending <-> resolved_at p = None) /\ on_chain_id p = None) /\
  (forall id t, topics d !! id = Some t ->
     (resolved t = true <-> is_Some (actual_outcome t)) /\
     (resolved t = true <-> is_Some (topic_resolved_at t))).
Proof.
  intros Hr. split; [by apply prediction_lifecycle_reachable|].
  apply (topics_inv_reachable (fun t =>
    (resolved t = true <-> is_Some (actual_outcome t)) /\
    (resolved t = true <-> is_Some (topic_resolved_at t)))); [| |done].
  - intros data now. cbn. split; split; try done; by intros [? ?].
  - intros now outcome t _. cbn. split; split; eauto.
Qed.

(** ** What a transition keeps *)

Lemma same_forecast_refl p : same_forecast p p.
Proof. by repeat split. Qed.

Lemma same_forecast_trans p q r : same_forecast p q -> same_forecast q r -> same_forecast p r.
Proof. unfold same_forecast. intuition congruence. Qed.

Lemma same_topic_refl t : same_topic t t.
Proof. by repeat split. Qed.

Lemma same_topic_trans p q r : same_topic p q -> same_topic q r -> same_topic p r.
Proof. unfold same_topic. intuition congruence. Qed.

Lemma step_prediction_kept d d' id p :
  step d d' -> predictions d !! id = Some p ->
  exists p', predictions d' !! id = Some p' /\ same_forecast p p' /\
    (status p <> pending -> status p' <> pending).
Proof.
  intros Hs Hp.
  destruct (step_predictions d d' Hs)
    as [(fresh & data & now & Hf & E)|[(now & st & tx & k & Hst & E)|E]]; rewrite E.
  - exists p. rewrite lookup_insert_ne by congruence. eauto using same_forecast_refl.
  - destruct (decide (k = id)) as [->|Hne].
    + rewrite lookup_alter_eq, Hp. eexists. split; [reflexivity|]. by repeat split.
    + rewrite lookup_alter_ne by done. eauto using same_forecast_refl.
  - eauto using same_forecast_refl.
Qed.

Lemma step_topic_kept d d' id t :
  step d d' -> topics d !! id = Some t ->
  exists t', topics d' !! id = Some t' /\ same_topic t t' /\
    (resolved t = true -> resolved t' = true).
Proof.
  intros Hs Ht.
  destruct (step_topics d d' Hs)
    as [(fresh & data & now & Hf & E)|[(now & k & outcome & E)|E]]; rewrite E.
  - exists t. rewrite lookup_insert_ne by congruence. eauto using same_topic_refl.
  - rewrite resolveTopic_topics. destruct (decide (k = id)) as [->|Hne].
    + rewrite lookup_alter_eq, Ht. eexists. split; [reflexivity|]. by repeat split.
    + rewrite lookup_alter_ne by done. eauto using same_topic_refl.
  - eauto using same_topic_refl.
Qed.

Lemma step_agent_kept d d' id a :
  step d d' -> agents d !! id = Some a ->
  exists a', agents d' !! id = Some a' /\ moltbook_name a' = moltbook_name a /\
    agent_created_at a' = agent_created_at a /\
    correct_predictions a <= correct_predictions a'.
Proof.
  intros Hs Ha.
  destruct (step_agents d d' Hs) as [(fresh & name & now & Hf & Hno & E)|(f & k & E & Hf)];
    rewrite E.
  - exists a. rewrite lookup_insert_ne by congruence. repeat split; [done|lia].
  - destruct (decide (k = id)) as [->|Hne].
    + rewrite lookup_alter_eq, Ha. eexists. split; [reflexivity|].
      destruct (Hf a); cbn; repeat split; lia.
    + rewrite lookup_alter_ne by done. exists a. repeat split; [done|lia].
Qed.

Lemma rtc_prediction_kept d d' id p :
  rtc step d d' -> predictions d !! id = Some p ->
  exists p', predictions d' !! id = Some p' /\ same_forecast p p' /\
    (status p <> pending -> status p' <> pending).
Proof.
  intros H. revert p. induction H as [d|d d1 d2 Hs _ IH]; intros p Hp.
  - exists p. eauto using same_forecast_refl.
  - destruct (step_prediction_kept _ _ _ _ Hs Hp) as (p1 & Hp1 & Hs1 & Hst1).
    destruct (IH p1 Hp1) as (p2 & Hp2 & Hs2 & Hst2).
    exists p2. split; [done|]. split; [by apply (same_forecast_trans p p1 p2)|]. auto.
Qed.

Lemma rtc_topic_kept d d' id t :
  rtc step d d' -> topics d !! id = Some t ->
  exists t', topics d' !! id = Some t' /\ same_topic t t' /\
    (resolved t = true -> resolved t' = true).
Proof.
  intros H. revert t. induction H as [d|d d1 d2 Hs _ IH]; intros t Ht.
  - exists t. eauto using same_topic_refl.
  - destruct (step_topic_kept _ _ _ _ Hs Ht) as (t1 & Ht1 & Hs1 & Hr1).
    destruct (IH t1 Ht1) as (t2 & Ht2 & Hs2 & Hr2).
    exists t2. split; [done|]. split; [by apply (same_topic_trans t t1 t2)|]. auto.
Qed.

Lemma rtc_agent_kept d d' id a :
  rtc step d d' -> agents d !! id = Some a ->
  exists a', agents d' !! id = Some a' /\ moltbook_name a' = moltbook_name a /\
    agent_created_at a' = agent_created_at a /\
    correct_predictions a <= correct_predictions a'.
Proof.
  intros H. revert a. induction H as [d|d d1 d2 Hs _ IH]; intros a Ha.
  - exists a. repeat split; [done|lia].
  - destruct (step_agent_kept _ _ _ _ Hs Ha) as (a1 & Ha1 & Hn1 & Hc1 & Hle1).
    destruct (IH a1 Ha1) as (a2 & Ha2 & Hn2 & Hc2 & Hle2).
    exists a2. repeat split; [done|congruence|congruence|lia].
Qed.

(** X7. What no sequence of statements undoes. Along every sequence of
    transitions of the store: a forecast stays in the table with its agent,
    topic, post, comment, text, outcome fragment, deadline, confidence,
    category and creation time, and once it is not pending it is never
    pending again; a topic stays in the table with its post, title,
    description, category, deadline, source and creation time, and once
    resolved it stays resolved; an agent stays in the table with its name
    and creation time, and its count of correct forecasts never decreases. *)
Theorem rows_are_kept (d d' : Db) :
  rtc step d d' ->
  (forall id p, predictions d !! id = Some p ->
     exists p', predictions d' !! id = Some p' /\ same_forecast p p' /\
       (status p <> pending -> status p' <> pending)) /\
  (forall id t, topics d !! id = Some t ->
     exists t', topics d' !! id = Some t' /\ same_topic t t' /\
       (resolved t = true -> resolved t' = true)) /\
  (forall id a, agents d !! id = Some a ->
     exists a', agents d' !! id = Some a' /\ moltbook_name a' = moltbook_name a /\
       agent_created_at a' = agent_created_at a /\
       correct_predictions a <= correct_predictions a').
Proof.
  intros H. split; [|split].
  - intros id p. by apply rtc_prediction_kept.
  - intros id t. by apply rtc_topic_kept.
  - intros id a. by apply rtc_agent_kept.
Qed.

(** ** The queries *)



Lemma getPendingPredictions_elem d id p :
  (id, p) ∈ getPendingPredictions d <->
  predictions d !! id = Some p /\ status p = pending /\ is_Some (agents d !! agent_id p).
Proof.
  unfold getPendingPredictions. rewrite merge_sort_Permutation, list_elem_of_filter.
  rewrite elem_of_map_to_list. cbn. tauto.
Qed.

Lemma getPendingPredictions_NoDup d : NoDup (getPendingPredictions d).*1.
Proof.
  unfold getPendingPredictions. rewrite merge_sort_Permutation.
  eapply NoDup_fmap_fst.
  - intros k x y Hx%list_elem_of_filter Hy%list_elem_of_filter.
    destruct Hx as [_ Hx], Hy as [_ Hy].
    apply elem_of_map_to_list in Hx, Hy. congruence.
  - apply NoDup_filter, NoDup_map_to_list.
Qed.


End store_facts.
(** * Properties of the periodic tasks *)

Module index_facts.
Import JsNumber db db_spec.

Lemma filter_none {A} (P : A -> Prop) `{!forall x, Decision (P x)} (l : list A) :
  (forall x, x ∈ l -> ~ P x) -> filter P l = [].
Proof.
  induction l as [|x l IH]; intros Hl; [done|].
  rewrite filter_cons_False by (apply Hl; left).
  apply IH. intros y Hy. apply Hl. by right.
Qed.

Lemma getLeaderboard_reachable (ROUND1 : number -> number) (limit : Z) (d : Db) :
  reachable d -> getLeaderboard ROUND1 limit d = [].
Proof.
  intros Hr. unfold getLeaderboard.
  rewrite (filter_none (fun a : Agent => 0 < total_predictions a)).
  - cbn. destruct (limit <? 0); [done|]. by destruct (Z.to_nat limit).
  - intros a Ha. apply list_elem_of_fmap in Ha as ([id a'] & -> & Ha).
    apply elem_of_map_to_list in Ha.
    destruct (store_facts.agent_counters_reachable d Hr id a' Ha) as (_ & _ & H & _).
    cbn. lia.
Qed.

(** X9. The leaderboard is always empty. In every reachable state of the
    store the leaderboard query returns no row, whatever the limit, because
    it selects the agents with [total_predictions > 0] and no statement
    writes that column; so the weekly post always carries the text for an
    empty leaderboard, however many forecasts have been settled. *)
Theorem leaderboard_always_empty
    (ROUND1 : number -> number) (Number_toString Number_toLocaleString : number -> string)
    (Date_now_toLocaleString : string) (d : Db) :
  reachable d ->
  (forall limit, getLeaderboard ROUND1 limit d = []) /\
  index.post_content
    (index.postLeaderboard ROUND1 Number_toString Number_toLocaleString
       Date_now_toLocaleString d)
  = ("🔮 **Oracle Challenge Leaderboard**" ++ scorer.lf ++ scorer.lf
       ++ "*No predictions yet! Be the first to participate.*")%string.
Proof.
  intros Hr. split; [intros limit; by apply getLeaderboard_reachable|].
  unfold index.postLeaderboard. cbn [index.post_content].
  by rewrite getLeaderboard_reachable.
Qed.

End index_facts.

(** * Further properties of settlement *)

Module settle_facts.
Import JsNumber db db_spec resolver store_facts.

Section Settle.
Variable chain : string -> bool -> option string.

(** The settlement of a pending forecast whose agent row exists. *)
Lemma resolvePrediction_ok now id correct useBlockchain d p a :
  getPrediction id d = Some p -> status p = pending ->
  getAgent (agent_id p) d = Some a ->
  exists r tx,
    resolvePrediction chain now id correct useBlockchain d
    = (inr r, db.resolvePrediction now id correct tx d) /\
    predictionId r = id /\ agentName r = moltbook_name a /\
    resolver.correct r = correct /\ txHash r = tx /\
    reward r = (if correct
                then scorer.totalReward (scorer.calculateReward (confidence p) (current_streak a))
                else ofZ 0).
Proof.
  intros Hp Hs Ha. unfold resolvePrediction. rewrite Hp, Ha.
  rewrite bool_decide_eq_true_2 by done. cbn [negb].
  destruct correct; eexists _, _; (split; [reflexivity|]); by cbn.
Qed.

Lemma resolvePrediction_db_topics now id correct tx d :
  topics (db.resolvePrediction now id correct tx d) = topics d.
Proof.
  unfold db.resolvePrediction. cbn.
  destruct (getPrediction _ _); [by destruct correct|done].
Qed.

Lemma resolvePrediction_db_agents_dom now id correct tx d k :
  is_Some (agents (db.resolvePrediction now id correct tx d) !! k) <-> is_Some (agents d !! k).
Proof.
  destruct (getPrediction id d) as [p|] eqn:Hp.
  - rewrite (db_facts.resolvePrediction_agents _ _ _ _ _ _ Hp).
    destruct (decide (agent_id p = k)) as [->|Hne].
    + rewrite lookup_alter_eq. by rewrite fmap_is_Some.
    + by rewrite lookup_alter_ne.
  - by rewrite (db_facts.resolvePrediction_agents_None _ _ _ _ _ Hp).
Qed.

Lemma resolveAll_spec now outcome terms ps d :
  NoDup ps.*1 ->
  (forall id p, (id, p) ∈ ps ->
     predictions d !! id = Some p /\ status p = pending /\
     is_Some (agents d !! agent_id p)) ->
  exists results d',
    resolveAll chain now ps outcome terms d = (results, d') /\
    Forall2 (fun x r => predictionId r = x.1 /\
                        resolver.correct r = isCorrect (forecastFragment x.2) outcome terms)
            ps results /\
    topics d' = topics d /\
    (forall id, id ∉ ps.*1 -> predictions d' !! id = predictions d !! id) /\
    (forall id p, (id, p) ∈ ps ->
       exists p', predictions d' !! id = Some p' /\ status p' <> pending /\
         same_forecast p p') /\
    (forall k, is_Some (agents d' !! k) <-> is_Some (agents d !! k)).
Proof.
  revert d. induction ps as [|[id p] ps IH]; intros d Hnd Hps.
  - exists [], d. split; [done|]. split; [constructor|].
    split; [done|]. split; [done|]. split; [|done].
    intros id p Hin. by apply elem_of_nil in Hin.
  - cbn [fmap list_fmap fst] in Hnd. apply NoDup_cons in Hnd as [Hid Hnd].
    destruct (Hps id p) as (Hp & Hst & [a Ha]); [by left|].
    destruct (resolvePrediction_ok now id
                (isCorrect (forecastFragment p) outcome terms) true d p a Hp Hst Ha)
      as (r & tx & Hr & Hrid & _ & Hrc & _).
    set (c := isCorrect (forecastFragment p) outcome terms) in *.
    set (d1 := db.resolvePrediction now id c tx d) in *.
    assert (Hp1 : predictions d1 = alter (prediction_resolve now
                    (if c then resolved_correct else resolved_wrong) tx) id (predictions d))
      by apply db_facts.resolvePrediction_predictions.
    destruct (IH d1 Hnd) as (results & d2 & Hall & HF & Ht & Hout & Hin & Hdom).
    { intros id' p' Hin'.
      assert (id' <> id).
      { intros ->. apply Hid. apply list_elem_of_fmap. by exists (id, p'). }
      destruct (Hps id' p') as (Hp' & Hst' & Ha'); [by right|].
      rewrite Hp1, lookup_alter_ne by done. split; [done|]. split; [done|].
      by apply resolvePrediction_db_agents_dom. }
    exists (r :: results), d2. split; [|split; [|split; [|split; [|split]]]].
    + cbn [resolveAll]. fold c. rewrite Hr. fold d1. by rewrite Hall.
    + constructor; [by split|done].
    + rewrite Ht. apply resolvePrediction_db_topics.
    + intros k Hk. cbn [fmap list_fmap fst] in Hk. apply not_elem_of_cons in Hk as [Hk1 Hk2].
      rewrite (Hout k Hk2), Hp1. by rewrite lookup_alter_ne.
    + intros id' p' Hin'. apply elem_of_cons in Hin' as [[= -> ->]|Hin'].
      * rewrite (Hout id Hid), Hp1, lookup_alter_eq, Hp. eexists. split; [reflexivity|].
        split; [by destruct c|by repeat split].
      * by apply Hin.
    + intros k. rewrite Hdom. apply resolvePrediction_db_agents_dom.
Qed.

(** The pending forecasts of a topic, as [resolveTopic] selects them. *)
Lemma topic_forecasts_elem topicId d id p :
  (id, p) ∈ filter (fun p => topic_id p.2 = Some topicId) (getPendingPredictions d) <->
  predictions d !! id = Some p /\ status p = pending /\
  is_Some (agents d !! agent_id p) /\ topic_id p = Some topicId.
Proof. rewrite list_elem_of_filter, getPendingPredictions_elem. cbn. tauto. Qed.

Lemma topic_forecasts_NoDup topicId d :
  NoDup (filter (fun p => topic_id p.2 = Some topicId) (getPendingPredictions d)).*1.
Proof.
  apply NoDup_fmap_fst.
  - intros id p1 p2 H1%topic_forecasts_elem H2%topic_forecasts_elem.
    destruct H1 as [H1 _], H2 as [H2 _]. congruence.
  - apply NoDup_filter. eapply NoDup_fmap_1, getPendingPredictions_NoDup.
Qed.

(** What [resolveTopic] does on a topic that is not resolved. *)
Lemma resolveTopic_ok now topicId outcome terms d topic :
  getTopic topicId d = Some topic -> resolved topic = false ->
  exists results d',
    resolveTopic chain now topicId outcome terms d = (inr results, d') /\
    Forall2 (fun x r => predictionId r = x.1 /\
                        resolver.correct r = isCorrect (forecastFragment x.2) outcome terms)
            (filter (fun p => topic_id p.2 = Some topicId) (getPendingPredictions d))
            results /\
    topics d' = alter (topic_resolve now outcome) topicId (topics d) /\
    (forall id,
       id ∉ (filter (fun p => topic_id p.2 = Some topicId) (getPendingPredictions d)).*1 ->
       predictions d' !! id = predictions d !! id) /\
    (forall id p,
       (id, p) ∈ filter (fun p => topic_id p.2 = Some topicId) (getPendingPredictions d) ->
       exists p', predictions d' !! id = Some p' /\ status p' <> pending /\
         same_forecast p p') /\
    (forall k, is_Some (agents d' !! k) <-> is_Some (agents d !! k)).
Proof.
  intros Ht Hr. unfold resolveTopic. rewrite Ht, Hr.
  set (d1 := db.resolveTopic now topicId outcome d).
  change (getPendingPredictions d1) with (getPendingPredictions d).
  destruct (resolveAll_spec now outcome terms
              (filter (fun p => topic_id p.2 = Some topicId) (getPendingPredictions d)) d1)
    as (results & d' & Hall & HF & Htop & Hout & Hin & Hdom).
  { apply topic_forecasts_NoDup. }
  { intros id p Hp%topic_forecasts_elem. tauto. }
  exists results, d'. rewrite Hall. repeat split; try done.
  - apply Hdom.
  - apply Hdom.
Qed.

(** X10. Settling a topic settles every pending forecast bound to it.
    When the topic exists and is not resolved, [resolveTopic] returns a list
    of results with one result, in order, for each pending forecast of the
    topic whose agent exists, and the result carries the identifier of that
    forecast and the verdict of the outcome matcher on its fragment; the
    topic is then resolved with the given outcome; none of those forecasts
    is pending any more; and the list of pending forecasts has no forecast
    of the topic left. *)
Theorem resolveTopic_settles_all
    (now : Z) (topicId outcome : string) (terms : list string) (d : Db) (topic : Topic) :
  getTopic topicId d = Some topic -> resolved topic = false ->
  exists results d',
    resolveTopic chain now topicId outcome terms d = (inr results, d') /\
    Forall2 (fun x r => predictionId r = x.1 /\
                        resolver.correct r = isCorrect (forecastFragment x.2) outcome terms)
            (filter (fun p => topic_id p.2 = Some topicId) (getPendingPredictions d))
            results /\
    getTopic topicId d' = Some (topic_resolve now outcome topic) /\
    (forall id p,
       (id, p) ∈ filter (fun p => topic_id p.2 = Some topicId) (getPendingPredictions d) ->
       exists p', getPrediction id d' = Some p' /\ status p' <> pending) /\
    (forall id p, (id, p) ∈ getPendingPredictions d' -> topic_id p <> Some topicId).
Proof.
  intros Ht Hr.
  destruct (resolveTopic_ok now topicId outcome terms d topic Ht Hr)
    as (results & d' & Hres & HF & Htop & Hout & Hin & Hdom).
  exists results, d'. split; [done|]. split; [done|]. split; [|split].
  - unfold getTopic in *. by rewrite Htop, lookup_alter_eq, Ht.
  - intros id p Hp. destruct (Hin id p Hp) as (p' & Hp' & Hst & _). eauto.
  - intros id p' Hp' Htopic. apply getPendingPredictions_elem in Hp' as (Hp' & Hst & Ha).
    destruct (decide (id ∈ (filter (fun p => topic_id p.2 = Some topicId)
                              (getPendingPredictions d)).*1)) as [Hel|Hel].
    + apply list_elem_of_fmap in Hel as ([id0 p] & -> & Hel).
      destruct (Hin id0 p Hel) as (p2 & Hp2 & Hst2 & _). cbn in Hp'. congruence.
    + apply Hel. apply list_elem_of_fmap. exists (id, p'). split; [done|].
      apply topic_forecasts_elem. rewrite <- (Hout id Hel). by rewrite <- Hdom.
Qed.

(** X11. Settling a topic touches nothing else. Whatever [resolveTopic]
    returns, a forecast that is bound to another topic or to none, or that is
    not pending, is left as it is; every other topic is left as it is; no
    forecast and no agent is removed or added. *)
Theorem resolveTopic_frame
    (now : Z) (topicId outcome : string) (terms : list string) (d : Db) :
  let d' := (resolveTopic chain now topicId outcome terms d).2 in
  (forall id p, predictions d !! id = Some p ->
     topic_id p <> Some topicId \/ status p <> pending ->
     predictions d' !! id = Some p) /\
  (forall id, id <> topicId -> topics d' !! id = topics d !! id) /\
  (forall id, is_Some (predictions d' !! id) <-> is_Some (predictions d !! id)) /\
  (forall id, is_Some (agents d' !! id) <-> is_Some (agents d !! id)).
Proof.
  destruct (getTopic topicId d) as [topic|] eqn:Ht;
    [destruct (resolved topic) eqn:Hr|].
  - unfold resolveTopic. rewrite Ht, Hr. by cbn.
  - destruct (resolveTopic_ok now topicId outcome terms d topic Ht Hr)
      as (results & d' & Hres & HF & Htop & Hout & Hin & Hdom).
    rewrite Hres. cbn [snd]. split; [|split; [|split]].
    + intros id p Hp Hor. rewrite Hout; [done|].
      intros Hel. apply list_elem_of_fmap in Hel as ([id0 p0] & -> & Hel).
      apply topic_forecasts_elem in Hel as (Hp0 & Hst & _ & Htopic). cbn in Hp.
      assert (p0 = p) as -> by congruence. by destruct Hor.
    + intros id Hne. by rewrite Htop, lookup_alter_ne.
    + intros id.
      destruct (decide (id ∈ (filter (fun p => topic_id p.2 = Some topicId)
                                (getPendingPredictions d)).*1)) as [Hel|Hel].
      * apply list_elem_of_fmap in Hel as ([id0 p] & -> & Hel).
        destruct (Hin id0 p Hel) as (p2 & Hp2 & _).
        apply topic_forecasts_elem in Hel as (Hp0 & _). cbn. rewrite Hp2, Hp0.
        split; eauto.
      * by rewrite (Hout id Hel).
    + done.
  - unfold resolveTopic. rewrite Ht. by cbn.
Qed.

(** X12. A topic is settled once. [resolveTopic] on an unknown topic
    throws "Topic not found" and on a resolved topic throws "Topic already
    resolved", both leaving the store as it is; and after a call that
    returned results, every further call for that topic throws "Topic already
    resolved" and leaves the store as it is. *)
Theorem resolveTopic_once
    (now : Z) (topicId outcome : string) (terms : list string) (d : Db) :
  (getTopic topicId d = None ->
   resolveTopic chain now topicId outcome terms d
   = (inl (Error ("Topic not found: " ++ topicId)), d)) /\
  (forall topic, getTopic topicId d = Some topic -> resolved topic = true ->
   resolveTopic chain now topicId outcome terms d
   = (inl (Error ("Topic already resolved: " ++ topicId)), d)) /\
  (forall results d' now' outcome' terms',
     resolveTopic chain now topicId outcome terms d = (inr results, d') ->
     resolveTopic chain now' topicId outcome' terms' d'
     = (inl (Error ("Topic already resolved: " ++ topicId)), d')).
Proof.
  split; [|split].
  - intros Ht. unfold resolveTopic. by rewrite Ht.
  - intros topic Ht Hr. unfold resolveTopic. by rewrite Ht, Hr.
  - intros results d' now' outcome' terms' Hres.
    destruct (getTopic topicId d) as [topic|] eqn:Ht;
      [destruct (resolved topic) eqn:Hr|].
    + unfold resolveTopic in Hres. by rewrite Ht, Hr in Hres.
    + destruct (resolveTopic_ok now topicId outcome terms d topic Ht Hr)
        as (results0 & d0 & Hres0 & _ & Htop & _).
      rewrite Hres0 in Hres. injection Hres as <- <-.
      unfold resolveTopic at 1. unfold getTopic in *.
      by rewrite Htop, lookup_alter_eq, Ht.
    + unfold resolveTopic in Hres. by rewrite Ht in Hres.
Qed.

(** X13. The ledger is never called. In every reachable state no forecast
    has an identifier on the ledger, so settlement does not depend on the
    blockchain function nor on the [useBlockchain] flag: it is what it is
    without a ledger; and a settlement that succeeds reports no transaction
    hash and records none. *)
Theorem ledger_never_called
    (now : Z) (id : string) (correct useBlockchain : bool) (d : Db) :
  reachable d ->
  resolvePrediction chain now id correct useBlockchain d
  = resolvePrediction (fun _ _ => None) now id correct false d /\
  forall r d',
    resolvePrediction chain now id correct useBlockchain d = (inr r, d') ->
    txHash r = None /\
    exists p', getPrediction id d' = Some p' /\ tx_hash p' = None.
Proof.
  intros Hr. unfold resolvePrediction.
  destruct (getPrediction id d) as [p|] eqn:Hp; [|done].
  destruct (prediction_lifecycle_reachable d Hr id p Hp) as [_ Hoc].
  rewrite Hoc. cbn [truthy or_null]. rewrite !andb_false_r. cbn [andb].
  destruct (negb _); [done|].
  assert (Hd : exists p', getPrediction id (db.resolvePrediction now id correct None d) = Some p'
                 /\ tx_hash p' = None).
  { unfold getPrediction in *.
    rewrite db_facts.resolvePrediction_predictions, lookup_alter_eq, Hp. cbn. eauto. }
  split; [done|].
  destruct correct; destruct (getAgent _ d); intros r d' [= <- <-]; by cbn.
Qed.

(** X14. A settlement touches one forecast and one agent. Whatever
    [resolvePrediction] returns, every topic, every other forecast, and
    every agent but the agent of the forecast is left as it is; the forecast
    keeps its agent, topic, text and confidence; and when the forecast is
    unknown the call throws "Prediction not found" and the store is left as
    it is. *)
Theorem resolvePrediction_frame
    (now : Z) (id : string) (correct useBlockchain : bool) (d : Db) :
  let d' := (resolvePrediction chain now id correct useBlockchain d).2 in
  topics d' = topics d /\
  (forall id', id' <> id -> predictions d' !! id' = predictions d !! id') /\
  (forall p, getPrediction id d = Some p ->
     (exists p', getPrediction id d' = Some p' /\ same_forecast p p') /\
     forall k, k <> agent_id p -> agents d' !! k = agents d !! k) /\
  (getPrediction id d = None ->
   resolvePrediction chain now id correct useBlockchain d
   = (inl (Error ("Prediction not found: " ++ id)), d)).
Proof.
  assert (Hdb : forall tx,
    topics (db.resolvePrediction now id correct tx d) = topics d /\
    (forall id', id' <> id ->
       predictions (db.resolvePrediction now id correct tx d) !! id' = predictions d !! id') /\
    (forall p, getPrediction id d = Some p ->
       (exists p', getPrediction id (db.resolvePrediction now id correct tx d) = Some p' /\
          same_forecast p p') /\
       forall k, k <> agent_id p ->
         agents (db.resolvePrediction now id correct tx d) !! k = agents d !! k)).
  { intros tx. split; [apply resolvePrediction_db_topics|]. split.
    - intros id' Hne. rewrite db_facts.resolvePrediction_predictions.
      by rewrite lookup_alter_ne.
    - intros p Hp. split.
      + unfold getPrediction in *.
        rewrite db_facts.resolvePrediction_predictions, lookup_alter_eq, Hp.
        eexists. split; [reflexivity|]. by repeat split.
      + intros k Hk. rewrite (db_facts.resolvePrediction_agents _ _ _ _ _ _ Hp).
        by rewrite lookup_alter_ne. }
  assert (Hsame : topics d = topics d /\
    (forall id', id' <> id -> predictions d !! id' = predictions d !! id') /\
    (forall p, getPrediction id d = Some p ->
       (exists p', getPrediction id d = Some p' /\ same_forecast p p') /\
       forall k, k <> agent_id p -> agents d !! k = agents d !! k)).
  { split; [done|]. split; [done|]. intros p Hp. split; [|done].
    exists p. eauto using same_forecast_refl. }
  assert (Hd : (resolvePrediction chain now id correct useBlockchain d).2 = d \/
               exists tx, (resolvePrediction chain now id correct useBlockchain d).2
                          = db.resolvePrediction now id correct tx d).
  { unfold resolvePrediction. destruct (getPrediction id d) as [p|]; [|by left].
    destruct (negb _); [by left|].
    destruct correct; destruct (getAgent _ d); cbn [snd]; eauto. }
  cbv zeta. split; [|split; [|split]].
  - destruct Hd as [->|[tx ->]]; [done|apply Hdb].
  - destruct Hd as [->|[tx ->]]; [done|apply Hdb].
  - destruct Hd as [->|[tx ->]]; [apply Hsame|apply Hdb].
  - intros Hn. unfold resolvePrediction. by rewrite Hn.
Qed.

End Settle.

(** ** Topics that wait for their outcome *)

Lemma StronglySorted_filter {A} (R : relation A) (P : A -> Prop)
    `{!forall x, Decision (P x)} (l : list A) :
  StronglySorted R l -> StronglySorted R (filter P l).
Proof.
  induction 1 as [|x l Hs IH Hx]; [apply SSorted_nil|].
  destruct (decide (P x)).
  - rewrite filter_cons_True by done. constructor; [done|].
    apply Forall_forall. intros y [_ Hy]%list_elem_of_filter.
    rewrite Forall_forall in Hx. by apply Hx.
  - by rewrite filter_cons_False.
Qed.

Lemma newerOrSame_total : Total newerOrSame.
Proof. intros x y. unfold newerOrSame. lia. Qed.

Lemma newerOrSame_trans : Transitive newerOrSame.
Proof. intros x y z. unfold newerOrSame. lia. Qed.

Lemma getPendingTopics_elem d id t :
  (id, t) ∈ getPendingTopics d <-> topics d !! id = Some t /\ resolved t = false.
Proof.
  unfold getPendingTopics. rewrite merge_sort_Permutation, list_elem_of_filter.
  rewrite elem_of_map_to_list. cbn. tauto.
Qed.

Lemma getExpiredTopics_elem now d id t :
  (id, t) ∈ getExpiredTopics now d <->
  topics d !! id = Some t /\ resolved t = false /\
  exists deadline, topic_deadline t = Some deadline /\ deadline < now.
Proof.
  unfold getExpiredTopics. rewrite list_elem_of_filter, getPendingTopics_elem. cbn.
  destruct (topic_deadline t) as [dl|].
  - rewrite Is_true_true, Z.ltb_lt. split.
    + intros (H1 & H2 & H3). eauto.
    + intros (H1 & H2 & dl' & [= <-] & H3). eauto.
  - split; [by intros [[] _]|]. by intros (_ & _ & dl & ? & _).
Qed.

(** X15. The topics that wait for their outcome. [getExpiredTopics] lists
    a topic exactly when it is in the table, not resolved, and has a
    deadline before the reading of the clock; it lists them newest first;
    a topic without a deadline is never listed; and once a topic is
    resolved it is never listed again, whatever statements follow. *)
Theorem getExpiredTopics_spec (now : Z) (d : Db) :
  (forall id t,
     (id, t) ∈ getExpiredTopics now d <->
     topics d !! id = Some t /\ resolved t = false /\
     exists deadline, topic_deadline t = Some deadline /\ deadline < now) /\
  StronglySorted (fun x y => topic_created_at y.2 <= topic_created_at x.2)
    (getExpiredTopics now d) /\
  (forall id t d' now',
     topics d !! id = Some t -> resolved t = true -> rtc step d d' ->
     id ∉ (getExpiredTopics now' d').*1).
Proof.
  split; [apply getExpiredTopics_elem|]. split.
  - apply StronglySorted_filter.
    apply (@StronglySorted_merge_sort _ newerOrSame _ newerOrSame_trans newerOrSame_total).
  - intros id t d' now' Ht Hr Hsteps Hel.
    apply list_elem_of_fmap in Hel as ([id0 t'] & -> & Hel).
    apply getExpiredTopics_elem in Hel as (Ht' & Hr' & _).
    destruct (rtc_topic_kept d d' id0 t Hsteps Ht) as (t2 & Ht2 & _ & Hr2).
    cbn in Ht2. rewrite Ht' in Ht2. injection Ht2 as <-. rewrite Hr2 in Hr'; done.
Qed.

End settle_facts.

(** * Properties of the ledger *)

Module contract_facts.
Import Sol OraclePredictions contract_spec.
Open Scope string_scope.

Lemma bind_inr {A B} (m : M A) (f : A -> M B) (y : B) :
  bind m f = inr y -> exists x, m = inr x /\ f x = inr y.
Proof. destruct m as [e|x]; [done|]. cbn. eauto. Qed.

Lemma require_inr (b : bool) (reason : string) (u : unit) :
  require b reason = inr u -> b = true.
Proof. by destruct b. Qed.

Lemma add_inr (max a b c : Z) : add max a b = inr c -> c = a + b /\ a + b <= max.
Proof.
  unfold add. destruct (Z.leb_spec (a + b) max); [|done]. by intros [= <-].
Qed.

Lemma mul_inr (max a b c : Z) : mul max a b = inr c -> c = a * b /\ a * b <= max.
Proof.
  unfold mul. destruct (Z.leb_spec (a * b) max); [|done]. by intros [= <-].
Qed.

Ltac inv_bind H :=
  repeat match type of H with
  | bind _ _ = inr _ =>
      let x := fresh "x" in let E := fresh "E" in
      apply bind_inr in H as (x & E & H)
  end.

(** ** Counting the predictions that wait for their outcome *)

Lemma unresolvedOf_insert_le agent k p (m : gmap Z Prediction) :
  (unresolvedOf agent (<[k := p]> m) <= S (unresolvedOf agent m))%nat.
Proof.
  unfold unresolvedOf. rewrite map_filter_insert. destruct (decide _).
  - rewrite map_size_insert. destruct (_ !! k); cbn; lia.
  - rewrite map_filter_delete, map_size_delete. destruct (_ !! k); cbn; lia.
Qed.

Lemma unresolvedOf_insert_other agent k p (m : gmap Z Prediction) :
  ~ (agentId p = agent /\ resolved p = false) ->
  (unresolvedOf agent (<[k := p]> m) <= unresolvedOf agent m)%nat.
Proof.
  intros Hn. unfold unresolvedOf. rewrite map_filter_insert. destruct (decide _); [done|].
  rewrite map_filter_delete, map_size_delete. destruct (_ !! k); cbn; lia.
Qed.

Lemma unresolvedOf_insert_resolved agent k p p' (m : gmap Z Prediction) :
  m !! k = Some p -> agentId p = agent -> resolved p = false -> resolved p' = true ->
  S (unresolvedOf agent (<[k := p']> m)) = unresolvedOf agent m.
Proof.
  intros Hk Ha Hr Hr'. unfold unresolvedOf. rewrite map_filter_insert.
  destruct (decide _) as [[_ H]|_]; [cbn in H; congruence|].
  rewrite map_filter_delete, map_size_delete.
  assert (Hf : filter (fun kp : Z * Prediction =>
                 agentId kp.2 = agent /\ resolved kp.2 = false) m !! k = Some p).
  { by apply map_lookup_filter_Some. }
  rewrite Hf. cbn.
  assert (size (filter (fun kp : Z * Prediction =>
             agentId kp.2 = agent /\ resolved kp.2 = false) m) <> 0%nat).
  { intros E%map_size_empty_inv. rewrite E in Hf. by rewrite lookup_empty in Hf. }
  lia.
Qed.

Section Contract.
Variable ERC20 : Type.
Variable _mint : address -> Z -> ERC20 -> M ERC20.
Variable keccak256 : string -> bytes32 -> Z -> bytes32.
Variable this : address.

#[local] Abbreviation State := (OraclePredictions.State ERC20).
#[local] Abbreviation resolvePrediction := (OraclePredictions.resolvePrediction ERC20 _mint this).
#[local] Abbreviation submitPrediction := (OraclePredictions.submitPrediction ERC20 keccak256).
#[local] Abbreviation step := (OraclePredictions.step ERC20 _mint keccak256 this).
#[local] Abbreviation reachable := (OraclePredictions.reachable ERC20 _mint keccak256 this).

(** What a resolution that returned has done. *)
Lemma resolvePrediction_inr sender predictionId correct (s s' : State) :
  resolvePrediction sender predictionId correct s = inr s' ->
  let pred := prediction ERC20 s predictionId in
  let a := stats ERC20 s (agentId pred) in
  predictions ERC20 s !! predictionId = Some pred /\
  resolved pred = false /\ agentId pred <> "" /\
  agentRegistered ERC20 s' = agentRegistered ERC20 s /\
  exists reward' a',
    predictions ERC20 s' =
      <[predictionId :=
          {| agentId := agentId pred; predictionHash := predictionHash pred;
             confidence := confidence pred; timestamp := timestamp pred;
             resolved := true; correct := correct; reward := reward' |}]>
        (predictions ERC20 s) /\
    agentStats ERC20 s' = <[agentId pred := a']> (agentStats ERC20 s) /\
    walletAddress a' = walletAddress a /\ totalPredictions a' = totalPredictions a /\
    if correct then
      correctPredictions a' = correctPredictions a + 1 /\
      currentStreak a' = currentStreak a + 1 /\
      bestStreak a' = Z.max (bestStreak a) (currentStreak a + 1) /\
      reward' = BASE_REWARD * (confidence pred * 10)
                  * Z.min (10 + (currentStreak a + 1)) MAX_STREAK_BONUS / 500 /\
      totalRewardsEarned a' = totalRewardsEarned a + reward'
    else
      correctPredictions a' = correctPredictions a /\ currentStreak a' = 0 /\
      bestStreak a' = bestStreak a /\ reward' = reward pred /\
      totalRewardsEarned a' = totalRewardsEarned a.
Proof.
  intros H pred a. unfold OraclePredictions.resolvePrediction in H.
  fold pred in H. fold a in H.
  apply bind_inr in H as (u1 & _ & H).
  apply bind_inr in H as (u2 & Hres%require_inr & H).
  apply bind_inr in H as (u3 & Hlen%require_inr & H).
  apply negb_true_iff in Hres.
  assert (Hne : agentId pred <> "").
  { intros E. rewrite E in Hlen. discriminate. }
  assert (Hst : predictions ERC20 s !! predictionId = Some pred).
  { unfold pred, prediction in *. destruct (predictions ERC20 s !! predictionId); [done|].
    by destruct Hne. }
  split; [done|]. split; [done|]. split; [done|].
  destruct correct.
  - inv_bind H.
    apply add_inr in E as [-> _]. apply add_inr in E0 as [-> _].
    apply mul_inr in E1 as [-> _]. apply add_inr in E2 as [-> _].
    apply mul_inr in E3 as [-> _]. apply mul_inr in E4 as [-> _].
    apply add_inr in E5 as [-> _].
    injection H as <-. cbn. split; [done|].
    eexists _, _. split; [reflexivity|]. split; [reflexivity|]. cbn.
    repeat split.
    + destruct (Z.ltb_spec (bestStreak a) (currentStreak a + 1)); lia.
    + f_equal. f_equal. unfold MAX_STREAK_BONUS.
      destruct (Z.ltb_spec 20 (10 + (currentStreak a + 1))); lia.
  - injection H as <-. cbn. split; [done|].
    eexists _, _. split; [reflexivity|]. split; [reflexivity|]. by cbn.
Qed.

Lemma stats_insert (s : State) m' agent a' k owner' token' preds' reg' :
  m' = <[agent := a']> (agentStats ERC20 s) ->
  stats ERC20 {| owner := owner'; oracleToken := token'; predictions := preds';
                 agentStats := m'; agentRegistered := reg' |} k
  = if decide (agent = k) then a' else stats ERC20 s k.
Proof.
  intros ->. unfold stats. cbn. destruct (decide (agent = k)) as [->|Hne].
  - by rewrite lookup_insert_eq.
  - by rewrite lookup_insert_ne.
Qed.

Lemma stats_eq (s s' : State) agent a' k :
  agentStats ERC20 s' = <[agent := a']> (agentStats ERC20 s) ->
  stats ERC20 s' k = if decide (agent = k) then a' else stats ERC20 s k.
Proof.
  intros E. unfold stats. rewrite E. destruct (decide (agent = k)) as [->|Hne].
  - by rewrite lookup_insert_eq.
  - by rewrite lookup_insert_ne.
Qed.

Lemma ledger_inv_step (s s' : State) :
  step s s' ->
  ledger_inv (predictions ERC20 s) (stats ERC20 s) ->
  ledger_inv (predictions ERC20 s') (stats ERC20 s').
Proof.
  intros Hs [Ha Hp]. destruct Hs as [sender agent wallet s s' H|sender agent wallet s s' H
    |sender now agent hash conf s id s' H|sender id c s s' H|owner' token' s].
  - unfold registerAgent in H. inv_bind H. injection H as <-. split; [|done].
    intros k. rewrite (stats_eq s _ agent (set_walletAddress wallet (stats ERC20 s agent)) k)
      by done.
    cbn [predictions]. destruct (decide (agent = k)) as [->|]; apply Ha.
  - unfold updateAgentWallet in H. inv_bind H. injection H as <-. split; [|done].
    intros k. rewrite (stats_eq s _ agent (set_walletAddress wallet (stats ERC20 s agent)) k)
      by done.
    cbn [predictions]. destruct (decide (agent = k)) as [->|]; apply Ha.
  - unfold OraclePredictions.submitPrediction in H. inv_bind H.
    apply require_inr in E1. apply andb_true_iff in E1 as [Hc1 Hc2].
    apply Z.leb_le in Hc1, Hc2. apply add_inr in E2 as [-> _].
    injection H as <- <-. split.
    + intros k. erewrite stats_eq by reflexivity. cbn [predictions].
      destruct (decide (agent = k)) as [->|Hne]; cbn.
      * destruct (Ha k) as (H1 & H2 & H3).
        pose proof (unresolvedOf_insert_le k (keccak256 k hash now)
          {| agentId := k; predictionHash := hash; confidence := conf; timestamp := now;
             resolved := false; correct := false; reward := 0 |} (predictions ERC20 s)).
        repeat split; lia.
      * destruct (Ha k) as (H1 & H2 & H3).
        pose proof (unresolvedOf_insert_other k (keccak256 agent hash now)
          {| agentId := agent; predictionHash := hash; confidence := conf; timestamp := now;
             resolved := false; correct := false; reward := 0 |} (predictions ERC20 s)
          ltac:(cbn; tauto)).
        repeat split; lia.
    + intros id p. cbn [predictions].
      destruct (decide (keccak256 agent hash now = id)) as [->|Hne].
      * rewrite lookup_insert_eq. intros [= <-]. cbn. repeat split; done || lia.
      * rewrite lookup_insert_ne by done. apply Hp.
  - apply resolvePrediction_inr in H as (Hst & Hres & Hne & _ & r' & a' & Epred & Estats & Hw & Ht & Hc).
    set (pred := prediction ERC20 s id) in *.
    set (a := stats ERC20 s (agentId pred)) in *.
    destruct (Hp id pred Hst) as (Hconf & Hrew & Hcor).
    split.
    + intros k. rewrite (stats_eq s s' (agentId pred) a' k Estats), Epred.
      destruct (decide (agentId pred = k)) as [Ek|Hk].
      * pose proof (unresolvedOf_insert_resolved k id pred
          {| agentId := agentId pred; predictionHash := predictionHash pred;
             confidence := confidence pred; timestamp := timestamp pred;
             resolved := true; correct := c; reward := r' |}
          (predictions ERC20 s) Hst Ek Hres eq_refl) as Hcount.
        destruct (Ha k) as (H1 & H2 & H3). subst k. fold a in H1, H2, H3.
        destruct c.
        -- destruct Hc as (-> & -> & -> & _). repeat split; lia.
        -- destruct Hc as (-> & -> & -> & _). repeat split; lia.
      * pose proof (unresolvedOf_insert_other k id
          {| agentId := agentId pred; predictionHash := predictionHash pred;
             confidence := confidence pred; timestamp := timestamp pred;
             resolved := true; correct := c; reward := r' |}
          (predictions ERC20 s) ltac:(cbn; intros [_ ?]; discriminate)).
        destruct (Ha k) as (H1 & H2 & H3). repeat split; lia.
    + intros id' p. rewrite Epred. destruct (decide (id = id')) as [->|Hk].
      * rewrite lookup_insert_eq. intros [= <-]. cbn. split; [done|]. split; [|done].
        intros ->. destruct Hc as (_ & _ & _ & -> & _). auto.
      * rewrite lookup_insert_ne by done. apply Hp.
  - done.
Qed.

Lemma ledger_inv_reachable (s : State) :
  reachable s -> ledger_inv (predictions ERC20 s) (stats ERC20 s).
Proof.
  induction 1 as [deployer token|s s' _ IH Hs].
  - split.
    + intros agent. unfold stats, unresolvedOf. cbn.
      rewrite lookup_empty, map_filter_empty, map_size_empty. cbn. lia.
    + intros id p H. cbn in H. by rewrite lookup_empty in H.
  - by apply (ledger_inv_step s s').
Qed.

(** X16. The statistics on the ledger. In every state the contract can
    reach, for every agent the current streak is at most the best streak,
    the best streak at most the number of correct predictions, and the
    correct predictions together with the predictions that wait for their
    outcome are at most the predictions submitted; so the accuracy that
    [getAgentStats] returns is a percentage between 0 and 100. Every
    prediction on record has a confidence from 1 to 10, and a reward only if
    it was resolved as correct. *)
Theorem ledger_statistics (s : State) :
  reachable s ->
  (forall agent,
     0 <= currentStreak (stats ERC20 s agent) <= bestStreak (stats ERC20 s agent) /\
     bestStreak (stats ERC20 s agent) <= correctPredictions (stats ERC20 s agent) /\
     correctPredictions (stats ERC20 s agent)
       + Z.of_nat (unresolvedOf agent (predictions ERC20 s))
       <= totalPredictions (stats ERC20 s agent)) /\
  (forall agent wallet total correct accuracy streak best rewards,
     getAgentStats ERC20 agent s
     = inr (wallet, total, correct, accuracy, streak, best, rewards) ->
     0 <= accuracy <= 100) /\
  (forall id p, predictions ERC20 s !! id = Some p ->
     1 <= confidence p <= 10 /\
     (resolved p = false \/ OraclePredictions.correct p = false -> reward p = 0)).
Proof.
  intros Hr. destruct (ledger_inv_reachable s Hr) as [Ha Hp]. split; [done|]. split.
  - intros agent wallet total correct accuracy streak best rewards H.
    unfold getAgentStats in H. destruct (Ha agent) as (H1 & H2 & H3).
    set (a := stats ERC20 s agent) in *.
    destruct (Z.ltb_spec 0 (totalPredictions a)) as [Hpos|Hz].
    + apply bind_inr in H as (acc & E & H).
      apply bind_inr in E as (n & [-> _]%mul_inr & E).
      injection E as <-. injection H as _ _ _ <- _ _ _. split.
      * apply Z.div_pos; lia.
      * apply Z.div_le_upper_bound; lia.
    + cbn in H. injection H as _ _ _ <- _ _ _. lia.
  - intros id p Hid. destruct (Hp id p Hid) as (Hc & Hrew & Hcor). split; [done|].
    intros [Hres|Hfalse]; auto.
Qed.



End Contract.

End contract_facts.

(** * Properties of the outcome matcher *)

Module matcher_facts.
Import JsString resolver matcher_spec.
Open Scope string_scope.

Lemma startsWith_spec (s p : string) :
  startsWith s p = true <-> exists post, s = p ++ post.
Proof.
  revert s. induction p as [|a p IH]; intros s.
  - split; [intros _; exists s; reflexivity | intros _; by destruct s].
  - destruct s as [|b s].
    + split; [discriminate | intros [post H]; discriminate].
    + change (startsWith (String b s) (String a p))
        with (Ascii.eqb a b && startsWith s p).
      rewrite andb_true_iff, IH. split.
      * intros [Hab [post ->]]. apply Ascii.eqb_eq in Hab as ->. by exists post.
      * intros [post H]. injection H as -> ->. rewrite Ascii.eqb_refl. eauto.
Qed.

Lemma includes_cons (c : ascii) (s t : string) :
  includes (String c s) t = startsWith (String c s) t || includes s t.
Proof. reflexivity. Qed.

Lemma includes_spec (s t : string) : includes s t = true <-> contains s t.
Proof.
  unfold contains. induction s as [|c s IH].
  - change (includes "" t) with (startsWith "" t || false).
    rewrite orb_false_r, startsWith_spec. split.
    + intros [post H]. by exists "", post.
    + intros (pre & post & H). destruct pre; [by exists post|discriminate].
  - rewrite includes_cons, orb_true_iff, startsWith_spec, IH. split.
    + intros [[post H]|(pre & post & H)].
      * by exists "", post.
      * exists (String c pre), post. cbn. by rewrite H.
    + intros (pre & post & H). destruct pre as [|c' pre].
      * left. by exists post.
      * right. injection H as -> ->. eauto.
Qed.

Lemma existsb_includes (s : string) (terms : list string) :
  existsb (fun t => includes s t) terms = true <-> containsAny s terms.
Proof.
  unfold containsAny. rewrite existsb_exists.
  split; intros (t & Hin & H); exists t; split; try done; by apply includes_spec.
Qed.

Lemma existsb_includes_false (s : string) (terms : list string) :
  existsb (fun t => includes s t) terms = false <-> ~ containsAny s terms.
Proof. rewrite <- existsb_includes. by destruct (existsb _ _). Qed.

Lemma outcomePositive_spec (actual : string) :
  includes (toLowerCase actual) "yes" || includes (toLowerCase actual) "happened"
  || includes (toLowerCase actual) "true" = true <-> outcomePositive actual.
Proof.
  unfold outcomePositive. rewrite !orb_true_iff, !includes_spec. tauto.
Qed.

(** C7. Without explicit terms the matcher is the polarity heuristic: the
    forecast is judged correct exactly when it is positive and the outcome is
    positive, or it is negative and the outcome is not positive; every other
    forecast (both kinds of terms, or neither) is judged incorrect. The three
    documented cases evaluate to true, false and false. *)
Theorem isCorrect_polarity (fragment actual : string) :
  (isCorrect fragment actual [] = true <-> polarityCorrect fragment actual) /\
  (~ forecastPositive fragment -> ~ forecastNegative fragment ->
     isCorrect fragment actual [] = false) /\
  isCorrect "Bitcoin will reach $100k" "Yes, it happened" [] = true /\
  isCorrect "Bitcoin will reach $100k" "No, it did not happen" [] = false /\
  isCorrect "ambiguous forecast with will and won't" "Yes" [] = false.
Proof.
  assert (Hpos : forall f,
    existsb (fun t => includes (toLowerCase f) t) positiveTerms
    && negb (existsb (fun t => includes (toLowerCase f) t) negativeTerms) = true
    <-> forecastPositive f).
  { intros f. unfold forecastPositive.
    rewrite andb_true_iff, negb_true_iff, existsb_includes, existsb_includes_false. done. }
  assert (Hneg : forall f,
    existsb (fun t => includes (toLowerCase f) t) negativeTerms
    && negb (existsb (fun t => includes (toLowerCase f) t) positiveTerms) = true
    <-> forecastNegative f).
  { intros f. unfold forecastNegative.
    rewrite andb_true_iff, negb_true_iff, existsb_includes, existsb_includes_false. done. }
  assert (Hexcl : forall f, forecastPositive f -> forecastNegative f -> False).
  { intros f [H1 _] [_ H2]. auto. }
  split; [|split; [|by vm_compute]].
  - unfold isCorrect, polarityCorrect. cbn [length Nat.ltb Nat.leb].
    pose proof (Hpos fragment) as Hp. pose proof (Hneg fragment) as Hn.
    pose proof (outcomePositive_spec actual) as Ho.
    destruct (existsb _ positiveTerms && negb _) eqn:Ep.
    + rewrite Ho. split; [intros; left; split; tauto|].
      intros [[_ H]|[Hf _]]; [done|]. exfalso. apply (Hexcl fragment); tauto.
    + destruct (existsb _ negativeTerms && negb _) eqn:En.
      * rewrite negb_true_iff. split.
        -- intros Hfalse. right. split; [tauto|]. rewrite <- Ho, Hfalse. done.
        -- intros [[Hf _]|[_ H]].
           ++ apply Hp in Hf. discriminate.
           ++ rewrite <- Ho in H. by destruct (_ || _ || _).
      * split; [discriminate|]. intros [[Hf _]|[Hf _]].
        -- apply Hp in Hf. discriminate.
        -- apply Hn in Hf. discriminate.
  - intros Hnp Hnn. unfold isCorrect. cbn [length Nat.ltb Nat.leb].
    rewrite <- Hpos in Hnp. rewrite <- Hneg in Hnn.
    destruct (existsb _ positiveTerms && negb _); [tauto|].
    destruct (existsb _ negativeTerms && negb _); [tauto|]. done.
Qed.

Lemma isCorrect_polarity_witness :
  ~ forecastPositive "maybe" /\ ~ forecastNegative "maybe" /\
  isCorrect "maybe" "Yes" [] = false.
Proof.
  assert (H1 : ~ forecastPositive "maybe").
  { intros [H _]. apply existsb_includes in H. vm_compute in H. discriminate. }
  assert (H2 : ~ forecastNegative "maybe").
  { intros [H _]. apply existsb_includes in H. vm_compute in H. discriminate. }
  split; [exact H1|]. split; [exact H2|].
  exact (proj1 (proj2 (isCorrect_polarity "maybe" "Yes")) H1 H2).
Defined.

(** C10. With a non-empty list of explicit terms the decision does not
    depend on the actual outcome: it is true exactly when the case-folded
    fragment contains one of the case-folded terms. *)
Theorem isCorrect_explicit_terms
    (fragment : string) (terms : list string) (actual1 actual2 : string) :
  terms <> [] ->
  isCorrect fragment actual1 terms = isCorrect fragment actual2 terms /\
  (isCorrect fragment actual1 terms = true <->
   exists m, In m terms /\ contains (toLowerCase fragment) (toLowerCase m)).
Proof.
  intros Hne. unfold isCorrect.
  destruct terms as [|t terms]; [done|]. cbn [length Nat.ltb Nat.leb].
  split; [done|]. rewrite existsb_exists.
  split; intros (m & Hin & H); exists m; split; try done; by apply includes_spec.
Qed.

Lemma isCorrect_explicit_terms_witness :
  ["BTC"] <> [] /\
  isCorrect "flip btc" "Yes, it happened" ["BTC"]
  = isCorrect "flip btc" "No, it did not happen" ["BTC"].
Proof.
  split; [discriminate|].
  eapply proj1, (isCorrect_explicit_terms "flip btc" ["BTC"] "Yes, it happened" "No, it did not happen").
  discriminate.
Defined.

End matcher_facts.

(** * Properties of strings and of the matcher of regular expressions *)

Module string_facts.
Import JsString matcher_spec parser_spec.
Open Scope string_scope.

Lemma append_cons (x : ascii) (a b : string) : String x a ++ b = String x (a ++ b).
Proof. reflexivity. Qed.

Lemma append_nil_l (s : string) : "" ++ s = s.
Proof. reflexivity. Qed.

Lemma append_assoc (a b c : string) : (a ++ b) ++ c = a ++ b ++ c.
Proof. induction a as [|x a IH]; [done|]. by rewrite !append_cons, IH. Qed.

Lemma length_append (a b : string) :
  String.length (a ++ b) = (String.length a + String.length b)%nat.
Proof. induction a as [|x a IH]; [done|]. rewrite append_cons. cbn. by rewrite IH. Qed.

Lemma toLowerCase_append (a b : string) :
  toLowerCase (a ++ b) = toLowerCase a ++ toLowerCase b.
Proof.
  induction a as [|x a IH]; [done|]. rewrite append_cons. cbn.
  by rewrite IH, append_cons.
Qed.



Lemma startsWith_append (p post : string) : startsWith (p ++ post) p = true.
Proof. apply matcher_facts.startsWith_spec. by exists post. Qed.


Lemma contains_append_l (s t u : string) : contains s t -> contains (u ++ s) t.
Proof.
  intros (pre & post & ->). exists (u ++ pre), post. by rewrite append_assoc.
Qed.

Lemma contains_startsWith (s t : string) : startsWith s t = true -> contains s t.
Proof. intros H. apply matcher_facts.startsWith_spec in H as [post ->]. by exists "", post. Qed.

Lemma substring_length_append (a b : string) :
  substring 0 (String.length a) (a ++ b) = a.
Proof.
  induction a as [|x a IH]; [by destruct b|].
  rewrite append_cons.
  change (substring 0 (String.length (String x a)) (String x (a ++ b)))
    with (String x (substring 0 (String.length a) (a ++ b))).
  by rewrite IH.
Qed.

End string_facts.

Module regexp_facts.
Import JsString RegExp matcher_spec parser_spec string_facts.
Open Scope string_scope.

Lemma consumed_append (a b : string) : consumed (a ++ b) b = a.
Proof.
  unfold consumed. rewrite length_append.
  replace (String.length a + String.length b - String.length b)%nat
    with (String.length a) by lia.
  apply substring_length_append.
Qed.

Section Exec.
Context {R : Type}.
Implicit Types (k : string -> captures -> option R) (c : captures).

(** A literal word, matched without regard to case, reads a string that is
    the word up to case. *)
Lemma exec_str_inv w s c k x :
  exec true (str w) s c k = Some x ->
  exists s1 s2, s = s1 ++ s2 /\ toLowerCase s1 = toLowerCase w /\ k s2 c = Some x.
Proof.
  revert s. induction w as [|a w IH]; intros s H.
  - by exists "", s.
  - cbn [exec str atom_match] in H. destruct s as [|b s]; [done|].
    destruct (Ascii.eqb (toLowerChar a) (toLowerChar b)) eqn:E; [|done].
    apply IH in H as (s1 & s2 & -> & Hl & Hk).
    exists (String b s1), s2. split; [done|]. split; [|done].
    cbn [toLowerCase]. apply Ascii.eqb_eq in E. by rewrite E, Hl.
Qed.


Lemma exec_str_startsWith w s c k x :
  exec true (str w) s c k = Some x ->
  startsWith (toLowerCase s) (toLowerCase w) = true.
Proof.
  intros H. apply exec_str_inv in H as (s1 & s2 & -> & Hl & _).
  rewrite toLowerCase_append, Hl. apply startsWith_append.
Qed.

Lemma orElse_inv (a b : option R) x :
  orElse a b = Some x -> a = Some x \/ (a = None /\ b = Some x).
Proof. destruct a; cbn; auto. Qed.

Lemma quant_unfold a min max greedy s (k : string -> option R) :
  quant true a min max greedy s k =
  let stop := match min with O => k s | S _ => None end in
  let more :=
    match s with
    | String x s' =>
        if atom_match true a x && negb (bool_decide (max = Some O))
        then quant true a (pred min) (pred <$> max) greedy s' k
        else None
    | EmptyString => None
    end in
  if greedy then orElse more stop else orElse stop more.
Proof. by destruct s. Qed.

(** A quantified class that succeeds has read a run of the class. *)
Lemma quant_inv p min max greedy s (k : string -> option R) x :
  quant true (Class p) min max greedy s k = Some x ->
  exists s1 s2, s = s1 ++ s2 /\ allChars p s1 = true /\
    (min <= String.length s1)%nat /\ k s2 = Some x.
Proof.
  revert min max x. induction s as [|b s IH]; intros min max x H;
    rewrite quant_unfold in H; cbn zeta in H.
  - assert (Hk : min = 0%nat /\ k "" = Some x).
    { destruct greedy; apply orElse_inv in H as [H|[? H]]; destruct min; done. }
    destruct Hk as [-> Hk]. by exists "", "".
  - assert (Hmore : forall y,
      (if atom_match true (Class p) b && negb (bool_decide (max = Some 0%nat))
       then quant true (Class p) (pred min) (pred <$> max) greedy s k else None) = Some y ->
      exists s1 s2, String b s = s1 ++ s2 /\ allChars p s1 = true /\
        (min <= String.length s1)%nat /\ k s2 = Some y).
    { intros y Hy. destruct (atom_match true (Class p) b) eqn:Hb; [|done].
      destruct (negb _); [|done]. cbn [andb] in Hy.
      apply IH in Hy as (s1 & s2 & -> & Ha & Hm & Hk).
      exists (String b s1), s2. split; [done|]. split; [|split; [cbn; lia|done]].
      unfold allChars in *. cbn [list_ascii_of_string forallb]. cbn in Hb. by rewrite Hb. }
    assert (Hstop : forall y,
      match min with 0%nat => k (String b s) | S _ => None end = Some y ->
      exists s1 s2, String b s = s1 ++ s2 /\ allChars p s1 = true /\
        (min <= String.length s1)%nat /\ k s2 = Some y).
    { intros y Hy. destruct min; [|done]. by exists "", (String b s). }
    destruct greedy; apply orElse_inv in H as [H|[_ H]]; auto.
Qed.

(** A greedy unbounded quantifier reads a whole run when the continuation
    accepts what follows the run. *)
Lemma quant_greedy_run p min s1 s2 (k : string -> option R) x :
  allChars p s1 = true -> headNot p s2 -> (min <= String.length s1)%nat ->
  k s2 = Some x ->
  quant true (Class p) min None true (s1 ++ s2) k = Some x.
Proof.
  revert min. induction s1 as [|b s1 IH]; intros min Ha Hh Hm Hk.
  - cbn in Hm. assert (min = 0%nat) as -> by lia.
    rewrite append_nil_l, quant_unfold. cbn zeta. rewrite Hk.
    destruct s2 as [|b s2]; [done|]. red in Hh. cbn [atom_match]. by rewrite Hh.
  - unfold allChars in Ha. cbn [list_ascii_of_string forallb] in Ha.
    apply andb_true_iff in Ha as [Hb Ha].
    rewrite append_cons, quant_unfold. cbn zeta. cbn [atom_match]. rewrite Hb.
    rewrite bool_decide_eq_false_2 by done. cbn [andb negb].
    change (pred <$> None) with (@None nat).
    rewrite (IH (pred min)); [done|done|done|cbn in Hm; lia|done].
Qed.

End Exec.



(** A pattern that begins with a literal word matches only a string that
    contains the word, up to case. *)
Lemma matchRe_str_contains w r s m :
  matchRe true (Seq (str w) r) s = Some m ->
  contains (toLowerCase s) (toLowerCase w).
Proof.
  induction s as [|b s IH]; intros H.
  - cbn [matchRe] in H.
    destruct (exec true (Seq (str w) r) "" ∅ _) eqn:E; [|done].
    cbn [exec] in E. apply exec_str_startsWith in E. by apply contains_startsWith.
  - cbn [matchRe] in H.
    destruct (exec true (Seq (str w) r) (String b s) ∅ _) eqn:E.
    + cbn [exec] in E. apply exec_str_startsWith in E. by apply contains_startsWith.
    + apply IH in H. by apply (contains_append_l _ _ (String (toLowerChar b) "")).
Qed.

End regexp_facts.

(** * Properties of the calendar *)

Module date_facts.
Import JsDate.

Lemma civilFromDays_era (era D : Z) :
  0 <= D < 146097 ->
  civilFromDays (era * 146097 + D - 719468) =
  ((civilFromDays (D - 719468)).1.1 + era * 400,
   (civilFromDays (D - 719468)).1.2, (civilFromDays (D - 719468)).2).
Proof.
  intros HD. unfold civilFromDays.
  replace (era * 146097 + D - 719468 + 719468) with (D + era * 146097) by lia.
  replace (D - 719468 + 719468) with D by lia.
  rewrite Z.div_add by lia. rewrite (Z.div_small D) by lia.
  replace (D + era * 146097 - (0 + era) * 146097) with D by lia.
  replace (D - 0 * 146097) with D by lia.
  cbn [fst snd]. rewrite Z.mul_0_l, Z.add_0_r.
  destruct (_ <? 2); f_equal; f_equal; lia.
Qed.





End date_facts.

(** * Properties of the parser *)

Module parser_facts.
Import JsString RegExp JsDate parser matcher_spec parser_spec string_facts regexp_facts.
Open Scope string_scope.

Lemma trimStart_cons (c : ascii) (s : string) :
  trimStart (String c s) = if isSpace c then trimStart s else String c s.
Proof. reflexivity. Qed.


(** What [trimStart] removes is a run of white space, and what it leaves
    does not begin with white space. *)
Lemma trimStart_split (s : string) :
  exists sp, s = sp ++ trimStart s /\ allChars isSpace sp = true /\
             headNot isSpace (trimStart s).
Proof.
  induction s as [|c s (sp & Hs & Ha & Hh)].
  - by exists "".
  - rewrite trimStart_cons. destruct (isSpace c) eqn:Hc.
    + exists (String c sp). rewrite append_cons, <- Hs. split; [done|]. split; [|done].
      unfold allChars in *. cbn [list_ascii_of_string forallb]. by rewrite Hc.
    + by exists "".
Qed.



Section Continuation.
Context {R : Type}.
Implicit Types (k : string -> captures -> option R) (c : captures).




End Continuation.





End parser_facts.

Module parser_theorems.
Import JsString RegExp JsDate parser matcher_spec parser_spec string_facts regexp_facts parser_facts date_facts.
Open Scope string_scope.

Ltac vmc t := let v := eval vm_compute in t in replace t with v by (vm_compute; reflexivity).

Section Parser.
Variable Date_parse : string -> Date.

Lemma parseDateString_end_of_year (now : Z) :
  parseDateString Date_parse now "end of year" = Some (setMonth now 11 (Some 31)).
Proof.
  unfold parseDateString.
  vmc (trim (toLowerCase "end of year")).
  vmc (includes "end of year" "within").
  vmc (includes "end of year" "end of").
  vmc (includes "end of year" "year").
  reflexivity.
Qed.

Lemma firstDeadline_sample (now : Z) :
  firstDeadline Date_parse now deadlinePatterns "ETH will flip BTC by end of year"
  = Some (setMonth now 11 (Some 31)).
Proof.
  unfold deadlinePatterns, firstDeadline.
  vmc (matchRe true reByMonthYear "ETH will flip BTC by end of year").
  vmc (matchRe true reByDate "ETH will flip BTC by end of year").
  replace (matchRe true reByEndOf "ETH will flip BTC by end of year")
    with (Some ({[1%nat := "end of year"]} : captures)) by (vm_compute; reflexivity).
  rewrite lookup_singleton_eq. cbn [mbind option_bind].
  by rewrite parseDateString_end_of_year.
Qed.

Lemma parsePrediction_sample (now : Z) :
  parsePrediction Date_parse now samples.comment =
  Some {| prediction := "ETH will flip BTC by end of year";
          outcome := "flip BTC";
          deadline := Some (setMonth now 11 (Some 31));
          confidence := 9;
          category := "crypto";
          raw := samples.comment |}.
Proof.
  unfold parsePrediction.
  replace (matchRe true rePrediction samples.comment)
    with (Some ({[1%nat := "ETH will flip BTC by end of year"]} : captures))
    by (vm_compute; reflexivity).
  rewrite lookup_singleton_eq. cbn [default from_option].
  vmc (trim "ETH will flip BTC by end of year").
  rewrite firstDeadline_sample.
  replace (matchRe true reConfidence samples.comment)
    with (Some ({[1%nat := "9"]} : captures)) by (vm_compute; reflexivity).
  replace (matchRe true reCategory samples.comment)
    with (Some ({[1%nat := "crypto"]} : captures)) by (vm_compute; reflexivity).
  replace (matchRe true reOutcome "ETH will flip BTC by end of year")
    with (Some ({[1%nat := "flip BTC"]} : captures)) by (vm_compute; reflexivity).
  rewrite !lookup_singleton_eq. reflexivity.
Qed.





(** C6, as the code has it. For a fragment that contains neither "within"
    nor "end of" the resolver is the calendar parse of the fragment, the
    same at every reading of the clock; for "end of year" it is computed
    from the reading of the clock. *)
Theorem parseDateString_clock (fragment : string) (clock1 clock2 : Z) :
  (includes (trim (toLowerCase fragment)) "within" = false ->
   includes (trim (toLowerCase fragment)) "end of" = false ->
   parseDateString Date_parse clock1 fragment = parseDateString Date_parse clock2 fragment /\
   parseDateString Date_parse clock1 fragment =
     match Date_parse fragment with TimeValue t => Some (TimeValue t) | InvalidDate => None end) /\
  parseDateString Date_parse clock1 "end of year" = Some (setMonth clock1 11 (Some 31)).
Proof.
  split; [|apply parseDateString_end_of_year].
  intros Hw He. unfold parseDateString. by rewrite Hw, He.
Qed.

End Parser.




(** C6 fails as stated: the same fragment resolved at two readings of the
    clock, one hour apart, gives two different timestamps. *)
Lemma parseDateString_depends_on_clock :
  parseDateString samples.Date_parse samples.now0 "end of year"
  <> parseDateString samples.Date_parse samples.now1 "end of year" /\
  parseDateString samples.Date_parse samples.now0 "within 30 days"
  <> parseDateString samples.Date_parse samples.now1 "within 30 days".
Proof. split; vm_compute; discriminate. Qed.

Lemma parseDateString_clock_witness :
  parseDateString samples.Date_parse samples.now0 "March 2026"
  = parseDateString samples.Date_parse samples.now1 "March 2026".
Proof.
  eapply proj1, (proj1 (parseDateString_clock samples.Date_parse "March 2026"
                          samples.now0 samples.now1)).
  - vm_compute. reflexivity.
  - vm_compute. reflexivity.
Defined.

End parser_theorems.

(** * Further properties of the calendar and of the parser *)

Module calendar_facts.
Import JsDate date_facts.

Lemma daysFromCivil_era (y m d era : Z) :
  daysFromCivil (y + era * 400) m d = daysFromCivil y m d + era * 146097.
Proof.
  unfold daysFromCivil.
  replace ((if m <? 2 then y + era * 400 - 1 else y + era * 400))
    with ((if m <? 2 then y - 1 else y) + era * 400) by (destruct (m <? 2); lia).
  set (y' := if m <? 2 then y - 1 else y).
  rewrite Z.div_add by lia.
  replace (y' + era * 400 - (y' / 400 + era) * 400) with (y' - y' / 400 * 400) by lia.
  lia.
Qed.

Lemma forallZ_spec (f : Z -> bool) (start : Z) (n : nat) :
  range.forallZ f start n = true ->
  forall k, start <= k < start + Z.of_nat n -> f k = true.
Proof.
  revert start. induction n as [|n IH]; intros start H k Hk; [lia|].
  cbn [range.forallZ] in H. apply andb_true_iff in H as [H0 H].
  destruct (Z.eq_dec k start) as [->|Hne]; [done|].
  apply (IH (start + 1)); [done|lia].
Qed.

Lemma roundtrip_check_all (D : Z) :
  0 <= D < 146097 ->
  daysFromCivil (civilFromDays (D - 719468)).1.1 (civilFromDays (D - 719468)).1.2 1
    + (civilFromDays (D - 719468)).2 - 1 = D - 719468 /\
  0 <= (civilFromDays (D - 719468)).1.2 <= 11.
Proof.
  intros H.
  assert (Hall : range.forallZ calendar_spec.roundtrip 0 (Z.to_nat 146097) = true)
    by (vm_compute; reflexivity).
  pose proof (forallZ_spec _ _ _ Hall D ltac:(lia)) as HD.
  unfold calendar_spec.roundtrip in HD.
  destruct (civilFromDays (D - 719468)) as [[y m] d]. cbn [fst snd].
  rewrite !andb_true_iff, Z.eqb_eq, !Z.leb_le in HD. tauto.
Qed.

(** The calendar date of a day number numbers that day. *)
Lemma civil_roundtrip (z : Z) :
  daysFromCivil (civilFromDays z).1.1 (civilFromDays z).1.2 1 + (civilFromDays z).2 - 1 = z /\
  0 <= (civilFromDays z).1.2 <= 11.
Proof.
  pose proof (Z.div_mod (z + 719468) 146097 ltac:(lia)) as Hdm.
  pose proof (Z.mod_pos_bound (z + 719468) 146097 ltac:(lia)) as Hb.
  set (era := (z + 719468) / 146097) in *. set (D := (z + 719468) mod 146097) in *.
  replace z with (era * 146097 + D - 719468) by lia.
  rewrite civilFromDays_era by done. cbn [fst snd].
  destruct (roundtrip_check_all D Hb) as [H1 H2].
  rewrite daysFromCivil_era. split; [lia|done].
Qed.

(** [date.setDate(date.getDate() + n)] moves the date by [n] days. *)
Lemma setDate_add (t n : Z) :
  setDate t (getDate t + n) = TimeClip (t + n * msPerDay).
Proof.
  unfold setDate, getDate, YearFromTime, MonthFromTime, DateFromTime. f_equal.
  destruct (civil_roundtrip (Day t)) as [Hr Hm].
  unfold MakeDay. rewrite Z.div_small, Z.mod_small, Z.add_0_r by lia.
  replace (daysFromCivil (civilFromDays (Day t)).1.1 (civilFromDays (Day t)).1.2 1 +
           ((civilFromDays (Day t)).2 + n) - 1) with (Day t + n) by lia.
  unfold MakeDate, Day, TimeWithinDay, msPerDay.
  pose proof (Z.div_mod t 86400000 ltac:(lia)). lia.
Qed.

End calendar_facts.

Module parser_more.
Import JsString RegExp JsDate parser matcher_spec parser_spec string_facts regexp_facts
       parser_facts calendar_facts.
Open Scope string_scope.

(** ** Strings *)

Lemma allChars_cons (p : ascii -> bool) (c : ascii) (s : string) :
  allChars p (String c s) = p c && allChars p s.
Proof. reflexivity. Qed.

Lemma allChars_append (p : ascii -> bool) (a b : string) :
  allChars p (a ++ b) = allChars p a && allChars p b.
Proof.
  induction a as [|c a IH]; [done|].
  by rewrite append_cons, !allChars_cons, IH, andb_assoc.
Qed.

Lemma toLowerChar_digit (c : ascii) : isDigit c = true -> toLowerChar c = c.
Proof.
  unfold toLowerChar, isUpper, isDigit. intros H.
  apply andb_true_iff in H as [H1 H2]. apply N.leb_le in H1, H2.
  destruct (N.leb_spec 65 (N_of_ascii c)); [lia|done].
Qed.

Lemma toLowerCase_digits (s : string) : allChars isDigit s = true -> toLowerCase s = s.
Proof.
  induction s as [|c s IH]; [done|]. rewrite allChars_cons. intros [Hc Hs]%andb_true_iff.
  cbn [toLowerCase]. by rewrite toLowerChar_digit, IH.
Qed.

Lemma trimEnd_cons (c : ascii) (s : string) :
  trimEnd (String c s) =
  match trimEnd s with
  | EmptyString => if isSpace c then EmptyString else String c EmptyString
  | t => String c t
  end.
Proof. reflexivity. Qed.

(** A string that ends with a character that is not white space is left by
    [trimEnd] as it is. *)
Lemma trimEnd_snoc (s : string) (c : ascii) :
  isSpace c = false -> trimEnd (s ++ String c "") = s ++ String c "".
Proof.
  intros Hc. induction s as [|b s IH].
  - rewrite append_nil_l, trimEnd_cons. cbn [trimEnd]. by rewrite Hc.
  - rewrite append_cons, trimEnd_cons, IH. by destruct s.
Qed.

(** ** The matcher *)

Section Exec.
Context {R : Type}.

(** A class does not look at the case flag. *)
Lemma quant_flag p min max greedy s (k : string -> option R) :
  quant false (Class p) min max greedy s k = quant true (Class p) min max greedy s k.
Proof.
  revert min max. induction s as [|b s IH]; intros min max; [done|].
  cbn [quant atom_match]. by rewrite IH.
Qed.

End Exec.

Lemma matchRe_inv ic r s m :
  matchRe ic r s = Some m ->
  exists pre s', s = pre ++ s' /\ exec ic r s' ∅ (fun _ c => Some c) = Some m.
Proof.
  induction s as [|b s IH]; cbn [matchRe].
  - destruct (exec ic r "" ∅ _) eqn:E; [|done]. intros [= <-]. by exists "", "".
  - destruct (exec ic r (String b s) ∅ _) eqn:E.
    + intros [= <-]. by exists "", (String b s).
    + intros (pre & s' & -> & H)%IH. by exists (String b pre), s'.
Qed.

Lemma matchRe_exec_flag ic r s m :
  exec ic r s ∅ (fun _ c => Some c) = Some m -> matchRe ic r s = Some m.
Proof. intros H. destruct s; cbn; by rewrite H. Qed.

(** ** What the labels capture *)

Lemma reCategory_inv (s : string) (m : captures) :
  matchRe true reCategory s = Some m ->
  exists g, m !! 1%nat = Some g /\
    In (toLowerCase g) ["tech"; "crypto"; "ai"; "world"; "science"; "other"].
Proof.
  intros (pre & s' & -> & H)%matchRe_inv. unfold reCategory in H. cbn [exec] in H.
  apply exec_str_inv in H as (s1 & s2 & -> & _ & H).
  unfold star, space in H. cbn [exec] in H.
  apply quant_inv in H as (sp & s3 & -> & _ & _ & H). cbn [exec] in H.
  assert (Hw : forall w c x,
    exec true (str w) s3 c (fun s' c' => Some (<[1%nat := consumed s3 s']> c')) = Some x ->
    exists g, x !! 1%nat = Some g /\ toLowerCase g = toLowerCase w).
  { intros w c x Hx. apply exec_str_inv in Hx as (g & rest & -> & Hl & [= <-]).
    exists g. by rewrite consumed_append, lookup_insert_eq. }
  repeat (apply orElse_inv in H as [H|[_ H]]);
    apply Hw in H as (g & Hg & Hl); exists g; (split; [done|]); rewrite Hl; cbn; tauto.
Qed.

Lemma rePrediction_inv (s : string) (m : captures) :
  matchRe true rePrediction s = Some m ->
  exists g, m !! 1%nat = Some g /\ allChars isDot g = true.
Proof.
  intros (pre & s' & -> & H)%matchRe_inv. unfold rePrediction in H. cbn [exec] in H.
  apply exec_str_inv in H as (s1 & s2 & -> & _ & H).
  unfold star, space in H. cbn [exec] in H.
  apply quant_inv in H as (sp & s3 & -> & _ & _ & H).
  unfold lazyPlus, dot in H. cbn [exec] in H.
  apply quant_inv in H as (g & s4 & -> & Hg & _ & H).
  rewrite consumed_append in H. exists g. split; [|done].
  apply orElse_inv in H as [H|[_ H]].
  - destruct s4 as [|x s4]; [done|]. destruct (atom_match true (Chr lf) x); [|done].
    injection H as <-. by rewrite lookup_insert_eq.
  - destruct s4; [|done]. injection H as <-. by rewrite lookup_insert_eq.
Qed.

Lemma allChars_trimStart (p : ascii -> bool) (s : string) :
  allChars p s = true -> allChars p (trimStart s) = true.
Proof.
  induction s as [|c s IH]; [done|]. rewrite allChars_cons, trimStart_cons.
  intros [Hc Hs]%andb_true_iff. destruct (isSpace c); [by apply IH|].
  by rewrite allChars_cons, Hc, Hs.
Qed.

Lemma allChars_trimEnd (p : ascii -> bool) (s : string) :
  allChars p s = true -> allChars p (trimEnd s) = true.
Proof.
  induction s as [|c s IH]; [done|]. rewrite allChars_cons, trimEnd_cons.
  intros [Hc Hs]%andb_true_iff. specialize (IH Hs).
  destruct (trimEnd s) as [|b t].
  - destruct (isSpace c); [done|]. by rewrite allChars_cons, Hc.
  - by rewrite allChars_cons, Hc, IH.
Qed.

Lemma headNot_trimEnd (s : string) :
  headNot isSpace s -> headNot isSpace (trimEnd s).
Proof.
  destruct s as [|c s]; [done|]. cbn [headNot]. intros Hc.
  rewrite trimEnd_cons. destruct (trimEnd s); [by rewrite Hc|done].
Qed.

(** ** What the "within" pattern captures *)

Lemma reWithin_inv (s : string) (m : captures) :
  matchRe true reWithin s = Some m ->
  exists ds ws w, m !! 1%nat = Some (ds ++ ws ++ w) /\
    ds <> "" /\ allChars isDigit ds = true /\
    allChars isSpace ws = true /\
    w <> "" /\ allChars isWord w = true.
Proof.
  intros (pre & s' & -> & H)%matchRe_inv. unfold reWithin in H. cbn [exec] in H.
  apply exec_str_inv in H as (s1 & s2 & -> & _ & H).
  unfold plus, space, digit, wordChar in H. cbn [exec] in H.
  apply quant_inv in H as (sp & s3 & -> & _ & _ & H). cbn [exec] in H.
  apply quant_inv in H as (ds & s4 & -> & Hds & Hlds & H). cbn [exec] in H.
  apply quant_inv in H as (ws & s5 & -> & Hws & _ & H).
  apply quant_inv in H as (w & s6 & -> & Hw & Hlw & H).
  injection H as <-. exists ds, ws, w.
  replace (ds ++ ws ++ w ++ s6) with ((ds ++ ws ++ w) ++ s6) by (by rewrite !append_assoc).
  rewrite consumed_append, lookup_insert_eq.
  repeat split; try done.
  - intros ->. cbn in Hlds. lia.
  - intros ->. cbn in Hlw. lia.
Qed.

Lemma allChars_toLowerCase (p q : ascii -> bool) (s : string) :
  (forall c, p c = true -> q (toLowerChar c) = true) ->
  allChars p s = true -> allChars q (toLowerCase s) = true.
Proof.
  intros Hpq. induction s as [|c s IH]; [done|]. cbn [toLowerCase].
  rewrite !allChars_cons. intros [Hc Hs]%andb_true_iff. by rewrite (Hpq c Hc), IH.
Qed.

Lemma isWord_lower_not_space (c : ascii) :
  isWord c = true -> negb (isSpace (toLowerChar c)) = true.
Proof. destruct c as [[] [] [] [] [] [] [] []]; vm_compute; congruence. Qed.

Lemma isDigit_lower (c : ascii) :
  isDigit c = true -> (isDigit (toLowerChar c) || isSpace (toLowerChar c)) = true.
Proof. destruct c as [[] [] [] [] [] [] [] []]; vm_compute; congruence. Qed.

Lemma isSpace_lower (c : ascii) :
  isSpace c = true -> (isDigit (toLowerChar c) || isSpace (toLowerChar c)) = true.
Proof. destruct c as [[] [] [] [] [] [] [] []]; vm_compute; congruence. Qed.

Lemma not_e (c : ascii) :
  (isDigit c || isSpace c) = true -> Ascii.eqb "e" c = false.
Proof. destruct c as [[] [] [] [] [] [] [] []]; vm_compute; congruence. Qed.

(** "end of" does not occur in digits and white space followed by
    characters that are not white space. *)
Lemma no_end_of (a w : string) :
  allChars (fun c => isDigit c || isSpace c) a = true ->
  allChars (fun c => negb (isSpace c)) w = true ->
  includes (a ++ w) "end of" = false.
Proof.
  intros Ha Hw. induction a as [|c a IH].
  - rewrite append_nil_l. clear Ha. induction w as [|c w IH].
    + reflexivity.
    + rewrite matcher_facts.includes_cons.
      pose proof Hw as Hw0.
      rewrite allChars_cons in Hw. apply andb_true_iff in Hw as [Hc Hw'].
      rewrite (IH Hw'), orb_false_r.
      destruct (startsWith (String c w) "end of") eqn:E; [|done].
      apply matcher_facts.startsWith_spec in E as [post E].
      rewrite E, allChars_append in Hw0. by vm_compute in Hw0.
  - rewrite allChars_cons in Ha. apply andb_true_iff in Ha as [Hc Ha].
    rewrite append_cons, matcher_facts.includes_cons, (IH Ha), orb_false_r.
    change (startsWith (String c (a ++ w)) "end of")
      with (Ascii.eqb "e" c && startsWith (a ++ w) "nd of").
    by rewrite (not_e c Hc).
Qed.

Lemma last_char (s : string) : s <> "" -> exists s' c, s = s' ++ String c "".
Proof.
  induction s as [|b s IH]; [done|]. intros _. destruct s as [|b' s].
  - by exists "", b.
  - destruct IH as (s' & c & E); [done|]. exists (String b s'), c. by rewrite E.
Qed.

(** The fragment that the "within" pattern captures, case-folded, is
    trimmed already and does not contain "end of". *)
Lemma within_fragment (ds ws w : string) :
  ds <> "" -> allChars isDigit ds = true -> allChars isSpace ws = true ->
  w <> "" -> allChars isWord w = true ->
  trim (toLowerCase (ds ++ ws ++ w)) = toLowerCase (ds ++ ws ++ w) /\
  includes (toLowerCase (ds ++ ws ++ w)) "end of" = false.
Proof.
  intros Hne Hds Hws Hnw Hw. split.
  - unfold trim.
    assert (Hstart : trimStart (toLowerCase (ds ++ ws ++ w)) = toLowerCase (ds ++ ws ++ w)).
    { destruct ds as [|d ds]; [done|]. rewrite append_cons. cbn [toLowerCase].
      rewrite trimStart_cons. rewrite allChars_cons in Hds.
      apply andb_true_iff in Hds as [Hd _]. rewrite (toLowerChar_digit d Hd).
      destruct d as [[] [] [] [] [] [] [] []]; vm_compute in Hd; try discriminate;
        reflexivity. }
    rewrite Hstart. destruct (last_char w Hnw) as (w' & c & ->).
    rewrite allChars_append, allChars_cons in Hw.
    apply andb_true_iff in Hw as [_ Hc]. apply andb_true_iff in Hc as [Hc _].
    rewrite !toLowerCase_append. cbn [toLowerCase].
    replace (toLowerCase ds ++ toLowerCase ws ++ toLowerCase w' ++ String (toLowerChar c) "")
      with ((toLowerCase ds ++ toLowerCase ws ++ toLowerCase w') ++ String (toLowerChar c) "")
      by (by rewrite !append_assoc).
    apply trimEnd_snoc. apply negb_true_iff. by apply isWord_lower_not_space.
  - replace (ds ++ ws ++ w) with ((ds ++ ws) ++ w) by (by rewrite append_assoc).
    rewrite toLowerCase_append. apply no_end_of.
    + rewrite toLowerCase_append, allChars_append. apply andb_true_iff. split.
      * by apply (allChars_toLowerCase isDigit); [apply isDigit_lower|].
      * by apply (allChars_toLowerCase isSpace); [apply isSpace_lower|].
    + by apply (allChars_toLowerCase isWord); [apply isWord_lower_not_space|].
Qed.

(** ** "within N days" *)

Lemma reAmountUnit_digits (ds unit : string) :
  ds <> "" -> allChars isDigit ds = true -> unit = "day" \/ unit = "week" ->
  exists m,
    matchRe false reAmountUnit ("within " ++ ds ++ " " ++ unit ++ "s") = Some m /\
    m !! 1%nat = Some ds /\ m !! 2%nat = Some unit.
Proof.
  intros Hne Hd Hu.
  set (tail := " " ++ unit ++ "s").
  assert (Hskip : matchRe false reAmountUnit ("within " ++ ds ++ tail)
                  = matchRe false reAmountUnit (ds ++ tail)) by reflexivity.
  rewrite Hskip.
  assert (Hk : exists m,
    exec false reAmountUnit (ds ++ tail) ∅ (fun _ c => Some c) = Some m /\
    m !! 1%nat = Some ds /\ m !! 2%nat = Some unit).
  { unfold reAmountUnit, plus, digit. cbn [exec]. rewrite quant_flag.
    assert (Hrest : exists m,
      exec false
        (Seq (Quant space 1 None true)
           (Seq (Group 2 (Alt (str "day") (Alt (str "week") (Alt (str "month") (str "year")))))
              (Quant (Chr "s") 0 (Some 1%nat) true)))
        tail (<[1%nat := consumed (ds ++ tail) tail]> ∅) (fun _ c => Some c) = Some m /\
      m !! 1%nat = Some ds /\ m !! 2%nat = Some unit).
    { rewrite consumed_append. unfold tail.
      destruct Hu as [->| ->]; (eexists; split; [vm_compute; reflexivity|]);
        split; vm_compute; reflexivity. }
    destruct Hrest as (m & Hm & H1 & H2). exists m. split; [|done].
    apply quant_greedy_run; [done| |destruct ds; [done|cbn; lia]|done].
    unfold tail. by destruct Hu as [->| ->]. }
  destruct Hk as (m & Hm & H12). exists m. split; [|done]. by apply matchRe_exec_flag.
Qed.

Lemma within_normalized (ds unit : string) :
  allChars isDigit ds = true -> unit = "day" \/ unit = "week" ->
  trim (toLowerCase ("within " ++ ds ++ " " ++ unit ++ "s"))
  = "within " ++ ds ++ " " ++ unit ++ "s".
Proof.
  intros Hd Hu. rewrite !toLowerCase_append, (toLowerCase_digits ds Hd).
  assert (Hl : toLowerCase unit = unit) by (by destruct Hu as [->| ->]).
  rewrite Hl. change (toLowerCase "within ") with "within ".
  change (toLowerCase " ") with " ". change (toLowerCase "s") with "s".
  unfold trim. change (trimStart ("within " ++ ds ++ " " ++ unit ++ "s"))
    with ("within " ++ ds ++ " " ++ unit ++ "s").
  replace ("within " ++ ds ++ " " ++ unit ++ "s")
    with (("within " ++ ds ++ " " ++ unit) ++ "s") by (by rewrite !append_assoc).
  by apply trimEnd_snoc.
Qed.

Section Parser.
Variable Date_parse : string -> Date.

Lemma includes_within (rest : string) : includes ("within " ++ rest) "within" = true.
Proof. apply matcher_facts.includes_spec. by exists "", (" " ++ rest). Qed.

(** The relative branch of the resolver on "within N <unit>s". *)
Lemma parseDateString_within_unit (now : Z) (ds unit : string) :
  ds <> "" -> allChars isDigit ds = true -> unit = "day" \/ unit = "week" ->
  parseDateString Date_parse now ("within " ++ ds ++ " " ++ unit ++ "s")
  = Some (if decide (unit = "day") then setDate now (getDate now + parseInt ds)
          else if decide (unit = "week") then setDate now (getDate now + parseInt ds * 7)
          else if decide (unit = "month") then setMonth now (getMonth now + parseInt ds) None
          else if decide (unit = "year") then setFullYear now (getFullYear now + parseInt ds)
          else TimeValue now).
Proof.
  intros Hne Hd Hu. unfold parseDateString.
  rewrite (within_normalized ds unit Hd Hu), includes_within.
  by destruct (reAmountUnit_digits ds unit Hne Hd Hu) as (m & -> & -> & ->).
Qed.

(** X19. "within N days" read by the date resolver. For every non-empty
    string of digits N, the resolver reads "within N days" as the reading of
    the clock plus N days, to the millisecond, and "within N weeks" as the
    reading of the clock plus 7 N days (an invalid date when that is beyond
    the range of time values). *)
Theorem parseDateString_within_days (now : Z) (ds : string) :
  ds <> "" -> allChars isDigit ds = true ->
  parseDateString Date_parse now ("within " ++ ds ++ " days")
  = Some (TimeClip (now + parseInt ds * msPerDay)) /\
  parseDateString Date_parse now ("within " ++ ds ++ " weeks")
  = Some (TimeClip (now + parseInt ds * 7 * msPerDay)).
Proof.
  intros Hne Hd. split.
  - pose proof (parseDateString_within_unit now ds "day" Hne Hd (or_introl eq_refl)) as H1.
    change (" " ++ "day" ++ "s") with " days" in H1.
    rewrite H1, decide_True by done. by rewrite setDate_add.
  - pose proof (parseDateString_within_unit now ds "week" Hne Hd (or_intror eq_refl)) as H1.
    change (" " ++ "week" ++ "s") with " weeks" in H1.
    rewrite H1, decide_False, decide_True by done. by rewrite setDate_add.
Qed.

Lemma parsePrediction_shape (now : Z) (content : string) (r : ParsedPrediction) :
  parsePrediction Date_parse now content = Some r ->
  1 <= confidence r <= 10 /\
  (~ contains (toLowerCase content) "confidence:" -> confidence r = 5) /\
  In (category r) ["tech"; "crypto"; "ai"; "world"; "science"; "other"] /\
  (~ contains (toLowerCase content) "category:" -> category r = "other") /\
  raw r = content /\
  allChars isDot (prediction r) = true /\ headNot isSpace (prediction r).
Proof.
  unfold parsePrediction.
  destruct (matchRe true rePrediction content) as [pm|] eqn:Ep; [|done].
  intros [= <-]. cbn [confidence category raw prediction].
  split; [|split; [|split; [|split; [|split; [done|]]]]].
  - destruct (matchRe true reConfidence content); lia.
  - intros Hno. destruct (matchRe true reConfidence content) eqn:Ec; [|done].
    destruct Hno. by apply (matchRe_str_contains "CONFIDENCE:") in Ec.
  - destruct (matchRe true reCategory content) as [cm|] eqn:Ec; [|cbn; tauto].
    apply reCategory_inv in Ec as (g & -> & Hg). done.
  - intros Hno. destruct (matchRe true reCategory content) eqn:Ec; [|done].
    destruct Hno. by apply (matchRe_str_contains "CATEGORY:") in Ec.
  - apply rePrediction_inv in Ep as (g & -> & Hg). cbn [default from_option].
    split.
    + by apply allChars_trimEnd, allChars_trimStart.
    + apply headNot_trimEnd. by destruct (trimStart_split g) as (sp & _ & _ & H).
Qed.

(** X20. What an extracted forecast looks like. Whenever a forecast is
    extracted: its confidence is between 1 and 10, and it is 5 when the
    text has no "confidence:" label; its category is one of tech, crypto,
    ai, world, science and other, and it is "other" when the text has no
    "category:" label; it keeps the whole text as raw; and its claim text
    holds no line terminator and does not begin with white space. *)
Theorem parsePrediction_wellformed (now : Z) (content : string) (r : ParsedPrediction) :
  parsePrediction Date_parse now content = Some r ->
  1 <= confidence r <= 10 /\
  (~ contains (toLowerCase content) "confidence:" -> confidence r = 5) /\
  In (category r) ["tech"; "crypto"; "ai"; "world"; "science"; "other"] /\
  (~ contains (toLowerCase content) "category:" -> category r = "other") /\
  raw r = content /\
  allChars isDot (prediction r) = true /\ headNot isSpace (prediction r).
Proof. apply parsePrediction_shape. Qed.

(** Whether the date resolver throws does not depend on the clock. *)
Lemma parseDateString_None_clock (now now' : Z) (fragment : string) :
  parseDateString Date_parse now fragment = None ->
  parseDateString Date_parse now' fragment = None.
Proof.
  unfold parseDateString.
  destruct (includes (trim (toLowerCase fragment)) "within");
    [destruct (matchRe false reAmountUnit (trim (toLowerCase fragment))) as [m|];
       [destruct (m !! 1%nat), (m !! 2%nat)|]|];
    try done;
    by destruct (includes (trim (toLowerCase fragment)) "end of").
Qed.

Lemma firstDeadline_None_clock (now now' : Z) (patterns : list regex) (text : string) :
  firstDeadline Date_parse now patterns text = None ->
  firstDeadline Date_parse now' patterns text = None.
Proof.
  induction patterns as [|r patterns IH]; [done|]. cbn [firstDeadline].
  destruct (matchRe true r text) as [m|]; [|done].
  destruct (m !! 1%nat) as [g|]; cbn [mbind option_bind]; [|done].
  destruct (parseDateString Date_parse now g) eqn:E; [done|].
  rewrite (parseDateString_None_clock now now' g E). apply IH.
Qed.

Lemma firstDeadline_app (now : Z) (l1 l2 : list regex) (text : string) :
  firstDeadline Date_parse now (l1 ++ l2)%list text
  = match firstDeadline Date_parse now l1 text with
    | Some d => Some d
    | None => firstDeadline Date_parse now l2 text
    end.
Proof.
  induction l1 as [|r l1 IH]; [done|]. cbn [app firstDeadline].
  destruct (matchRe true r text) as [m|]; [|done].
  by destruct (m !! 1%nat ≫= parseDateString Date_parse now).
Qed.

(** X21. A "within" clause is never read as a relative date. When none of
    the three "by" patterns gives a deadline and the "within" pattern
    matches, the fragment handed to the date resolver is the amount and the
    unit without the word "within"; unless the unit word itself contains
    "within", the resolver then takes neither its relative branch nor its
    "end of" branch: the deadline is the calendar parse of the fragment, the
    same at every reading of the clock, and there is none when the calendar
    parser rejects the fragment. *)
Theorem within_clause_is_calendar_date
    (now : Z) (text : string) (m : captures) (g : string) :
  firstDeadline Date_parse now [reByMonthYear; reByDate; reByEndOf] text = None ->
  matchRe true reWithin text = Some m -> m !! 1%nat = Some g ->
  includes (toLowerCase g) "within" = false ->
  (exists ds ws w, g = ds ++ ws ++ w /\ ds <> "" /\ allChars isDigit ds = true /\
     allChars isSpace ws = true /\ w <> "" /\ allChars isWord w = true) /\
  forall now',
    firstDeadline Date_parse now' deadlinePatterns text
    = match Date_parse g with TimeValue t => Some (TimeValue t) | InvalidDate => None end.
Proof.
  intros Hby Hm Hg Hw.
  destruct (reWithin_inv text m Hm) as (ds & ws & w & Hg' & Hne & Hds & Hws & Hnw & Hww).
  assert (g = ds ++ ws ++ w) as -> by congruence.
  split; [by exists ds, ws, w|]. intros now'.
  destruct (within_fragment ds ws w Hne Hds Hws Hnw Hww) as [Htrim Hend].
  assert (Hp : parseDateString Date_parse now' (ds ++ ws ++ w)
               = match Date_parse (ds ++ ws ++ w) with
                 | TimeValue t => Some (TimeValue t) | InvalidDate => None end).
  { unfold parseDateString. by rewrite Htrim, Hw, Hend. }
  change deadlinePatterns with ([reByMonthYear; reByDate; reByEndOf] ++ [reWithin])%list.
  rewrite firstDeadline_app, (firstDeadline_None_clock now now' _ text Hby).
  cbn [firstDeadline]. rewrite Hm, Hg. cbn [mbind option_bind]. rewrite Hp.
  by destruct (Date_parse (ds ++ ws ++ w)).
Qed.

End Parser.

End parser_more.

(** * Properties of the reading of comments *)

Module check_facts.
Import JsNumber db db_spec index index_spec store_facts.
Open Scope string_scope.

Lemma grows_refl d : grows d d.
Proof. by split. Qed.

Lemma grows_trans d1 d2 d3 : grows d1 d2 -> grows d2 d3 -> grows d1 d3.
Proof. intros [H1 H2] [H3 H4]. split; [congruence|auto]. Qed.

Lemma handled_grows comment d d' : handled comment d -> grows d d' -> handled comment d'.
Proof.
  intros [H|H] [_ Hg]; [left|by right].
  apply Exists_exists in H as ([id p] & Hin & Hc). apply Exists_exists.
  exists (id, p). split; [by apply Hg|done].
Qed.

Lemma getOrCreateAgent_grows fresh now name d :
  grows d (getOrCreateAgent fresh now name d).2.
Proof.
  split.
  - unfold getOrCreateAgent. destruct (getAgentByName name d); [done|].
    by destruct (agents d !! fresh).
  - intros id p. rewrite !getPendingPredictions_elem. intros (Hp & Hs & [a Ha]).
    unfold getOrCreateAgent. destruct (getAgentByName name d); [by eauto|].
    destruct (agents d !! fresh) eqn:Ef; [by eauto|]. cbn.
    split; [done|]. split; [done|]. exists a. rewrite lookup_insert_ne; [done|]. congruence.
Qed.

Lemma createPrediction_grows fresh now data d :
  grows d (createPrediction fresh now data d).2.
Proof.
  split.
  - unfold createPrediction. by destruct (predictions d !! fresh).
  - intros id p. rewrite !getPendingPredictions_elem. intros (Hp & Hs & Ha).
    unfold createPrediction. destruct (predictions d !! fresh) eqn:Ef; [done|]. cbn.
    split; [|done]. rewrite lookup_insert_ne; [done|]. congruence.
Qed.

Section Check.
Variable Date_parse : string -> JsDate.Date.

Lemma parsePrediction_None now content :
  parser.parsePrediction Date_parse now content = None <->
  RegExp.matchRe true parser.rePrediction content = None.
Proof.
  unfold parser.parsePrediction.
  by destruct (RegExp.matchRe true parser.rePrediction content).
Qed.

(** What the handling of a comment does to the store, when it does
    anything. *)
Lemma checkComment_cases draw tid pid comment d :
  (handled comment d /\ checkComment Date_parse draw tid pid comment d = inr d) \/
  (~ handled comment d /\
   exists parsed,
     parser.parsePrediction Date_parse (clock_parse draw) (c_content comment) = Some parsed /\
     let r := getOrCreateAgent (draw_agent draw) (clock_agent draw) (c_author_name comment) d in
     match r.1 with
     | None => checkComment Date_parse draw tid pid comment d = inl r.2
     | Some agent =>
         match toISOString (parser.deadline parsed) with
         | None => checkComment Date_parse draw tid pid comment d = inl r.2
         | Some deadline =>
             let c := createPrediction (draw_prediction draw) (clock_insert draw)
                        (predictionData agent.1 tid pid comment parsed deadline) r.2 in
             checkComment Date_parse draw tid pid comment d
             = match c.1 with None => inl c.2 | Some _ => inr c.2 end
         end
     end).
Proof.
  unfold checkComment, handled.
  destruct (decide (Exists _ _)) as [He|He]; [by left; split; [left|]|].
  destruct (parser.parsePrediction Date_parse (clock_parse draw) (c_content comment))
    as [parsed|] eqn:Ep.
  - right. split.
    { intros [H|H]; [done|]. apply (parsePrediction_None (clock_parse draw)) in H.
      congruence. }
    exists parsed. split; [done|]. cbv zeta.
    destruct (getOrCreateAgent _ _ _ d) as [[agent|] d1]; cbn [fst snd]; [|done].
    destruct (toISOString (parser.deadline parsed)) as [deadline|]; [|done].
    by destruct (createPrediction _ _ _ d1) as [[?|] ?].
  - left. split; [|done]. right. by apply (parsePrediction_None (clock_parse draw)).
Qed.

Lemma checkComment_grows draw tid pid comment d d' :
  checkComment Date_parse draw tid pid comment d = inr d' \/
  checkComment Date_parse draw tid pid comment d = inl d' ->
  grows d d'.
Proof.
  intros H.
  destruct (checkComment_cases draw tid pid comment d)
    as [[_ E]|(_ & parsed & _ & Hc)].
  - rewrite E in H. destruct H as [[= <-]|H]; [apply grows_refl|done].
  - cbv zeta in Hc.
    pose proof (getOrCreateAgent_grows (draw_agent draw) (clock_agent draw)
                  (c_author_name comment) d) as Hg.
    destruct (getOrCreateAgent _ _ _ d) as [[agent|] d1]; cbn [fst snd] in *.
    + destruct (toISOString (parser.deadline parsed)) as [deadline|].
      * pose proof (createPrediction_grows (draw_prediction draw) (clock_insert draw)
                      (predictionData agent.1 tid pid comment parsed deadline) d1) as Hg2.
        rewrite Hc in H.
        destruct (createPrediction _ _ _ d1) as [[?|] d2]; cbn [fst snd] in *;
          destruct H as [[= <-]|[= <-]]; by apply (grows_trans d d1 d2).
      * rewrite Hc in H. by destruct H as [[= <-]|[= <-]].
    + rewrite Hc in H. by destruct H as [[= <-]|[= <-]].
Qed.

(** A comment that was handled without an exception needs no handling
    any more. *)
Lemma checkComment_handles draw tid pid comment d d' :
  checkComment Date_parse draw tid pid comment d = inr d' ->
  c_id comment <> "" -> handled comment d'.
Proof.
  intros H Hid.
  destruct (checkComment_cases draw tid pid comment d)
    as [[Hh E]|(_ & parsed & _ & Hc)].
  - rewrite E in H. by injection H as <-.
  - cbv zeta in Hc.
    destruct (getOrCreateAgent_cases (draw_agent draw) (clock_agent draw)
                (c_author_name comment) d) as [Hsome _].
    destruct (getOrCreateAgent _ _ _ d) as [[agent|] d1] eqn:Eg; cbn [fst snd] in *;
      [|congruence].
    destruct (Hsome agent d1 eq_refl) as (_ & Hagent & _).
    destruct (toISOString (parser.deadline parsed)) as [deadline|]; [|congruence].
    rewrite Hc in H. unfold createPrediction in H.
    destruct (predictions d1 !! draw_prediction draw) eqn:Ef; cbn [fst snd] in H; [done|].
    injection H as <-. left. apply Exists_exists.
    exists (draw_prediction draw,
            newPrediction (predictionData agent.1 tid pid comment parsed deadline)
              (clock_insert draw)).
    split.
    + apply getPendingPredictions_elem. cbn. rewrite lookup_insert_eq.
      split; [done|]. split; [done|]. by rewrite Hagent.
    + cbn. by rewrite decide_False.
Qed.

Lemma checkComment_handled draw tid pid comment d :
  handled comment d -> checkComment Date_parse draw tid pid comment d = inr d.
Proof.
  intros Hh. by destruct (checkComment_cases draw tid pid comment d) as [[_ E]|[Hn _]].
Qed.

Lemma checkComments_run draws j tid pid comments d d' :
  checkComments Date_parse draws j tid pid comments d = inr d' ->
  Forall (fun c => c_id c <> "") comments ->
  grows d d' /\ Forall (fun c => handled c d') comments.
Proof.
  revert j d. induction comments as [|c comments IH]; intros j d H Hid.
  - injection H as <-. split; [apply grows_refl|constructor].
  - cbn [checkComments] in H.
    destruct (checkComment Date_parse (draws j) tid pid c d) as [?|d1] eqn:E; [done|].
    apply Forall_cons in Hid as [Hc Hid].
    destruct (IH _ _ H Hid) as [Hg Hall].
    pose proof (checkComment_grows _ _ _ _ _ _ (or_introl E)) as Hg1.
    split; [by apply (grows_trans d d1 d')|].
    constructor; [|done].
    apply (handled_grows c d1 d'); [|done]. by apply (checkComment_handles _ _ _ _ _ _ E).
Qed.

Lemma checkComments_noop draws j tid pid comments d :
  Forall (fun c => handled c d) comments ->
  checkComments Date_parse draws j tid pid comments d = inr d.
Proof.
  revert j. induction comments as [|c comments IH]; intros j Hall; [done|].
  apply Forall_cons in Hall as [Hc Hall]. cbn [checkComments].
  rewrite (checkComment_handled _ _ _ _ _ Hc). by apply IH.
Qed.

Lemma getTopicByPostId_grows postId d d' :
  grows d d' -> getTopicByPostId postId d' = getTopicByPostId postId d.
Proof. intros [Ht _]. unfold getTopicByPostId. by rewrite Ht. Qed.

Lemma checkPosts_run draws i posts d d' :
  checkPosts Date_parse draws i posts d = inr d' ->
  Forall (fun post => forall comments, post.2 = Some comments ->
            Forall (fun c => c_id c <> "") comments) posts ->
  grows d d' /\
  forall draws' i', checkPosts Date_parse draws' i' posts d' = inr d'.
Proof.
  revert i d. induction posts as [|[postId comments] posts IH]; intros i d H Hid.
  - injection H as <-. split; [apply grows_refl|done].
  - apply Forall_cons in Hid as [Hc Hid]. cbn [checkPosts] in H |- *.
    destruct (getTopicByPostId postId d) as [topic|] eqn:Et.
    + destruct (resolved topic.2) eqn:Er.
      * destruct (IH _ _ H Hid) as [Hg Hagain]. split; [done|]. intros draws' i'.
        rewrite (getTopicByPostId_grows postId d d' Hg), Et, Er. apply Hagain.
      * destruct comments as [comments|]; [|done].
        destruct (checkComments Date_parse (draws i) 0 topic.1 postId comments d)
          as [?|d1] eqn:E; [done|].
        destruct (checkComments_run _ _ _ _ _ _ _ E (Hc comments eq_refl)) as [Hg1 Hall].
        destruct (IH _ _ H Hid) as [Hg Hagain].
        split; [by apply (grows_trans d d1 d')|]. intros draws' i'.
        rewrite (getTopicByPostId_grows postId d d' (grows_trans _ _ _ Hg1 Hg)), Et, Er.
        rewrite checkComments_noop; [apply Hagain|].
        eapply Forall_impl; [exact Hall|]. intros c Hh. by apply (handled_grows c d1 d').
    + destruct (IH _ _ H Hid) as [Hg Hagain]. split; [done|]. intros draws' i'.
      rewrite (getTopicByPostId_grows postId d d' Hg), Et. apply Hagain.
Qed.

(** X22. The reading of comments is idempotent. A comment that already
    has a pending forecast, or whose text holds no forecast, is skipped and
    the store is left as it is. When a run over the posts ends without an
    exception, and every comment has a non-empty identifier, the store has
    the same topics as before and lists every forecast that was pending
    before; and a second run over the same posts, whatever it draws, stores
    nothing: it leaves the store as it is. *)
Theorem checkNewPredictions_idempotent
    (draws : nat -> nat -> Draw) (posts : list (string * option (list MoltbookComment)))
    (d d' : Db) :
  (forall draw tid pid comment d0,
     handled comment d0 -> checkComment Date_parse draw tid pid comment d0 = inr d0) /\
  (checkPosts Date_parse draws 0 posts d = inr d' ->
   Forall (fun post => forall comments, post.2 = Some comments ->
             Forall (fun c => c_id c <> "") comments) posts ->
   grows d d' /\
   forall draws', checkNewPredictions Date_parse draws' posts d' = d').
Proof.
  split; [intros; by apply checkComment_handled|].
  intros H Hid. destruct (checkPosts_run draws 0 posts d d' H Hid) as [Hg Hagain].
  split; [done|]. intros draws'. unfold checkNewPredictions. by rewrite Hagain.
Qed.

(** X23. What the reading of a comment stores. When a comment that needs
    handling is handled without an exception, exactly one forecast is added,
    under the identifier drawn for it: it is pending, belongs to the agent
    that carries the name of the author, is bound to the topic, the post and
    the comment (an empty identifier is stored as none), carries the claim
    text that the parser extracted, a confidence between 1 and 10 and a
    category of the closed set; every other forecast and every topic is
    left as it is. *)
Theorem checkComment_stores
    (draw : Draw) (tid pid : string) (comment : MoltbookComment) (d d' : Db) :
  checkComment Date_parse draw tid pid comment d = inr d' ->
  ~ handled comment d ->
  exists parsed p a,
    parser.parsePrediction Date_parse (clock_parse draw) (c_content comment) = Some parsed /\
    getPrediction (draw_prediction draw) d = None /\
    getPrediction (draw_prediction draw) d' = Some p /\
    status p = pending /\
    getAgent (agent_id p) d' = Some a /\ moltbook_name a = c_author_name comment /\
    topic_id p = or_null (Some tid) /\ post_id p = or_null (Some pid) /\
    comment_id p = or_null (Some (c_id comment)) /\
    prediction_text p = parser.prediction parsed /\
    1 <= confidence p <= 10 /\
    In (category p) ["tech"; "crypto"; "ai"; "world"; "science"; "other"] /\
    (forall id, id <> draw_prediction draw -> getPrediction id d' = getPrediction id d) /\
    topics d' = topics d.
Proof.
  intros H Hn.
  destruct (checkComment_cases draw tid pid comment d)
    as [[Hh _]|(_ & parsed & Hp & Hc)]; [done|].
  cbv zeta in Hc.
  destruct (getOrCreateAgent_cases (draw_agent draw) (clock_agent draw)
              (c_author_name comment) d) as [Hsome _].
  destruct (getOrCreateAgent _ _ _ d) as [[agent|] d1] eqn:Eg; cbn [fst snd] in *;
    [|congruence].
  destruct (Hsome agent d1 eq_refl) as (Hname & Hagent & _ & Hpred & Htop & _).
  destruct (toISOString (parser.deadline parsed)) as [deadline|]; [|congruence].
  rewrite Hc in H. unfold createPrediction in H.
  destruct (predictions d1 !! draw_prediction draw) eqn:Ef; cbn [fst snd] in H; [done|].
  injection H as <-.
  destruct (parser_more.parsePrediction_shape Date_parse _ _ _ Hp) as (Hconf & _ & Hcat & _).
  exists parsed, (newPrediction (predictionData agent.1 tid pid comment parsed deadline)
                    (clock_insert draw)), agent.2.
  unfold getPrediction, getAgent. cbn.
  rewrite lookup_insert_eq, <- Hpred, Ef.
  repeat split; try done.
  - lia.
  - lia.
  - assert (Hne : parser.category parsed <> "").
    { intros E. rewrite E in Hcat. cbn in Hcat. intuition discriminate. }
    by rewrite decide_False.
  - intros id Hne. by rewrite lookup_insert_ne.
Qed.

End Check.

End check_facts.

(** * The properties on the sample data *)

Module examples_facts.
Import JsNumber db db_spec.
Open Scope string_scope.

Lemma reachable_d0 : reachable samples.d0.
Proof.
  unfold samples.d0.
  eapply reachable_step.
  - eapply reachable_step; [apply reachable_empty|].
    apply (step_getOrCreateAgent "a1" 0 "alice").
  - apply (step_createPrediction "p1" 1 samples.forecast).
Qed.

Lemma step_d0_d1 : step samples.d0 samples.d1.
Proof. apply (step_resolvePrediction 2 "p1" true None). Qed.

Lemma reachable_d1 : reachable samples.d1.
Proof. apply (reachable_step samples.d0); [apply reachable_d0|apply step_d0_d1]. Qed.

Lemma reachable_d3 : reachable examples.d3.
Proof.
  apply (reachable_step samples.d0); [apply reachable_d0|].
  apply (step_createTopic "t1" 0 examples.topic1).
Qed.

Lemma agent_name_is_key_witness :
  reachable samples.d1 /\ names_unique samples.d1.
Proof.
  split; [exact reachable_d1|].
  exact (proj1 (store_facts.agent_name_is_key samples.d1 reachable_d1)).
Defined.

Lemma getOrCreateAgent_idempotent_witness :
  getOrCreateAgent "a1" 0 "alice" empty
  = (Some ("a1", newAgent "alice" 0), (getOrCreateAgent "a1" 0 "alice" empty).2) /\
  getOrCreateAgent "a2" 9 "alice" (getOrCreateAgent "a1" 0 "alice" empty).2
  = (Some ("a1", newAgent "alice" 0), (getOrCreateAgent "a1" 0 "alice" empty).2).
Proof.
  assert (H : getOrCreateAgent "a1" 0 "alice" empty
              = (Some ("a1", newAgent "alice" 0), (getOrCreateAgent "a1" 0 "alice" empty).2))
    by (vm_compute; reflexivity).
  split; [exact H|].
  exact (proj2 (proj2 (proj2 (proj2 (proj2
    (proj1 (store_facts.getOrCreateAgent_idempotent "a1" 0 "alice" empty) _ _ H))))) "a2" 9).
Defined.

Lemma agent_counters_witness :
  reachable samples.d1 /\ agents samples.d1 !! "a1" = Some (agent_correct 2 (newAgent "alice" 0)) /\
  best_streak (agent_correct 2 (newAgent "alice" 0))
    <= correct_predictions (agent_correct 2 (newAgent "alice" 0)).
Proof.
  assert (H : agents samples.d1 !! "a1" = Some (agent_correct 2 (newAgent "alice" 0)))
    by (vm_compute; reflexivity).
  split; [exact reachable_d1|]. split; [exact H|].
  exact (proj1 (proj2 (store_facts.agent_counters samples.d1 "a1" _ reachable_d1 H))).
Defined.

Lemma lifecycle_invariant_witness :
  reachable samples.d1 /\
  forall id p, predictions samples.d1 !! id = Some p ->
    (status p = pending <-> resolved_at p = None) /\ on_chain_id p = None.
Proof.
  split; [exact reachable_d1|].
  exact (proj1 (store_facts.lifecycle_invariant samples.d1 reachable_d1)).
Defined.

Lemma rows_are_kept_witness :
  rtc step samples.d0 samples.d1 /\
  forall id p, predictions samples.d0 !! id = Some p ->
    exists p', predictions samples.d1 !! id = Some p' /\ same_forecast p p' /\
      (status p <> pending -> status p' <> pending).
Proof.
  assert (H : rtc step samples.d0 samples.d1) by (apply rtc_once, step_d0_d1).
  split; [exact H|].
  exact (proj1 (store_facts.rows_are_kept samples.d0 samples.d1 H)).
Defined.

Lemma leaderboard_always_empty_witness :
  reachable samples.d1 /\
  forall limit, getLeaderboard (fun x => x) limit samples.d1 = [].
Proof.
  split; [exact reachable_d1|].
  exact (proj1 (index_facts.leaderboard_always_empty (fun x => x)
                  (fun _ => "") (fun _ => "") "" samples.d1 reachable_d1)).
Defined.

Lemma resolveTopic_settles_all_witness :
  getTopic "t1" examples.d3 = Some (newTopic examples.topic1 0) /\
  exists results d',
    resolver.resolveTopic samples.noChain 3 "t1" "Yes, it happened" ["btc"] examples.d3
    = (inr results, d') /\
    forall id p, (id, p) ∈ getPendingPredictions d' -> topic_id p <> Some "t1".
Proof.
  assert (H : getTopic "t1" examples.d3 = Some (newTopic examples.topic1 0))
    by (vm_compute; reflexivity).
  split; [exact H|].
  destruct (settle_facts.resolveTopic_settles_all samples.noChain 3 "t1" "Yes, it happened"
              ["btc"] examples.d3 _ H eq_refl) as (results & d' & Hr & _ & _ & _ & Hp).
  exists results, d'. split; [exact Hr|exact Hp].
Defined.

Lemma resolveTopic_once_witness :
  resolver.resolveTopic samples.noChain 3 "t1" "Yes, it happened" ["btc"] examples.d3
  = (inr [ {| resolver.predictionId := "p1"; resolver.agentName := "alice";
              resolver.correct := true; resolver.reward := ofZ 198;
              resolver.newStreak := 1; resolver.txHash := None |} ], examples.d4) /\
  resolver.resolveTopic samples.noChain 4 "t1" "No" [] examples.d4
  = (inl (resolver.Error "Topic already resolved: t1"), examples.d4).
Proof.
  assert (H : resolver.resolveTopic samples.noChain 3 "t1" "Yes, it happened" ["btc"]
                examples.d3
              = (inr [ {| resolver.predictionId := "p1"; resolver.agentName := "alice";
                          resolver.correct := true; resolver.reward := ofZ 198;
                          resolver.newStreak := 1; resolver.txHash := None |} ],
                 examples.d4)) by (vm_compute; reflexivity).
  split; [exact H|].
  exact (proj2 (proj2 (settle_facts.resolveTopic_once samples.noChain 3 "t1"
                         "Yes, it happened" ["btc"] examples.d3)) _ _ 4 "No" [] H).
Defined.

Lemma ledger_never_called_witness :
  reachable samples.d0 /\
  resolver.resolvePrediction (fun _ _ => Some "0xabc") 2 "p1" true true samples.d0
  = resolver.resolvePrediction (fun _ _ => None) 2 "p1" true false samples.d0.
Proof.
  split; [exact reachable_d0|].
  exact (proj1 (settle_facts.ledger_never_called (fun _ _ => Some "0xabc") 2 "p1" true true
                  samples.d0 reachable_d0)).
Defined.

Lemma calculateReward_closed_form_witness :
  0 <= 2 /\ scorer.totalReward (scorer.calculateReward 8 2) = ofZ 208.
Proof.
  assert (H : 0 <= 2) by lia. split; [exact H|].
  exact (proj1 (reward_facts.calculateReward_closed_form 8 2 H)).
Defined.

Lemma calculateReward_monotone_witness :
  SFleb (scorer.totalReward (scorer.calculateReward 3 0))
        (scorer.totalReward (scorer.calculateReward 8 2)) = true.
Proof.
  apply (reward_facts.calculateReward_monotone 3 8 0 2); lia.
Defined.

(** ** The ledger *)

Lemma reachable_s2 :
  OraclePredictions.reachable unit examples.mint examples.keccak 7 examples.s2.
Proof.
  eapply OraclePredictions.reachable_step.
  - eapply OraclePredictions.reachable_step.
    + apply (OraclePredictions.reachable_deployed unit examples.mint examples.keccak 7
               1 examples.token).
    + apply (OraclePredictions.step_registerAgent unit examples.mint examples.keccak 7
               1 "alice" 5 examples.s0 examples.s1).
      vm_compute. reflexivity.
  - apply (OraclePredictions.step_submitPrediction unit examples.mint examples.keccak 7
             1 100 "alice" 42 8 examples.s1 42 examples.s2).
    vm_compute. reflexivity.
Qed.


Lemma ledger_statistics_witness :
  OraclePredictions.reachable unit examples.mint examples.keccak 7 examples.s2 /\
  forall id p, OraclePredictions.predictions unit examples.s2 !! id = Some p ->
    1 <= OraclePredictions.confidence p <= 10 /\
    (OraclePredictions.resolved p = false \/ OraclePredictions.correct p = false ->
     OraclePredictions.reward p = 0).
Proof.
  split; [exact reachable_s2|].
  exact (proj2 (proj2 (contract_facts.ledger_statistics unit examples.mint examples.keccak 7
                         examples.s2 reachable_s2))).
Defined.


(** ** The parser *)

Lemma parseDateString_within_days_witness :
  parser.parseDateString samples.Date_parse samples.now0 "within 30 days"
  = Some (JsDate.TimeClip (samples.now0 + 30 * JsDate.msPerDay)).
Proof.
  apply (proj1 (parser_more.parseDateString_within_days samples.Date_parse samples.now0
                  "30" ltac:(discriminate) eq_refl)).
Defined.

Lemma parsePrediction_wellformed_witness :
  exists r,
    parser.parsePrediction samples.Date_parse samples.now0 samples.comment = Some r /\
    1 <= parser.confidence r <= 10.
Proof.
  eexists. split; [apply parser_theorems.parsePrediction_sample|].
  exact (proj1 (parser_more.parsePrediction_wellformed samples.Date_parse samples.now0
                  samples.comment _
                  (parser_theorems.parsePrediction_sample samples.Date_parse samples.now0))).
Defined.

Lemma within_clause_is_calendar_date_witness :
  RegExp.matchRe true parser.reWithin "BTC will hit 100k within 30 days"
  = Some (<[1%nat := "30 days"]> ∅) /\
  forall now',
    parser.firstDeadline samples.Date_parse now' parser.deadlinePatterns
      "BTC will hit 100k within 30 days" = None.
Proof.
  assert (Hm : RegExp.matchRe true parser.reWithin "BTC will hit 100k within 30 days"
               = Some (<[1%nat := "30 days"]> ∅)) by (vm_compute; reflexivity).
  split; [exact Hm|].
  refine (proj2 (parser_more.within_clause_is_calendar_date samples.Date_parse samples.now0
                   "BTC will hit 100k within 30 days" (<[1%nat := "30 days"]> ∅) "30 days"
                   _ Hm _ _)).
  - vm_compute. reflexivity.
  - vm_compute. reflexivity.
  - vm_compute. reflexivity.
Defined.

(** ** The reading of comments *)

Lemma check_d3 :
  index.checkPosts samples.Date_parse examples.draws 0 examples.posts examples.d3
  = inr examples.d5.
Proof. vm_compute. reflexivity. Qed.

Lemma checkNewPredictions_idempotent_witness :
  is_Some (predictions examples.d5 !! "p2") /\
  index.checkNewPredictions samples.Date_parse examples.draws' examples.posts examples.d5
  = examples.d5.
Proof.
  split; [vm_compute; eauto|].
  refine (proj2 (proj2 (check_facts.checkNewPredictions_idempotent samples.Date_parse
                          examples.draws examples.posts examples.d3 examples.d5)
                   check_d3 _) examples.draws').
  repeat constructor. intros comments [= <-]. repeat constructor. discriminate.
Defined.

Lemma not_handled_comment2 : ~ index_spec.handled examples.comment2 examples.d3.
Proof.
  assert (Hl : getPendingPredictions examples.d3 = [("p1", newPrediction samples.forecast 1)])
    by (vm_compute; reflexivity).
  intros [He|Hm].
  - rewrite Hl in He. apply Exists_cons in He as [Hc|He].
    + cbn in Hc. discriminate.
    + by apply Exists_nil in He.
  - vm_compute in Hm. discriminate.
Qed.

Lemma checkComment_stores_witness :
  exists parsed p a,
    parser.parsePrediction samples.Date_parse samples.now0 samples.comment = Some parsed /\
    getPrediction "p2" examples.d3 = None /\
    getPrediction "p2" examples.d5 = Some p /\ status p = pending /\
    getAgent (agent_id p) examples.d5 = Some a /\ moltbook_name a = "bob".
Proof.
  assert (H : index.checkComment samples.Date_parse (examples.draws 0 0) "t1" "post1"
                examples.comment2 examples.d3 = inr examples.d5)
    by (vm_compute; reflexivity).
  destruct (check_facts.checkComment_stores samples.Date_parse (examples.draws 0 0)
              "t1" "post1" examples.comment2 examples.d3 examples.d5 H not_handled_comment2)
    as (parsed & p & a & H1 & H2 & H3 & H4 & H5 & H6 & _).
  exists parsed, p, a. by repeat split.
Defined.

End examples_facts.

